(** * Bar monitor: tracking, line crossing, dwell sessions, occupancy events

    A shallow embedding of
      - hailo_integration/counting_logic.py (CentroidTracker, EntryExitCounter)
      - hailo_integration/dwell_time_tracker.py (DwellSession, DwellTimeTracker)
      - hailo_integration/occupancy_tracker.py (OccupancyTracker)
    followed by the properties of these components.

    Conventions of the embedding.
      - Python [int] is [Z].
      - A reading of the system clock is an input.  A method that calls
        [time.time()] or [datetime.now()] takes a function [nat -> _] whose
        value at [k] is the k-th reading made while the method runs; no
        assumption (not even monotonicity) is made on it unless a theorem
        says so.
      - Clock readings and durations, Python [float]s, are exact rationals
        ([Q]); the properties below are those of exact arithmetic.
        Euclidean distances are compared through their squares, which are
        integers (see [_compute_distances]).
      - [dict] and [OrderedDict] objects that are iterated are insertion
        ordered association lists ([odict]); [track_states] and the [stats]
        argument, which are only looked up, are [gmap]s.
      - The SQLite tables are lists of rows in rowid order. *)

From Stdlib Require Import ZArith QArith List Sorted Bool Arith Lia.
From stdpp Require Import gmap strings.
Import ListNotations.

Local Open Scope Z_scope.

(* ===================================================================== *)
(** * Insertion-ordered dictionaries keyed by [int] *)
(* ===================================================================== *)

Module OrderedDict.
Section Defs.
Context {V : Type}.

Definition odict := list (Z * V).

(** [d.get(k)] / [k in d] *)
Fixpoint get (k : Z) (d : odict) : option V :=
  match d with
  | [] => None
  | (k', v) :: d' => if Z.eqb k k' then Some v else get k d'
  end.

Definition mem (k : Z) (d : odict) : bool :=
  match get k d with Some _ => true | None => false end.

(** [d[k] = v]: an existing key keeps its position, a new key goes last. *)
Fixpoint set (k : Z) (v : V) (d : odict) : odict :=
  match d with
  | [] => [(k, v)]
  | (k', v') :: d' =>
      if Z.eqb k k' then (k, v) :: d' else (k', v') :: set k v d'
  end.

(** [del d[k]] (callers test [k in d] first). *)
Definition del (k : Z) (d : odict) : odict :=
  List.filter (fun kv => negb (Z.eqb k (fst kv))) d.

(** In-place mutation of the object stored under [k]: [f(d[k])] where [f]
    mutates its argument.  Every caller passes a key of [d]. *)
Fixpoint alter (f : V -> V) (k : Z) (d : odict) : odict :=
  match d with
  | [] => []
  | (k', v) :: d' =>
      if Z.eqb k k' then (k', f v) :: d' else (k', v) :: alter f k d'
  end.

Definition keys (d : odict) : list Z := List.map fst d.
Definition values (d : odict) : list V := List.map snd d.
End Defs.
Arguments odict : clear implicits.
End OrderedDict.
Module OD := OrderedDict.
Abbreviation odict := OrderedDict.odict.

(* ===================================================================== *)
(** * counting_logic.py *)
(* ===================================================================== *)

(** ** Distance matrices (the [np.ndarray] of [_compute_distances]) *)

(** An entry of a distance matrix: a finite value or [float('inf')].
    The matcher only compares entries, so any order embedding of the finite
    floats into [Z] is a faithful carrier. *)
Inductive dist : Type :=
  | Fin (d : Z)
  | Inf.

Definition dist_leb (a b : dist) : bool :=
  match a, b with
  | _, Inf => true
  | Inf, Fin _ => false
  | Fin x, Fin y => Z.leb x y
  end.

Definition dist_ltb (a b : dist) : bool := negb (dist_leb b a).

Definition dist_le (a b : dist) : Prop := dist_leb a b = true.
Definition dist_lt (a b : dist) : Prop := dist_ltb a b = true.

Definition dist_eqb (a b : dist) : bool :=
  match a, b with
  | Inf, Inf => true
  | Fin x, Fin y => Z.eqb x y
  | _, _ => false
  end.

Definition dist_min (a b : dist) : dist := if dist_leb a b then a else b.

(** A two-dimensional array: its shape and its entries. *)
Record ndarray : Type := mk_ndarray {
  nrows : nat;
  ncols : nat;
  at_ : nat -> nat -> dist
}.

Definition ndarray_size (D : ndarray) : nat := (nrows D * ncols D)%nat.

(** [np.unravel_index(k, D.shape)] for a C-ordered array. *)
Definition unravel_index (k : nat) (D : ndarray) : nat * nat :=
  ((k / ncols D)%nat, (k mod ncols D)%nat).
Arguments unravel_index : simpl never.

(** The k-th entry of the flattened array. *)
Definition flat_at (D : ndarray) (k : nat) : dist :=
  at_ D (fst (unravel_index k D)) (snd (unravel_index k D)).

Definition flat (D : ndarray) : list dist :=
  List.map (flat_at D) (seq 0 (ndarray_size D)).

(** [D.min()]: raises [ValueError] (here [None]) on a zero-size array. *)
Definition ndarray_min (D : ndarray) : option dist :=
  match flat D with
  | [] => None
  | x :: xs => Some (fold_left dist_min xs x)
  end.

(** Index of the first occurrence of [m] in a list. *)
Fixpoint first_index (m : dist) (l : list dist) : nat :=
  match l with
  | [] => 0%nat
  | x :: l' => if dist_eqb x m then 0%nat else S (first_index m l')
  end.

(** [D.argmin()]: flat index of the first occurrence of the minimum. *)
Definition ndarray_argmin (D : ndarray) : nat :=
  match ndarray_min D with
  | None => 0%nat
  | Some m => first_index m (flat D)
  end.

(** [D[i, :] = inf; D[:, j] = inf] *)
Definition mark_used (D : ndarray) (i j : nat) : ndarray :=
  {| nrows := nrows D;
     ncols := ncols D;
     at_ := fun r c => if Nat.eqb r i || Nat.eqb c j then Inf else at_ D r c |}.

(** Outcome of a loop that may raise or run for ever. *)
Inductive outcome (A : Type) : Type :=
  | Done (a : A)
  | Raised
  | OutOfFuel.
Arguments Done {A} a.
Arguments Raised {A}.
Arguments OutOfFuel {A}.

(** The [while True] loop of [_greedy_match]; [fuel] bounds the number of
    iterations. *)
Fixpoint _greedy_match_loop (fuel : nat) (distances : ndarray)
    (max_distance : dist) (matches : list (nat * nat))
  : outcome (list (nat * nat)) :=
  match fuel with
  | O => OutOfFuel
  | S fuel' =>
      match ndarray_min distances with
      | None => Raised
      | Some min_val =>
          if dist_ltb max_distance min_val then Done matches
          else
            let '(i, j) := unravel_index (ndarray_argmin distances) distances in
            _greedy_match_loop fuel' (mark_used distances i j) max_distance
              (matches ++ [(i, j)])
      end
  end.

Definition _greedy_match_fuel (fuel : nat) (distances : ndarray)
    (max_distance : dist) : outcome (list (nat * nat)) :=
  _greedy_match_loop fuel distances max_distance [].

(** One iteration per matched row and a last one that breaks. *)
Definition _greedy_match (distances : ndarray) (max_distance : dist)
  : outcome (list (nat * nat)) :=
  _greedy_match_fuel (S (nrows distances)) distances max_distance.

Definition of_rows (rows : list (list dist)) : ndarray :=
  {| nrows := length rows;
     ncols := length (hd [] rows);
     at_ := fun r c => nth c (nth r rows []) Inf |}.

(** ** TrackedPerson *)

Definition centroid : Type := Z * Z.

Inductive direction_t : Type := entry | exit.
Inductive side : Type := above | below.

Definition Qgtb (a b : Q) : bool := negb (Qle_bool a b).

(** [deque.append] on a deque created with [maxlen]: when the deque is full
    the leftmost item is discarded. *)
Definition deque_append (maxlen : nat) (d : list centroid) (c : centroid)
  : list centroid :=
  if (maxlen <=? length d)%nat then tl d ++ [c] else d ++ [c].

Module TrackedPerson.
Record t : Type := mk {
  track_id : Z;
  centroids : list centroid;      (* deque(maxlen=30), oldest first *)
  last_seen : Q;
  crossed_line : bool;
  direction : option direction_t
}.

(** [update_position(centroid)]; [now] is the reading of [time.time()]. *)
Definition update_position (now : Q) (c : centroid) (p : t) : t :=
  let cs := deque_append 30 (centroids p) c in
  {| track_id := track_id p;
     centroids := if (30 <? length cs)%nat then tl cs else cs;
     last_seen := now;
     crossed_line := crossed_line p;
     direction := direction p |}.

(** [track.crossed_line = True; track.direction = d] *)
Definition mark_crossed (d : direction_t) (p : t) : t :=
  {| track_id := track_id p;
     centroids := centroids p;
     last_seen := last_seen p;
     crossed_line := true;
     direction := Some d |}.
End TrackedPerson.

(** ** CentroidTracker *)

Module CentroidTracker.
Record t : Type := mk {
  next_id : Z;
  tracks : odict TrackedPerson.t;
  max_disappeared : Z;   (* frames *)
  max_distance : Z       (* pixels; 50 in every tracker of the counter *)
}.

Definition __init__ (max_disappeared max_distance : Z) : t :=
  {| next_id := 0; tracks := []; max_disappeared := max_disappeared;
     max_distance := max_distance |}.

Definition with_tracks (tr : t) (d : odict TrackedPerson.t) : t :=
  {| next_id := next_id tr; tracks := d;
     max_disappeared := max_disappeared tr;
     max_distance := max_distance tr |}.

(** [register(centroid)]; [now] is the reading of [time.time()]. *)
Definition register (now : Q) (c : centroid) (tr : t) : t :=
  {| next_id := next_id tr + 1;
     tracks :=
       OD.set (next_id tr)
         {| TrackedPerson.track_id := next_id tr;
            TrackedPerson.centroids := [c];
            TrackedPerson.last_seen := now;
            TrackedPerson.crossed_line := false;
            TrackedPerson.direction := None |}
         (tracks tr);
     max_disappeared := max_disappeared tr;
     max_distance := max_distance tr |}.

Definition deregister (track_id : Z) (tr : t) : t :=
  if OD.mem track_id (tracks tr)
  then with_tracks tr (OD.del track_id (tracks tr))
  else tr.

(** The squared Euclidean distance of two centroids. *)
Definition sq_dist (c1 c2 : centroid) : Z :=
  (fst c1 - fst c2) ^ 2 + (snd c1 - snd c2) ^ 2.

(** [_compute_distances]: the source stores [math.sqrt] of [sq_dist], a
    float; the matrix here holds the squares themselves, and the threshold is
    squared as well ([sq_threshold]).  The rounded square root is
    non-decreasing, so an order between two squares is never reversed.  For
    the coordinates of a camera frame the comparisons of [_greedy_match] come
    out the same on the squares: squares below [2^50] that differ have roots
    that differ by several units in the last place, and a root exceeds an
    integer [max_distance] below [2^26] (50 in the trackers of a counter)
    exactly when the square, below [2^53], exceeds its square.  Far beyond,
    the float rounds a distance just above the threshold down to it and the
    source matches where this matrix does not; a square beyond the range of
    floats makes [math.sqrt] raise [OverflowError], before the tracker is
    changed. *)
Definition _compute_distances (centroids1 centroids2 : list centroid)
  : ndarray :=
  {| nrows := length centroids1;
     ncols := length centroids2;
     at_ := fun i j =>
       Fin (sq_dist (nth i centroids1 (0, 0)) (nth j centroids2 (0, 0))) |}.

(** [math.sqrt(d2) > max_distance] iff [d2 > sq_threshold max_distance] for
    a square [0 <= d2 < 2^53] and an integer [max_distance < 2^26]. *)
Definition sq_threshold (max_distance : Z) : dist :=
  if max_distance <? 0 then Fin (-1) else Fin (max_distance * max_distance).

(** Pairs returned by the matcher; the loop always returns on the
    non-empty matrix and finite threshold passed by [update]
    (lemma [greedy_pairs_done]). *)
Definition greedy_pairs (distances : ndarray) (max_distance : Z)
  : list (nat * nat) :=
  match _greedy_match distances (sq_threshold max_distance) with
  | Done matches => matches
  | _ => []
  end.

(** [(current_time - last_seen) > (max_disappeared / 30.0)] *)
Definition expired (tr : t) (current_time : Q) (p : TrackedPerson.t) : bool :=
  Qgtb (current_time - TrackedPerson.last_seen p)
       (inject_Z (max_disappeared tr) / 30).

(** Registers the detections of a list in order; the k-th registration
    reads [clock (n + k)]. *)
Fixpoint register_all (clock : nat -> Q) (n : nat) (cs : list centroid)
    (tr : t) : t * nat :=
  match cs with
  | [] => (tr, n)
  | c :: cs' => register_all clock (S n) cs' (register (clock n) c tr)
  end.

(** The loop over [matched_pairs]: [tracks[track_ids[i]].update_position
    (detections[j])].  The indices come from the matcher and are in range. *)
Fixpoint update_matched (clock : nat -> Q) (n : nat)
    (track_ids : list Z) (detections : list centroid)
    (pairs : list (nat * nat)) (tr : t) : t * nat :=
  match pairs with
  | [] => (tr, n)
  | (track_idx, det_idx) :: pairs' =>
      let track_id := nth track_idx track_ids 0 in
      let c := nth det_idx detections (0, 0) in
      update_matched clock (S n) track_ids detections pairs'
        (with_tracks tr
           (OD.alter (TrackedPerson.update_position (clock n) c)
              track_id (tracks tr)))
  end.

Definition unmatched_detections (detections : list centroid)
    (matched_detection_ids : list nat) : list centroid :=
  List.map snd
    (List.filter
       (fun ic => negb (existsb (Nat.eqb (fst ic)) matched_detection_ids))
       (combine (seq 0 (length detections)) detections)).

(** [update(detections)]; [clock k] is the k-th reading of [time.time()]
    during the call.  Returns the tracker, whose [tracks] the caller
    receives. *)
Definition update (clock : nat -> Q) (detections : list centroid) (tr : t)
  : t :=
  match detections with
  | [] =>
      let current_time := clock 0%nat in
      let disappeared_ids :=
        OD.keys (List.filter (fun kv => expired tr current_time (snd kv))
                   (tracks tr)) in
      fold_left (fun tr' track_id => deregister track_id tr')
        disappeared_ids tr
  | _ :: _ =>
      match tracks tr with
      | [] => fst (register_all clock 0 detections tr)
      | _ :: _ =>
          let track_ids := OD.keys (tracks tr) in
          let track_centroids :=
            List.map (fun p => List.last (TrackedPerson.centroids p) (0, 0))
              (OD.values (tracks tr)) in
          let distances := _compute_distances track_centroids detections in
          let matched_pairs := greedy_pairs distances (max_distance tr) in
          let '(tr1, n1) :=
            update_matched clock 0 track_ids detections matched_pairs tr in
          let matched_track_ids :=
            List.map (fun ij => nth (fst ij) track_ids 0) matched_pairs in
          let matched_detection_ids := List.map snd matched_pairs in
          let '(tr2, n2) :=
            register_all clock n1
              (unmatched_detections detections matched_detection_ids) tr1 in
          let current_time := clock n2 in
          let disappeared_ids :=
            List.filter
              (fun track_id =>
                 negb (existsb (Z.eqb track_id) matched_track_ids)
                 && match OD.get track_id (tracks tr2) with
                    | Some p => expired tr2 current_time p
                    | None => false
                    end)
              track_ids in
          fold_left (fun tr' track_id => deregister track_id tr')
            disappeared_ids tr2
      end
  end.
End CentroidTracker.

(** ** EntryExitCounter *)

Module EntryExitCounter.
Record t : Type := mk {
  counting_line_y : Z;
  frame_height : Z;
  entry_direction : string;
  tracker : CentroidTracker.t;
  total_entries : Z;
  total_exits : Z;
  current_occupancy : Z;
  track_states : gmap Z side
}.

(** A crossing detected by [update]: the track and its direction.  For each
    one the source logs "Track id: direction detected" and, when a
    [dwell_tracker] is attached, calls its [record_entry] or [record_exit]
    with the track id. *)
Definition crossing : Type := Z * direction_t.

(** What one call of [update] produces besides the new state: the returned
    pair [(new_entries, new_exits)] and the crossings in the order they are
    detected. *)
Record tally : Type := mk_tally {
  new_entries : Z;
  new_exits : Z;
  crossings : list crossing
}.

Definition __init__ (counting_line_y frame_height : Z)
    (entry_direction : string) : t :=
  {| counting_line_y := counting_line_y;
     frame_height := frame_height;
     entry_direction := entry_direction;
     tracker := CentroidTracker.__init__ 30 50;
     total_entries := 0;
     total_exits := 0;
     current_occupancy := 0;
     track_states := ∅ |}.

Definition with_tracker (c : t) (tr : CentroidTracker.t) : t :=
  {| counting_line_y := counting_line_y c; frame_height := frame_height c;
     entry_direction := entry_direction c; tracker := tr;
     total_entries := total_entries c; total_exits := total_exits c;
     current_occupancy := current_occupancy c;
     track_states := track_states c |}.

Definition with_track_states (c : t) (s : gmap Z side) : t :=
  {| counting_line_y := counting_line_y c; frame_height := frame_height c;
     entry_direction := entry_direction c; tracker := tracker c;
     total_entries := total_entries c; total_exits := total_exits c;
     current_occupancy := current_occupancy c;
     track_states := s |}.

(** [total_entries += 1; current_occupancy += 1] *)
Definition count_entry (c : t) : t :=
  {| counting_line_y := counting_line_y c; frame_height := frame_height c;
     entry_direction := entry_direction c; tracker := tracker c;
     total_entries := total_entries c + 1; total_exits := total_exits c;
     current_occupancy := current_occupancy c + 1;
     track_states := track_states c |}.

(** [total_exits += 1; current_occupancy -= 1] *)
Definition count_exit (c : t) : t :=
  {| counting_line_y := counting_line_y c; frame_height := frame_height c;
     entry_direction := entry_direction c; tracker := tracker c;
     total_entries := total_entries c; total_exits := total_exits c + 1;
     current_occupancy := current_occupancy c - 1;
     track_states := track_states c |}.

(** The counting done for one crossing of track [track_id]. *)
Definition count (d : direction_t) (track_id : Z) (c : t) (r : tally)
  : t * tally :=
  match d with
  | entry =>
      (count_entry c,
       {| new_entries := new_entries r + 1; new_exits := new_exits r;
          crossings := crossings r ++ [(track_id, entry)] |})
  | exit =>
      (count_exit c,
       {| new_entries := new_entries r; new_exits := new_exits r + 1;
          crossings := crossings r ++ [(track_id, exit)] |})
  end.

(** The direction of a move from [previous_side] to [current_side], when
    the two differ. *)
Definition crossing_direction (entry_direction : string)
    (previous_side current_side : side) : option direction_t :=
  match previous_side, current_side with
  | above, below =>
      Some (if String.eqb entry_direction "down" then entry else exit)
  | below, above =>
      Some (if String.eqb entry_direction "down" then exit else entry)
  | _, _ => None
  end.

(** The body of [for track_id, track in tracks.items()].  The track object
    is shared with the tracker's dictionary, so the (possibly mutated)
    track is returned with the state. *)
Definition visit (c : t) (r : tally) (track_id : Z) (track : TrackedPerson.t)
  : t * tally * TrackedPerson.t :=
  if (length (TrackedPerson.centroids track) <? 2)%nat then (c, r, track)
  else
    let current_y := snd (List.last (TrackedPerson.centroids track) (0, 0)) in
    let current_side :=
      if current_y <? counting_line_y c then above else below in
    match track_states c !! track_id with
    | None =>
        (with_track_states c (<[track_id := current_side]> (track_states c)),
         r, track)
    | Some previous_side =>
        let '(c1, r1, track1) :=
          match crossing_direction (entry_direction c)
                  previous_side current_side with
          | Some d =>
              if negb (TrackedPerson.crossed_line track)
              then let '(c', r') := count d track_id c r in
                   (c', r', TrackedPerson.mark_crossed d track)
              else (c, r, track)
          | None => (c, r, track)
          end in
        (with_track_states c1
           (<[track_id := current_side]> (track_states c1)),
         r1, track1)
    end.

(** The loop over [tracks.items()]. *)
Fixpoint scan (c : t) (r : tally) (tracks : odict TrackedPerson.t)
  : t * tally * odict TrackedPerson.t :=
  match tracks with
  | [] => (c, r, [])
  | (track_id, track) :: rest =>
      let '(c1, r1, track1) := visit c r track_id track in
      let '(c2, r2, rest2) := scan c1 r1 rest in
      (c2, r2, (track_id, track1) :: rest2)
  end.

(** [update(detections)]; [clock] gives the readings of [time.time()] made
    by the tracker during the call. *)
Definition update (clock : nat -> Q) (detections : list centroid) (c : t)
  : tally * t :=
  let tr := CentroidTracker.update clock detections (tracker c) in
  let '(c1, r, tracks1) :=
    scan c {| new_entries := 0; new_exits := 0; crossings := [] |}
      (CentroidTracker.tracks tr) in
  let c2 := with_tracker c1 (CentroidTracker.with_tracks tr tracks1) in
  (* inactive_ids = set(track_states.keys()) - active_ids *)
  let active_ids := OD.keys tracks1 in
  (r,
   with_track_states c2
     (filter (fun kv => fst kv ∈ active_ids) (track_states c2))).

Definition get_occupancy (c : t) : Z := Z.max 0 (current_occupancy c).

Definition get_stats (c : t) : gmap string Z :=
  <["total_entries" := total_entries c]>
    (<["total_exits" := total_exits c]>
       (<["current_occupancy" := get_occupancy c]>
          (<["active_tracks" :=
               Z.of_nat (length (CentroidTracker.tracks (tracker c)))]> ∅))).

Definition reset (c : t) : t :=
  {| counting_line_y := counting_line_y c; frame_height := frame_height c;
     entry_direction := entry_direction c;
     tracker := CentroidTracker.__init__ 30 50;
     total_entries := 0; total_exits := 0; current_occupancy := 0;
     track_states := ∅ |}.

(** A frame: the detections passed to [update] and the clock readings made
    while it runs. *)
Definition frame : Type := (nat -> Q) * list centroid.

(** Calls made on a counter. *)
Inductive call : Type :=
  | Update (f : frame)
  | Reset.

Definition step (c : t) (op : call) : list crossing * t :=
  match op with
  | Update f => let '(r, c') := update (fst f) (snd f) c in (crossings r, c')
  | Reset => ([], reset c)
  end.

(** The state after a sequence of calls. *)
Definition run (ops : list call) (c : t) : t :=
  fold_left (fun c op => snd (step c op)) ops c.

(** The crossings of a sequence of [update] calls, in order. *)
Fixpoint crossings_of (frames : list frame) (c : t) : list crossing :=
  match frames with
  | [] => []
  | f :: frames' =>
      let '(r, c') := update (fst f) (snd f) c in
      crossings r ++ crossings_of frames' c'
  end.
End EntryExitCounter.

(* ===================================================================== *)
(** * dwell_time_tracker.py *)
(* ===================================================================== *)

(** A naive [datetime]: microseconds since 0001-01-01T00:00:00 (the day of
    ordinal 1, a Monday).  A [timedelta] is a number of microseconds. *)
Definition datetime : Type := Z.
Definition timedelta : Type := Z.

(** [t.hour] *)
Definition hour (t : datetime) : Z := (t / 3600000000) mod 24.

(** [t.weekday()], Monday is 0. *)
Definition weekday (t : datetime) : Z := (t / 86400000000) mod 7.

(** [t.strftime('%A')] *)
Definition strftime_A (t : datetime) : string :=
  nth (Z.to_nat (weekday t))
    ["Monday"; "Tuesday"; "Wednesday"; "Thursday"; "Friday"; "Saturday";
     "Sunday"]%string ""%string.

(** [delta.total_seconds()] *)
Definition total_seconds (delta : timedelta) : Q := inject_Z delta / 1000000.

(** [delta.total_seconds() / 60.0] *)
Definition minutes_of (delta : timedelta) : Q := total_seconds delta / 60.

(** [datetime.max], 9999-12-31T23:59:59.999999. *)
Definition datetime_max : datetime := 3652059 * 86400000000 - 1.

(** The range of [timedelta]: from -999999999 days to just below
    1000000000 days. *)
Definition timedelta_ok (delta : timedelta) : bool :=
  Z.leb (- 999999999 * 86400000000) delta
  && Z.ltb delta (1000000000 * 86400000000).

(** [t - timedelta(..)] for a [timedelta] of [delta] microseconds:
    [OverflowError] ([None]) when the [timedelta] cannot be built or the
    result is no [datetime]. *)
Definition minus (t : datetime) (delta : Z) : option datetime :=
  if timedelta_ok delta && Z.leb 0 (t - delta) && Z.leb (t - delta) datetime_max
  then Some (t - delta)
  else None.

Module DwellSession.
Record t : Type := mk {
  track_id : Z;
  entry_time : datetime;
  exit_time : option datetime;
  dwell_minutes : option Q;
  day_of_week : option string;
  entry_hour : option Z
}.

(** [DwellSession(track_id=.., entry_time=..)] *)
Definition new (track_id : Z) (entry_time : datetime) : t :=
  {| track_id := track_id; entry_time := entry_time; exit_time := None;
     dwell_minutes := None; day_of_week := None; entry_hour := None |}.

(** [session.exit_time = timestamp] *)
Definition set_exit_time (timestamp : datetime) (s : t) : t :=
  {| track_id := track_id s; entry_time := entry_time s;
     exit_time := Some timestamp; dwell_minutes := dwell_minutes s;
     day_of_week := day_of_week s; entry_hour := entry_hour s |}.

(** A [datetime] is always true, so [if self.exit_time] tests for [None]. *)
Definition calculate_dwell_time (s : t) : t :=
  match exit_time s with
  | Some e =>
      {| track_id := track_id s; entry_time := entry_time s;
         exit_time := exit_time s;
         dwell_minutes := Some (minutes_of (e - entry_time s));
         day_of_week := Some (strftime_A (entry_time s));
         entry_hour := Some (hour (entry_time s)) |}
  | None => s
  end.

Definition is_active (s : t) : bool :=
  match exit_time s with None => true | Some _ => false end.

(** [get_current_dwell_minutes()]: [datetime.now()] is read only when
    [exit_time] is [None]; [n] counts the readings made so far. *)
Definition get_current_dwell_minutes (clock : nat -> datetime) (n : nat)
    (s : t) : Q * nat :=
  match exit_time s with
  | Some end_time => (minutes_of (end_time - entry_time s), n)
  | None => (minutes_of (clock n - entry_time s), S n)
  end.
End DwellSession.

(** A row of the [sessions] table.  The TEXT columns [entry_time] and
    [exit_time] hold [isoformat()] of a naive datetime, which
    [datetime.fromisoformat] reads back unchanged: a row carries the
    datetime itself.  The AUTOINCREMENT id of a row is not read by the
    tracker and is left out; the table is the list of its rows in rowid
    order. *)
Module Row.
Record t : Type := mk {
  track_id : Z;
  entry_time : datetime;
  exit_time : option datetime;
  dwell_minutes : option Q;
  day_of_week : option string;
  entry_hour : option Z;
  is_active : Z
}.
End Row.

Inductive level : Type := INFO | WARNING | DEBUG.

Inductive message : Type :=
  | Database_initialized
  | Loaded_active_sessions (n : nat)
  | Tracker_initialized (warning alert : Z)
  | Entry_recorded (track_id : Z) (timestamp : datetime)
  | Exit_for_unknown_track_id (track_id : Z)
  | Exit_recorded (track_id : Z) (dwell_minutes : option Q).

Module DwellTimeTracker.
(** The tracker together with what it writes to: the [sessions] table of
    the database at [db_path] and the records passed to [logger]. *)
Record t : Type := mk {
  warning_threshold : Z;
  alert_threshold : Z;
  active_sessions : odict DwellSession.t;
  sessions : list Row.t;
  log : list (level * message)
}.

Definition with_active (s : t) (a : odict DwellSession.t) : t :=
  {| warning_threshold := warning_threshold s;
     alert_threshold := alert_threshold s;
     active_sessions := a; sessions := sessions s; log := log s |}.

Definition with_sessions (s : t) (rows : list Row.t) : t :=
  {| warning_threshold := warning_threshold s;
     alert_threshold := alert_threshold s;
     active_sessions := active_sessions s; sessions := rows; log := log s |}.

Definition logged (s : t) (l : level) (m : message) : t :=
  {| warning_threshold := warning_threshold s;
     alert_threshold := alert_threshold s;
     active_sessions := active_sessions s; sessions := sessions s;
     log := log s ++ [(l, m)] |}.

(** [SELECT track_id, entry_time, exit_time, dwell_minutes FROM sessions
    WHERE is_active = 1] *)
Definition select_active (rows : list Row.t) : list Row.t :=
  List.filter (fun r => Z.eqb (Row.is_active r) 1) rows.

Definition session_of_row (r : Row.t) : DwellSession.t :=
  {| DwellSession.track_id := Row.track_id r;
     DwellSession.entry_time := Row.entry_time r;
     DwellSession.exit_time := Row.exit_time r;
     DwellSession.dwell_minutes := Row.dwell_minutes r;
     DwellSession.day_of_week := None;
     DwellSession.entry_hour := None |}.

Definition _load_active_sessions (s : t) : t :=
  let loaded :=
    fold_left
      (fun a r => OD.set (Row.track_id r) (session_of_row r) a)
      (select_active (sessions s)) (active_sessions s) in
  let s1 := with_active s loaded in
  match loaded with
  | [] => s1
  | _ :: _ => logged s1 INFO (Loaded_active_sessions (length loaded))
  end.

(** [__init__] over a database whose [sessions] table holds [rows]
    ([CREATE TABLE IF NOT EXISTS] leaves an existing table as it is and
    makes an empty one otherwise). *)
Definition __init__ (rows : list Row.t) (warning_threshold alert_threshold : Z)
  : t :=
  let s0 :=
    {| warning_threshold := warning_threshold;
       alert_threshold := alert_threshold;
       active_sessions := [];
       sessions := rows;
       log := [(INFO, Database_initialized)] |} in
  logged (_load_active_sessions s0) INFO
    (Tracker_initialized warning_threshold alert_threshold).

Definition default_warning_threshold : Z := 90.
Definition default_alert_threshold : Z := 120.

(** [timestamp if timestamp is not None else datetime.now()] *)
Definition or_now (now : datetime) (timestamp : option datetime) : datetime :=
  match timestamp with Some ts => ts | None => now end.

(** [record_entry(track_id, timestamp)], when the call returns; [now] is the
    reading of [datetime.now()] used when [timestamp] is [None].
    [record_entry_raises] below is the call whose INSERT raises. *)
Definition record_entry (now : datetime) (track_id : Z)
    (timestamp : option datetime) (s : t) : t :=
  let timestamp := or_now now timestamp in
  let session := DwellSession.new track_id timestamp in
  let s1 := with_active s (OD.set track_id session (active_sessions s)) in
  (* INSERT INTO sessions (track_id, entry_time, is_active) VALUES (?, ?, 1) *)
  let s2 :=
    with_sessions s1
      (sessions s1 ++
         [{| Row.track_id := track_id; Row.entry_time := timestamp;
             Row.exit_time := None; Row.dwell_minutes := None;
             Row.day_of_week := None; Row.entry_hour := None;
             Row.is_active := 1 |}]) in
  logged s2 INFO (Entry_recorded track_id timestamp).

(** [UPDATE sessions SET exit_time = ?, dwell_minutes = ?, day_of_week = ?,
    entry_hour = ?, is_active = 0 WHERE track_id = ? AND is_active = 1] *)
Definition close_row (timestamp : datetime) (session : DwellSession.t)
    (track_id : Z) (r : Row.t) : Row.t :=
  if Z.eqb (Row.track_id r) track_id && Z.eqb (Row.is_active r) 1
  then {| Row.track_id := Row.track_id r;
          Row.entry_time := Row.entry_time r;
          Row.exit_time := Some timestamp;
          Row.dwell_minutes := DwellSession.dwell_minutes session;
          Row.day_of_week := DwellSession.day_of_week session;
          Row.entry_hour := DwellSession.entry_hour session;
          Row.is_active := 0 |}
  else r.

(** [record_exit(track_id, timestamp)], when the call returns;
    [record_exit_raises] below is the call whose UPDATE raises. *)
Definition record_exit (now : datetime) (track_id : Z)
    (timestamp : option datetime) (s : t) : t :=
  let timestamp := or_now now timestamp in
  match OD.get track_id (active_sessions s) with
  | None => logged s WARNING (Exit_for_unknown_track_id track_id)
  | Some session =>
      let session :=
        DwellSession.calculate_dwell_time
          (DwellSession.set_exit_time timestamp session) in
      let s1 :=
        with_sessions s
          (List.map (close_row timestamp session track_id) (sessions s)) in
      let s2 := with_active s1 (OD.del track_id (active_sessions s1)) in
      logged s2 INFO
        (Exit_recorded track_id (DwellSession.dwell_minutes session))
  end.

(** [record_entry] when the database statement raises (the database is
    locked or full, or [track_id] is no 64-bit integer): the session has been
    put into [active_sessions] before, no row is written, nothing is logged,
    and the exception goes to the caller. *)
Definition record_entry_raises (now : datetime) (track_id : Z)
    (timestamp : option datetime) (s : t) : t :=
  let timestamp := or_now now timestamp in
  let session := DwellSession.new track_id timestamp in
  with_active s (OD.set track_id session (active_sessions s)).

(** [record_exit] when the database statement raises: [exit_time] and the
    dwell have been written on the session object, which stays in
    [active_sessions]; no row is changed and nothing is logged.  For an unknown
    [track_id] no statement is run and the call returns as [record_exit]
    does. *)
Definition record_exit_raises (now : datetime) (track_id : Z)
    (timestamp : option datetime) (s : t) : t :=
  let timestamp := or_now now timestamp in
  match OD.get track_id (active_sessions s) with
  | None => logged s WARNING (Exit_for_unknown_track_id track_id)
  | Some _ =>
      with_active s
        (OD.alter
           (fun session =>
              DwellSession.calculate_dwell_time
                (DwellSession.set_exit_time timestamp session))
           track_id (active_sessions s))
  end.

Definition get_active_sessions (s : t) : list DwellSession.t :=
  OD.values (active_sessions s).

(** The selection loop of [get_campers] and [get_warnings]: every session
    has its current dwell read, and is kept when [keep] holds of it. *)
Fixpoint select (clock : nat -> datetime) (n : nat) (keep : Q -> bool)
    (l : list DwellSession.t) : list DwellSession.t * nat :=
  match l with
  | [] => ([], n)
  | session :: l' =>
      let '(current_dwell, n1) :=
        DwellSession.get_current_dwell_minutes clock n session in
      let '(kept, n2) := select clock n1 keep l' in
      (if keep current_dwell then session :: kept else kept, n2)
  end.

(** The keys [s.get_current_dwell_minutes()] of a sort, computed once per
    item, in list order. *)
Fixpoint keyed (clock : nat -> datetime) (n : nat) (l : list DwellSession.t)
  : list (Q * DwellSession.t) * nat :=
  match l with
  | [] => ([], n)
  | session :: l' =>
      let '(key, n1) :=
        DwellSession.get_current_dwell_minutes clock n session in
      let '(ks, n2) := keyed clock n1 l' in
      ((key, session) :: ks, n2)
  end.

(** Insertion into a list sorted by decreasing key, before the first item
    whose key is not larger. *)
Fixpoint insert_desc (x : Q * DwellSession.t) (l : list (Q * DwellSession.t))
  : list (Q * DwellSession.t) :=
  match l with
  | [] => [x]
  | y :: l' =>
      if Qle_bool (fst y) (fst x) then x :: y :: l'
      else y :: insert_desc x l'
  end.

(** [list.sort(key=..., reverse=True)] on keyed items: the stable sort by
    decreasing key (items of equal key keep their order). *)
Fixpoint sort_desc (l : list (Q * DwellSession.t))
  : list (Q * DwellSession.t) :=
  match l with
  | [] => []
  | x :: l' => insert_desc x (sort_desc l')
  end.

(** [l.sort(key=lambda s: s.get_current_dwell_minutes(), reverse=True)] *)
Definition sort_by_dwell (clock : nat -> datetime) (n : nat)
    (l : list DwellSession.t) : list DwellSession.t :=
  List.map snd (sort_desc (fst (keyed clock n l))).

(** [get_campers(threshold_minutes)]; [clock k] is the k-th reading of
    [datetime.now()] during the call. *)
Definition get_campers (clock : nat -> datetime)
    (threshold_minutes : option Z) (s : t) : list DwellSession.t :=
  let threshold_minutes :=
    match threshold_minutes with
    | Some m => m
    | None => alert_threshold s
    end in
  let '(campers, n) :=
    select clock 0
      (fun current_dwell => Qle_bool (inject_Z threshold_minutes) current_dwell)
      (OD.values (active_sessions s)) in
  sort_by_dwell clock n campers.

(** [get_warnings()] *)
Definition get_warnings (clock : nat -> datetime) (s : t)
  : list DwellSession.t :=
  let '(warnings, n) :=
    select clock 0
      (fun current_dwell =>
         Qle_bool (inject_Z (warning_threshold s)) current_dwell
         && Qgtb (inject_Z (alert_threshold s)) current_dwell)
      (OD.values (active_sessions s)) in
  sort_by_dwell clock n warnings.

(** The loop of [__exit__]; the k-th [record_exit(track_id)] reads
    [clock (n + k)] for its timestamp. *)
Fixpoint exit_all (clock : nat -> datetime) (n : nat) (track_ids : list Z)
    (s : t) : t :=
  match track_ids with
  | [] => s
  | track_id :: track_ids' =>
      exit_all clock (S n) track_ids' (record_exit (clock n) track_id None s)
  end.

(** [__exit__]: [for track_id in list(self.active_sessions.keys()):
    self.record_exit(track_id)] *)
Definition __exit__ (clock : nat -> datetime) (s : t) : t :=
  exit_all clock 0 (OD.keys (active_sessions s)) s.

(** The microseconds of [timedelta(days=n)]. *)
Definition days (n : Z) : Z := n * 86400000000.

(** [WHERE exit_time < ? AND is_active = 0]; a NULL [exit_time] compares to
    NULL, which is not true.  ISO texts of naive datetimes compare as the
    datetimes do. *)
Definition old_and_closed (cutoff_date : datetime) (r : Row.t) : bool :=
  match Row.exit_time r with
  | Some e => Z.ltb e cutoff_date
  | None => false
  end && Z.eqb (Row.is_active r) 0.

(** [cleanup_old_data(days_to_keep)]; [now] is the reading of
    [datetime.now()].  The result carries [cursor.rowcount], which the source
    writes to the log; it is [None] when computing the cutoff raises
    [OverflowError], before the database is opened. *)
Definition cleanup_old_data (now : datetime) (days_to_keep : Z) (s : t)
  : option (t * nat) :=
  match minus now (days days_to_keep) with
  | None => None
  | Some cutoff_date =>
      Some
        (with_sessions s
           (List.filter (fun r => negb (old_and_closed cutoff_date r))
              (sessions s)),
         length (List.filter (old_and_closed cutoff_date) (sessions s)))
  end.
End DwellTimeTracker.

(* ===================================================================== *)
(** * occupancy_tracker.py *)
(* ===================================================================== *)

Module OccupancyEvent.
(** A row of the [events] table. *)
Record t : Type := mk {
  timestamp : datetime;
  event_type : string;
  occupancy_after : Z
}.
End OccupancyEvent.

Module OccupancySnapshot.
(** A row of the [snapshots] table. *)
Record t : Type := mk {
  timestamp : datetime;
  current_occupancy : Z;
  total_entries : Z;
  total_exits : Z;
  active_tracks : Z
}.
End OccupancySnapshot.

Module OccupancyTracker.
(** The tracker with the [events] and [snapshots] tables it appends to.
    The snapshots of the background thread are not part of [update] and
    are not modelled. *)
Record t : Type := mk {
  snapshot_interval : Z;
  current_occupancy : Z;
  total_entries : Z;
  total_exits : Z;
  active_tracks : Z;
  last_snapshot_time : Q;
  events : list OccupancyEvent.t;
  snapshots : list OccupancySnapshot.t
}.

(** [__init__]; [now] is the reading of [time.time()]. *)
Definition __init__ (events : list OccupancyEvent.t)
    (snapshots : list OccupancySnapshot.t) (snapshot_interval : Z) (now : Q)
  : t :=
  {| snapshot_interval := snapshot_interval;
     current_occupancy := 0; total_entries := 0; total_exits := 0;
     active_tracks := 0; last_snapshot_time := now;
     events := events; snapshots := snapshots |}.

(** [_record_event(event_type)]; [now] is the reading of [datetime.now()]. *)
Definition _record_event (now : datetime) (event_type : string) (o : t) : t :=
  let event :=
    {| OccupancyEvent.timestamp := now;
       OccupancyEvent.event_type := event_type;
       OccupancyEvent.occupancy_after := current_occupancy o |} in
  {| snapshot_interval := snapshot_interval o;
     current_occupancy := current_occupancy o;
     total_entries := total_entries o; total_exits := total_exits o;
     active_tracks := active_tracks o;
     last_snapshot_time := last_snapshot_time o;
     events := events o ++ [event];
     snapshots := snapshots o |}.

(** [for _ in range(count): self._record_event(event_type)]; the k-th
    event reads [clock (n + k)]. *)
Fixpoint record_events (clock : nat -> datetime) (n : nat) (count : nat)
    (event_type : string) (o : t) : t * nat :=
  match count with
  | O => (o, n)
  | S count' =>
      record_events clock (S n) count' event_type
        (_record_event (clock n) event_type o)
  end.

(** [_take_snapshot()] *)
Definition _take_snapshot (now : datetime) (o : t) : t :=
  let snapshot :=
    {| OccupancySnapshot.timestamp := now;
       OccupancySnapshot.current_occupancy := current_occupancy o;
       OccupancySnapshot.total_entries := total_entries o;
       OccupancySnapshot.total_exits := total_exits o;
       OccupancySnapshot.active_tracks := active_tracks o |} in
  {| snapshot_interval := snapshot_interval o;
     current_occupancy := current_occupancy o;
     total_entries := total_entries o; total_exits := total_exits o;
     active_tracks := active_tracks o;
     last_snapshot_time := last_snapshot_time o;
     events := events o;
     snapshots := snapshots o ++ [snapshot] |}.

Definition with_counters (o : t) (occupancy entries exits tracks : Z) : t :=
  {| snapshot_interval := snapshot_interval o;
     current_occupancy := occupancy;
     total_entries := entries; total_exits := exits;
     active_tracks := tracks;
     last_snapshot_time := last_snapshot_time o;
     events := events o; snapshots := snapshots o |}.

Definition with_last_snapshot_time (o : t) (now : Q) : t :=
  {| snapshot_interval := snapshot_interval o;
     current_occupancy := current_occupancy o;
     total_entries := total_entries o; total_exits := total_exits o;
     active_tracks := active_tracks o;
     last_snapshot_time := now;
     events := events o; snapshots := snapshots o |}.

(** [update(stats)].  [wall k] is the k-th reading of [datetime.now()] and
    [clock k] the k-th reading of [time.time()] during the call.  A key
    missing from [stats] raises [KeyError] before the tracker is changed:
    the result is [None]. *)
Definition update (wall : nat -> datetime) (clock : nat -> Q)
    (stats : gmap string Z) (o : t) : option t :=
  match stats !! "total_entries"%string, stats !! "total_exits"%string,
        stats !! "current_occupancy"%string with
  | Some entries, Some exits, Some occupancy =>
      let new_entries := entries - total_entries o in
      let new_exits := exits - total_exits o in
      let o1 :=
        with_counters o occupancy entries exits
          (match stats !! "active_tracks"%string with
           | Some a => a
           | None => 0
           end) in
      let '(o2, n2) :=
        if 0 <? new_entries
        then record_events wall 0 (Z.to_nat new_entries) "entry" o1
        else (o1, 0%nat) in
      let '(o3, n3) :=
        if 0 <? new_exits
        then record_events wall n2 (Z.to_nat new_exits) "exit" o2
        else (o2, n2) in
      Some
        (if Qle_bool (inject_Z (snapshot_interval o3))
              (clock 0%nat - last_snapshot_time o3)
         then with_last_snapshot_time (_take_snapshot (wall n3) o3)
                (clock 1%nat)
         else o3)
  | _, _, _ => None
  end.

Definition get_current_occupancy (o : t) : Z := current_occupancy o.

(** [reset_counters()]: the totals go back to zero, [current_occupancy]
    stays ("it's the actual count"). *)
Definition reset_counters (o : t) : t :=
  with_counters o (current_occupancy o) 0 0 (active_tracks o).

(** [stop()]: the final snapshot; [now] is the reading of [datetime.now()].
    Joining the background thread is not modelled. *)
Definition stop (now : datetime) (o : t) : t := _take_snapshot now o.

(** The microseconds of [timedelta(hours=n)]. *)
Definition hours_delta (n : Z) : Z := n * 3600000000.

(** The rows of [SELECT ... FROM snapshots WHERE timestamp >= ?]. *)
Definition snapshots_since (cutoff_time : datetime) (o : t)
  : list OccupancySnapshot.t :=
  List.filter (fun r => Z.leb cutoff_time (OccupancySnapshot.timestamp r))
    (snapshots o).

(** [MAX(current_occupancy)] over a non-empty selection. *)
Definition max_occupancy (r : OccupancySnapshot.t)
    (rows : list OccupancySnapshot.t) : Z :=
  fold_left (fun m r' => Z.max m (OccupancySnapshot.current_occupancy r'))
    rows (OccupancySnapshot.current_occupancy r).

(** [SELECT MAX(current_occupancy), timestamp]: the row whose [timestamp]
    comes with the maximum.  It is one of the rows that hold the maximum;
    SQLite does not say which one when several do, so the choice is an input:
    [tie] numbers the row taken among them (the first one when [tie] is out
    of range). *)
Definition max_row (tie : nat) (r : OccupancySnapshot.t)
    (rows : list OccupancySnapshot.t) : OccupancySnapshot.t :=
  let tied :=
    List.filter
      (fun r' => Z.eqb (OccupancySnapshot.current_occupancy r')
                   (max_occupancy r rows))
      (r :: rows) in
  nth tie tied (hd r tied).

(** [get_peak_occupancy(hours)]; [wall 0] is the reading of [datetime.now()]
    for the cutoff and [wall 1] the one made when no snapshot is in the
    window; [tie] is the choice SQLite makes among the rows that hold the
    maximum.  [None] when computing the cutoff raises [OverflowError]. *)
Definition get_peak_occupancy (wall : nat -> datetime) (tie : nat) (hours : Z)
    (o : t) : option (Z * datetime) :=
  match minus (wall 0%nat) (hours_delta hours) with
  | None => None
  | Some cutoff_time =>
      Some
        match snapshots_since cutoff_time o with
        | [] => (0, wall 1%nat)
        | r :: rows =>
            let best := max_row tie r rows in
            (OccupancySnapshot.current_occupancy best,
             OccupancySnapshot.timestamp best)
        end
  end.
End OccupancyTracker.


(* ===================================================================== *)
(** * The counter with its collaborators *)
(* ===================================================================== *)

Module Pipeline.

(** The calls that [EntryExitCounter.update] makes on its [dwell_tracker]
    for the crossings of one frame, in order:
    [record_entry(track_id, datetime.now())] for an entry and
    [record_exit(track_id, datetime.now())] for an exit; the k-th call reads
    [wall (n + k)].  The dwell tracker does not act back on the counter as
    long as its calls return, which is what is modelled here. *)
Fixpoint notify (wall : nat -> datetime) (n : nat)
    (crossings : list EntryExitCounter.crossing) (d : DwellTimeTracker.t)
  : DwellTimeTracker.t :=
  match crossings with
  | [] => d
  | (track_id, entry) :: crossings' =>
      notify wall (S n) crossings'
        (DwellTimeTracker.record_entry (wall n) track_id (Some (wall n)) d)
  | (track_id, exit) :: crossings' =>
      notify wall (S n) crossings'
        (DwellTimeTracker.record_exit (wall n) track_id (Some (wall n)) d)
  end.

(** A frame of a counter built with a [dwell_tracker]: the clock readings of
    the tracker, those of the notifications, and the detections. *)
Definition frame : Type := (nat -> Q) * (nat -> datetime) * list centroid.

(** [update(detections)] on a counter whose [dwell_tracker] is [d]. *)
Definition update (f : frame) (cd : EntryExitCounter.t * DwellTimeTracker.t)
  : EntryExitCounter.tally * (EntryExitCounter.t * DwellTimeTracker.t) :=
  let '(clock, wall, detections) := f in
  let '(r, c') := EntryExitCounter.update clock detections (fst cd) in
  (r, (c', notify wall 0 (EntryExitCounter.crossings r) (snd cd))).

(** A sequence of [update] calls. *)
Definition run (frames : list frame)
    (cd : EntryExitCounter.t * DwellTimeTracker.t)
  : EntryExitCounter.t * DwellTimeTracker.t :=
  fold_left (fun cd f => snd (update f cd)) frames cd.

(** Calls made on a counter built with a [dwell_tracker]: [update], and
    [reset()], which makes a new tracker for the counter and does not touch
    the dwell tracker. *)
Inductive call : Type :=
  | Update (f : frame)
  | Reset.

Definition step (cd : EntryExitCounter.t * DwellTimeTracker.t) (op : call)
  : EntryExitCounter.t * DwellTimeTracker.t :=
  match op with
  | Update f => snd (update f cd)
  | Reset => (EntryExitCounter.reset (fst cd), snd cd)
  end.

(** The state after a sequence of calls. *)
Definition calls (ops : list call)
    (cd : EntryExitCounter.t * DwellTimeTracker.t)
  : EntryExitCounter.t * DwellTimeTracker.t :=
  fold_left step ops cd.

Definition is_update (op : call) : bool :=
  match op with
  | Update _ => true
  | Reset => false
  end.
End Pipeline.

(* ===================================================================== *)
(** * Vocabulary of the properties, and the data of their examples *)
(* ===================================================================== *)

Module CounterSpec.
Import EntryExitCounter.

(** The relation between the three counters. *)
Definition balanced (c : t) : Prop :=
  current_occupancy c = total_entries c - total_exits c.

Definition still (_ : nat) : Q := 0%Q.

(** A person seen below the line, then above it, while entering means
    moving down: one exit and no entry. *)
Definition leaving : list call :=
  [Update (still, [(320, 350)]); Update (still, [(320, 340)]);
   Update (still, [(320, 290)])].
End CounterSpec.

Module TrackingSpec.
Import EntryExitCounter.

(** What the tracker maintains about the identities [E] that have already
    produced a crossing: identifiers are unique, all below [next_id] (so a
    retired identifier is never given out again), and every identity of
    [E] that is still tracked carries [crossed_line = True]. *)
Record tracked_inv (E : list Z) (tr : CentroidTracker.t) : Prop := {
  inv_nodup : List.NoDup (OD.keys (CentroidTracker.tracks tr));
  inv_below : forall k p,
    In (k, p) (CentroidTracker.tracks tr) -> k < CentroidTracker.next_id tr;
  inv_crossed : forall k, In k E ->
    k < CentroidTracker.next_id tr
    /\ forall p, In (k, p) (CentroidTracker.tracks tr) ->
                 TrackedPerson.crossed_line p = true
}.

Definition ids (l : list crossing) : list Z := List.map fst l.

(** Every track has a position: [centroids[-1]] is defined. *)
Definition has_positions (tr : CentroidTracker.t) : Prop :=
  forall k p,
    In (k, p) (CentroidTracker.tracks tr) -> TrackedPerson.centroids p <> [].
End TrackingSpec.

Module MatchSpec.

Definition rows_of (ms : list (nat * nat)) : list nat := List.map fst ms.
Definition cols_of (ms : list (nat * nat)) : list nat := List.map snd ms.

(** Position [(r, c)] of [D] is still to be matched after the pairs [ms]:
    neither its row nor its column has been used. *)
Definition remaining (D : ndarray) (ms : list (nat * nat)) (r c : nat) : Prop :=
  (r < nrows D)%nat /\ (c < ncols D)%nat
  /\ ~ In r (rows_of ms) /\ ~ In c (cols_of ms).

(** [ms] is a greedy matching of [D] under the threshold [thr]. *)
Record greedy (D : ndarray) (thr : dist) (ms : list (nat * nat)) : Prop := {
  g_range : forall i j, In (i, j) ms -> (i < nrows D)%nat /\ (j < ncols D)%nat;
  g_within : forall i j, In (i, j) ms -> dist_le (at_ D i j) thr;
  g_rows : List.NoDup (rows_of ms);
  g_cols : List.NoDup (cols_of ms);
  g_order : forall pre i j post, ms = pre ++ (i, j) :: post ->
    forall r c, remaining D pre r c -> dist_le (at_ D i j) (at_ D r c);
  g_stop : forall r c, remaining D ms r c -> dist_lt thr (at_ D r c)
}.

(** Rows that still hold an entry within the threshold. *)
Definition live_rows (D : ndarray) (thr : dist) : list nat :=
  List.filter
    (fun r => existsb (fun c => dist_leb (at_ D r c) thr) (seq 0 (ncols D)))
    (seq 0 (nrows D)).

Definition two_by_two : ndarray :=
  of_rows [[Fin 5; Fin 1]; [Fin 2; Fin 9]].
End MatchSpec.

Module LedgerSpec.
Import DwellTimeTracker.

(** The rows matched by [WHERE track_id = ? AND is_active = 1]. *)
Definition open_for (track_id : Z) (r : Row.t) : bool :=
  Z.eqb (Row.track_id r) track_id && Z.eqb (Row.is_active r) 1.

(** The row inserted by [record_entry]. *)
Definition open_row (track_id : Z) (t1 : datetime) : Row.t :=
  {| Row.track_id := track_id; Row.entry_time := t1;
     Row.exit_time := None; Row.dwell_minutes := None;
     Row.day_of_week := None; Row.entry_hour := None;
     Row.is_active := 1 |}.

(** The row of a visit from [t1] to [t2], closed. *)
Definition closed_row (track_id : Z) (t1 t2 : datetime) : Row.t :=
  {| Row.track_id := track_id; Row.entry_time := t1;
     Row.exit_time := Some t2;
     Row.dwell_minutes := Some (minutes_of (t2 - t1));
     Row.day_of_week := Some (strftime_A t1);
     Row.entry_hour := Some (hour t1);
     Row.is_active := 0 |}.

Definition fresh_tracker : t :=
  __init__ [] default_warning_threshold default_alert_threshold.

(** 2024-01-01T20:15:00, a Monday, and the same day at 21:02:00. *)
Definition monday_evening : datetime := 63839736900000000.
Definition forty_seven_minutes_later : datetime := 63839739720000000.

Definition ledger_after_crash : list Row.t :=
  [closed_row 3 monday_evening forty_seven_minutes_later;
   open_row 7 monday_evening].

(** What a row says of a visit, apart from the derived columns. *)
Definition visit_of (r : Row.t) : Z * datetime * option datetime * Z :=
  (Row.track_id r, Row.entry_time r, Row.exit_time r, Row.is_active r).
End LedgerSpec.

Module AlertSpec.
Import DwellTimeTracker.

(** The dwell of a session measured at the instant [now]. *)
Definition current_dwell (now : datetime) (x : DwellSession.t) : Q :=
  fst (DwellSession.get_current_dwell_minutes (fun _ => now) 0 x).



(** Minutes as a datetime offset. *)
Definition minutes (m : Z) : datetime := m * 60000000.

(** Four visitors, entered 50, 100, 130 and 200 minutes before the clock
    reading [minutes 200]. *)
Definition busy_evening : t :=
  record_entry 0 4 (Some (minutes 0))
    (record_entry 0 3 (Some (minutes 70))
       (record_entry 0 2 (Some (minutes 100))
          (record_entry 0 1 (Some (minutes 150)) LedgerSpec.fresh_tracker))).



End AlertSpec.

Module EventSpec.
Import OccupancyTracker.

(** What an event row says, apart from its timestamp. *)
Definition kind_and_occupancy (e : OccupancyEvent.t) : string * Z :=
  (OccupancyEvent.event_type e, OccupancyEvent.occupancy_after e).

(** Two people walk in side by side: both cross the line in the third
    frame. *)
Definition two_abreast : list EntryExitCounter.call :=
  [EntryExitCounter.Update (CounterSpec.still, [(100, 280); (400, 280)]);
   EntryExitCounter.Update (CounterSpec.still, [(100, 290); (400, 290)]);
   EntryExitCounter.Update (CounterSpec.still, [(100, 310); (400, 310)])].

Definition stats_two_abreast : gmap string Z :=
  EntryExitCounter.get_stats
    (EntryExitCounter.run two_abreast
       (EntryExitCounter.__init__ 300 480 "down")).
End EventSpec.

Module TrackerSpec.
Import EntryExitCounter.

(** A property of the tracks of a tracker, the identifiers being
    non-negative. *)
Definition all_tracks (P : Z -> TrackedPerson.t -> Prop)
    (tr : CentroidTracker.t) : Prop :=
  0 <= CentroidTracker.next_id tr
  /\ forall k p, In (k, p) (CentroidTracker.tracks tr) -> 0 <= k /\ P k p.

(** The track made by [register]. *)
Definition new_track (track_id : Z) (c : centroid) (now : Q)
  : TrackedPerson.t :=
  {| TrackedPerson.track_id := track_id;
     TrackedPerson.centroids := [c];
     TrackedPerson.last_seen := now;
     TrackedPerson.crossed_line := false;
     TrackedPerson.direction := None |}.

(** The side of the line on which the latest position of a track lies. *)
Definition side_of (line_y : Z) (p : TrackedPerson.t) : side :=
  if snd (List.last (TrackedPerson.centroids p) (0, 0)) <? line_y
  then above else below.

(** A track seen at least twice. *)
Definition seen_twice (p : TrackedPerson.t) : bool :=
  negb (length (TrackedPerson.centroids p) <? 2)%nat.

(** The number of crossings of a direction in a list. *)
Definition count_of (d : direction_t) (l : list crossing) : Z :=
  Z.of_nat
    (length
       (List.filter
          (fun x => match snd x, d with
                    | entry, entry | exit, exit => true
                    | _, _ => false
                    end) l)).

(** The history of a track one position short of full. *)
Definition almost_full : TrackedPerson.t :=
  {| TrackedPerson.track_id := 0;
     TrackedPerson.centroids := repeat (320, 250) 29;
     TrackedPerson.last_seen := 0;
     TrackedPerson.crossed_line := false;
     TrackedPerson.direction := None |}.

(** A track just registered. *)
Definition lone_track : TrackedPerson.t := new_track 0 (320, 350) 0.



(** The condition under which the loop of [update] reports a crossing of
    direction [d] for the track [p] of identifier [k], in the state [c] of
    the counter before the loop. *)
Definition fires (c : t) (k : Z) (p : TrackedPerson.t) (d : direction_t)
  : Prop :=
  seen_twice p = true
  /\ TrackedPerson.crossed_line p = false
  /\ exists previous_side,
       track_states c !! k = Some previous_side
       /\ crossing_direction (entry_direction c) previous_side
            (side_of (counting_line_y c) p) = Some d.

(** The counters move with the crossings reported. *)
Definition moved_by (new : list crossing) (c c' : t) (r r' : tally) : Prop :=
  crossings r' = crossings r ++ new
  /\ new_entries r' = new_entries r + count_of entry new
  /\ new_exits r' = new_exits r + count_of exit new
  /\ total_entries c' = total_entries c + count_of entry new
  /\ total_exits c' = total_exits c + count_of exit new
  /\ current_occupancy c' = current_occupancy c + count_of entry new
                            - count_of exit new.

(** The tracks that [register] makes of a list of detections, numbered from
    [track_id] on; the first one reads [clock n]. *)
Fixpoint fresh_tracks (clock : nat -> Q) (n : nat) (track_id : Z)
    (detections : list centroid) : odict TrackedPerson.t :=
  match detections with
  | [] => []
  | c :: detections' =>
      (track_id, new_track track_id c (clock n))
      :: fresh_tracks clock (S n) (track_id + 1) detections'
  end.

(** A tracker that follows one person, last seen at (100, 100). *)
Definition one_person : CentroidTracker.t :=
  CentroidTracker.update CounterSpec.still [(100, 100)]
    (CentroidTracker.__init__ 30 50).
End TrackerSpec.

Module SessionSpec.
Import DwellTimeTracker.

(** The active map that [_load_active_sessions] builds from a ledger. *)
Definition loaded (rows : list Row.t) : odict DwellSession.t :=
  fold_left (fun a r => OD.set (Row.track_id r) (session_of_row r) a)
    (select_active rows) [].

(** Calls made on a dwell tracker, with the clock readings they make. *)
Inductive call : Type :=
  | Record_entry (now : datetime) (track_id : Z) (timestamp : option datetime)
  | Record_exit (now : datetime) (track_id : Z) (timestamp : option datetime)
  | Cleanup (now : datetime) (days_to_keep : Z)
  | Leave (clock : nat -> datetime)
  | Record_entry_raises (now : datetime) (track_id : Z)
      (timestamp : option datetime)
  | Record_exit_raises (now : datetime) (track_id : Z)
      (timestamp : option datetime).

Definition step (s : t) (op : call) : t :=
  match op with
  | Record_entry now track_id timestamp => record_entry now track_id timestamp s
  | Record_exit now track_id timestamp => record_exit now track_id timestamp s
  | Cleanup now days_to_keep =>
      match cleanup_old_data now days_to_keep s with
      | Some (s', _) => s'
      | None => s
      end
  | Leave clock => __exit__ clock s
  | Record_entry_raises now track_id timestamp =>
      record_entry_raises now track_id timestamp s
  | Record_exit_raises now track_id timestamp =>
      record_exit_raises now track_id timestamp s
  end.

(** The state after a sequence of calls; the caller goes on after a call
    that raised. *)
Definition run (ops : list call) (s : t) : t := fold_left step ops s.

(** A call whose database statement did not raise. *)
Definition committed (op : call) : bool :=
  match op with
  | Record_entry_raises _ _ _ | Record_exit_raises _ _ _ => false
  | _ => true
  end.

(** A call that is not [cleanup_old_data]. *)
Definition keeps_rows (op : call) : bool :=
  match op with Cleanup _ _ => false | _ => true end.

(** An evening: two people come, one leaves. *)
Definition evening : list call :=
  [Record_entry 0 1 (Some 0); Record_entry 0 2 (Some 60000000);
   Record_exit 0 1 (Some 120000000)].

(** The most recent open row of an identity. *)
Definition latest_open (track_id : Z) (rows : list Row.t) : option Row.t :=
  List.find (LedgerSpec.open_for track_id) (rev rows).

(** [r'] is what a later ledger holds in the place of [r]: the same
    identity and entry time, and [r] itself once [r] is closed. *)
Definition kept_as (r r' : Row.t) : Prop :=
  Row.track_id r' = Row.track_id r
  /\ Row.entry_time r' = Row.entry_time r
  /\ (Row.is_active r <> 1 -> r' = r).

(** The row an exit at [timestamp] makes of an open row, for a session
    that began at [entry_time]. *)
Definition closed_at (timestamp entry_time : datetime) (r : Row.t) : Row.t :=
  {| Row.track_id := Row.track_id r;
     Row.entry_time := Row.entry_time r;
     Row.exit_time := Some timestamp;
     Row.dwell_minutes := Some (minutes_of (timestamp - entry_time));
     Row.day_of_week := Some (strftime_A entry_time);
     Row.entry_hour := Some (hour entry_time);
     Row.is_active := 0 |}.

(** The active map of a tracker agrees with its ledger. *)
Definition in_step (s : t) : Prop := active_sessions s = loaded (sessions s).

(** Every identity with an open row has a session in memory. *)
Definition covered (s : t) : Prop :=
  forall track_id,
    existsb (LedgerSpec.open_for track_id) (sessions s) = true ->
    OD.mem track_id (active_sessions s) = true.

(** A write fails in the middle of an evening. *)
Definition bad_evening : list call :=
  [Record_entry 0 1 (Some 0); Record_entry_raises 0 2 (Some 60000000);
   Record_exit_raises 0 1 (Some 120000000)].

(** The rows of [s] are still in [s'], each at its place. *)
Definition rows_kept (s s' : t) : Prop :=
  forall i r, nth_error (sessions s) i = Some r ->
    exists r', nth_error (sessions s') i = Some r' /\ kept_as r r'.
End SessionSpec.

Module PipelineSpec.

(** A row as [record_entry] leaves it. *)
Definition still_open (r : Row.t) : Prop :=
  Row.is_active r = 1 /\ Row.exit_time r = None /\ Row.dwell_minutes r = None.

Definition is_unknown_exit (x : level * message) : bool :=
  match snd x with
  | Exit_for_unknown_track_id _ => true
  | _ => false
  end.

(** The number of exits that a log reports as ignored. *)
Definition unknown_exits (l : list (level * message)) : Z :=
  Z.of_nat (length (List.filter is_unknown_exit l)).

(** A guest walks in (down across the line at 300) and, thirty frames later,
    out again, seen by a camera that never loses the guest. *)
Definition in_and_out : list Pipeline.frame :=
  List.map (fun y => (CounterSpec.still, Z.of_nat, [(320, y)]))
    ([290; 295; 310] ++ repeat 330 30 ++ [310; 295; 290]).

(** A guest walks in; the counter is reset; the next person the camera
    sees walks out a minute later. *)
Definition someone_else_walks_out : list Pipeline.call :=
  List.map
    (fun y => Pipeline.Update (CounterSpec.still, Z.of_nat, [(320, y)]))
    [290; 295; 310]
  ++ [Pipeline.Reset]
  ++ List.map
       (fun y =>
          Pipeline.Update
            (CounterSpec.still, (fun _ => 60000000), [(320, y)]))
       [310; 305; 290].

(** What holds of a counter and its dwell tracker when the identities of
    [E] are the ones that have crossed. *)
Record paired (d0 : DwellTimeTracker.t) (E : list Z)
    (cd : EntryExitCounter.t * DwellTimeTracker.t) : Prop := {
  pr_inv : TrackingSpec.tracked_inv E (EntryExitCounter.tracker (fst cd));
  pr_nodup : List.NoDup E;
  pr_keys : List.NoDup (OD.keys (DwellTimeTracker.active_sessions (snd cd)));
  pr_sub : forall k,
    In k (OD.keys (DwellTimeTracker.active_sessions (snd cd))) -> In k E;
  pr_rows : exists new,
    DwellTimeTracker.sessions (snd cd) = DwellTimeTracker.sessions d0 ++ new
    /\ Forall still_open new
    /\ Z.of_nat (length new) = EntryExitCounter.total_entries (fst cd);
  pr_active :
    Z.of_nat (length (DwellTimeTracker.active_sessions (snd cd)))
    = EntryExitCounter.total_entries (fst cd);
  pr_log :
    unknown_exits (DwellTimeTracker.log (snd cd))
    = unknown_exits (DwellTimeTracker.log d0)
      + EntryExitCounter.total_exits (fst cd)
}.
End PipelineSpec.

Module OccupancySpec.
Import OccupancyTracker.

(** The event that [_record_event] writes at the k-th clock reading. *)
Definition event_at (wall : nat -> datetime) (event_type : string)
    (occupancy : Z) (k : nat) : OccupancyEvent.t :=
  {| OccupancyEvent.timestamp := wall k;
     OccupancyEvent.event_type := event_type;
     OccupancyEvent.occupancy_after := occupancy |}.

(** [count] events in a row, the first at reading [n]. *)
Definition events_at (wall : nat -> datetime) (event_type : string)
    (occupancy : Z) (n count : nat) : list OccupancyEvent.t :=
  List.map (event_at wall event_type occupancy) (seq n count).

(** Everything but the [events] table is the same. *)
Definition same_but_events (o o' : t) : Prop :=
  snapshot_interval o' = snapshot_interval o
  /\ current_occupancy o' = current_occupancy o
  /\ total_entries o' = total_entries o
  /\ total_exits o' = total_exits o
  /\ active_tracks o' = active_tracks o
  /\ last_snapshot_time o' = last_snapshot_time o
  /\ snapshots o' = snapshots o.

(** The test [time.time() - self.last_snapshot_time >= self.snapshot_interval]
    at the reading [now]. *)
Definition snapshot_due (now : Q) (o : t) : bool :=
  Qle_bool (inject_Z (snapshot_interval o)) (now - last_snapshot_time o).


(** Calls made on an occupancy tracker, with the clock readings they make.
    [Tick] is one turn of the background thread: [_take_snapshot()] under
    the lock. *)
Inductive call : Type :=
  | Update (wall : nat -> datetime) (clock : nat -> Q) (stats : gmap string Z)
  | Tick (now : datetime)
  | Reset_counters.

(** A call of [update] that raises leaves the tracker as it was. *)
Definition step (o : t) (op : call) : t :=
  match op with
  | Update wall clock stats =>
      match update wall clock stats o with
      | Some o' => o'
      | None => o
      end
  | Tick now => _take_snapshot now o
  | Reset_counters => reset_counters o
  end.

Definition run (ops : list call) (o : t) : t := fold_left step ops o.


(** The statistics of a counter that has seen [entries] entries and
    [exits] exits. *)
Definition stats_of (entries exits : Z) : gmap string Z :=
  <["total_entries"%string := entries]>
    (<["total_exits"%string := exits]>
       (<["current_occupancy"%string := Z.max 0 (entries - exits)]> ∅)).

End OccupancySpec.

Module MirrorSpec.
Import EntryExitCounter.

Definition opposite (d : direction_t) : direction_t :=
  match d with
  | entry => exit
  | exit => entry
  end.

(** A track with the other direction written on it. *)
Definition relabel (p : TrackedPerson.t) : TrackedPerson.t :=
  {| TrackedPerson.track_id := TrackedPerson.track_id p;
     TrackedPerson.centroids := TrackedPerson.centroids p;
     TrackedPerson.last_seen := TrackedPerson.last_seen p;
     TrackedPerson.crossed_line := TrackedPerson.crossed_line p;
     TrackedPerson.direction :=
       option_map opposite (TrackedPerson.direction p) |}.

Definition relabel_tracks (d : odict TrackedPerson.t) : odict TrackedPerson.t :=
  List.map (fun kv => (fst kv, relabel (snd kv))) d.

Definition relabel_tracker (tr : CentroidTracker.t) : CentroidTracker.t :=
  CentroidTracker.with_tracks tr (relabel_tracks (CentroidTracker.tracks tr)).

(** The counter that has counted every entry of [c] as an exit and every
    exit as an entry, with [entry_direction] set to [dir]. *)
Definition mirror (dir : string) (c : t) : t :=
  {| counting_line_y := counting_line_y c;
     frame_height := frame_height c;
     entry_direction := dir;
     tracker := relabel_tracker (tracker c);
     total_entries := total_exits c;
     total_exits := total_entries c;
     current_occupancy := - current_occupancy c;
     track_states := track_states c |}.

Definition mirror_tally (r : tally) : tally :=
  {| new_entries := new_exits r;
     new_exits := new_entries r;
     crossings :=
       List.map (fun kd => (fst kd, opposite (snd kd))) (crossings r) |}.
End MirrorSpec.

(* ===================================================================== *)
(** * Properties of EntryExitCounter: the occupancy counters *)
(* ===================================================================== *)

Module CounterFacts.
Import EntryExitCounter.
Import CounterSpec.

Lemma balanced_init line_y h dir : balanced (__init__ line_y h dir).
Proof. reflexivity. Qed.

Lemma balanced_reset c : balanced (reset c).
Proof. reflexivity. Qed.

(** [reset()] brings a counter back to the state of its construction. *)
Lemma reset_is_init c :
  reset c = __init__ (counting_line_y c) (frame_height c) (entry_direction c).
Proof. reflexivity. Qed.

Lemma balanced_count d track_id c r :
  balanced c -> balanced (fst (count d track_id c r)).
Proof. unfold balanced; destruct d; simpl; lia. Qed.

Lemma balanced_with_track_states c s :
  balanced c -> balanced (with_track_states c s).
Proof. exact (fun H => H). Qed.

Lemma balanced_visit c r track_id track :
  balanced c -> balanced (fst (fst (visit c r track_id track))).
Proof.
  intros Hc. unfold visit.
  destruct (length (TrackedPerson.centroids track) <? 2)%nat; [exact Hc|].
  destruct (track_states c !! track_id) as [previous_side|]; [|exact Hc].
  destruct (crossing_direction _ _ _) as [d|]; [|exact Hc].
  destruct (negb (TrackedPerson.crossed_line track)); [|exact Hc].
  pose proof (balanced_count d track_id c r Hc) as Hd.
  destruct (count d track_id c r) as [c' r']. exact Hd.
Qed.

Lemma balanced_scan tracks : forall c r,
  balanced c -> balanced (fst (fst (scan c r tracks))).
Proof.
  induction tracks as [|[track_id track] rest IH]; intros c r Hc; [exact Hc|].
  simpl.
  pose proof (balanced_visit c r track_id track Hc) as Hv.
  destruct (visit c r track_id track) as [[c1 r1] track1].
  specialize (IH c1 r1 Hv).
  destruct (scan c1 r1 rest) as [[c2 r2] rest2]. exact IH.
Qed.

Lemma balanced_update clock detections c :
  balanced c -> balanced (snd (update clock detections c)).
Proof.
  intros Hc. unfold update.
  pose proof (balanced_scan
                (CentroidTracker.tracks
                   (CentroidTracker.update clock detections (tracker c)))
                c {| new_entries := 0; new_exits := 0; crossings := [] |} Hc)
    as Hs.
  destruct (scan _ _ _) as [[c1 r] tracks1]. exact Hs.
Qed.

Lemma balanced_step c op : balanced c -> balanced (snd (step c op)).
Proof.
  destruct op as [f|]; simpl; intros Hc.
  - pose proof (balanced_update (fst f) (snd f) c Hc) as Hu.
    destruct (update (fst f) (snd f) c) as [r c']. exact Hu.
  - apply balanced_reset.
Qed.

Lemma balanced_run ops : forall c, balanced c -> balanced (run ops c).
Proof.
  induction ops as [|op ops IH]; intros c Hc; [exact Hc|].
  simpl. apply IH, balanced_step, Hc.
Qed.

(** C10.  In every state an EntryExitCounter reaches from its construction
    through [update] and [reset] calls, the internal [current_occupancy]
    field equals [total_entries - total_exits]. *)
Theorem current_occupancy_is_entries_minus_exits :
  forall (line_y h : Z) (dir : string) (ops : list call),
    let c := run ops (__init__ line_y h dir) in
    current_occupancy c = total_entries c - total_exits c.
Proof. intros. apply balanced_run, balanced_init. Qed.

(** C1 (as amended).  Whatever calls were made, [get_occupancy()] and the
    'current_occupancy' entry of [get_stats()] are the internal counter
    clamped at zero on reading, that is [max(0, total_entries - total_exits)],
    hence never negative. *)
Theorem reported_occupancy_nonnegative :
  forall (line_y h : Z) (dir : string) (ops : list call),
    let c := run ops (__init__ line_y h dir) in
    0 <= get_occupancy c
    /\ get_occupancy c = Z.max 0 (current_occupancy c)
    /\ get_occupancy c = Z.max 0 (total_entries c - total_exits c)
    /\ get_stats c !! "current_occupancy"%string = Some (get_occupancy c).
Proof.
  intros line_y h dir ops c. unfold get_occupancy.
  split; [apply Z.le_max_l|]. split; [reflexivity|]. split; [|reflexivity].
  f_equal. apply balanced_run, balanced_init.
Qed.

(** C1 (counterexample).  The running counter is decremented without any
    clamp: after an exit that no entry preceded it is -1, while the value
    read through [get_occupancy] is 0. *)
Lemma running_counter_goes_negative :
  current_occupancy (run leaving (__init__ 300 480 "down")) = -1
  /\ get_occupancy (run leaving (__init__ 300 480 "down")) = 0.
Proof. split; vm_compute; reflexivity. Qed.
End CounterFacts.

(* ===================================================================== *)
(** * Properties of EntryExitCounter: one crossing per identity *)
(* ===================================================================== *)

Module DictFacts.
Section Facts.
Context {V : Type}.
Implicit Types (d : odict V) (k : Z) (v : V).

Lemma set_fresh k v d :
  ~ In k (OD.keys d) -> OD.set k v d = d ++ [(k, v)].
Proof.
  induction d as [|[k' v'] d IH]; simpl; intros Hk; [reflexivity|].
  destruct (Z.eqb_spec k k') as [->|_]; [tauto|].
  rewrite IH; tauto.
Qed.

Lemma in_set k v d x : In x (OD.set k v d) -> x = (k, v) \/ In x d.
Proof.
  induction d as [|[k' v'] d IH]; simpl.
  - intros [<-|[]]. left. reflexivity.
  - destruct (Z.eqb k k'); simpl.
    + intros [<-|H]; auto.
    + intros [<-|H]; [auto|]. destruct (IH H); auto.
Qed.

Lemma in_del k d x : In x (OD.del k d) -> In x d.
Proof. unfold OD.del. intros H. apply filter_In in H. tauto. Qed.

Lemma in_keys k v d : In (k, v) d -> In k (OD.keys d).
Proof. intros H. apply (in_map fst) in H. exact H. Qed.

Lemma nodup_keys_del k d :
  List.NoDup (OD.keys d) -> List.NoDup (OD.keys (OD.del k d)).
Proof.
  unfold OD.keys, OD.del.
  induction d as [|[k' v'] d IH]; simpl; intros Hd; [exact Hd|].
  apply NoDup_cons_iff in Hd as [Hk' Hd].
  destruct (Z.eqb k k'); simpl; [apply IH, Hd|].
  apply NoDup_cons_iff. split; [|apply IH, Hd].
  intros Hin. apply Hk'.
  apply in_map_iff in Hin as [[k1 v1] [Heq Hin]].
  apply filter_In in Hin as [Hin _]. simpl in Heq; subst k1.
  apply in_map_iff. exists (k', v1). auto.
Qed.

Lemma get_del_same k d : OD.get k (OD.del k d) = None.
Proof.
  unfold OD.del. induction d as [|[k' v'] d IH]; simpl; [reflexivity|].
  destruct (Z.eqb_spec k k') as [->|Hne]; simpl; [exact IH|].
  destruct (Z.eqb_spec k k'); [contradiction|exact IH].
Qed.

Lemma get_set_same k v d : OD.get k (OD.set k v d) = Some v.
Proof.
  induction d as [|[k' v'] d IH]; simpl.
  - rewrite Z.eqb_refl. reflexivity.
  - destruct (Z.eqb_spec k k') as [->|Hne]; simpl.
    + rewrite Z.eqb_refl. reflexivity.
    + destruct (Z.eqb_spec k k'); [contradiction|exact IH].
Qed.

Lemma del_set_same k v d : OD.del k (OD.set k v d) = OD.del k d.
Proof.
  unfold OD.del. induction d as [|[k' v'] d IH]; simpl.
  - rewrite Z.eqb_refl. reflexivity.
  - destruct (Z.eqb_spec k k') as [->|Hne]; simpl.
    + rewrite Z.eqb_refl. reflexivity.
    + destruct (Z.eqb_spec k k'); [contradiction|]. simpl. f_equal. exact IH.
Qed.

Lemma keys_alter f k d : OD.keys (OD.alter f k d) = OD.keys d.
Proof.
  induction d as [|[k' v'] d IH]; simpl; [reflexivity|].
  destruct (Z.eqb k k'); simpl; [reflexivity|]. f_equal. exact IH.
Qed.

Lemma in_alter f k d k' v' :
  In (k', v') (OD.alter f k d) ->
  exists v, In (k', v) d /\ (v' = v \/ v' = f v).
Proof.
  induction d as [|[k1 v1] d IH]; simpl; [tauto|].
  destruct (Z.eqb k k1); simpl.
  - intros [Heq|Hin].
    + inversion Heq; subst. exists v1. auto.
    + exists v'. auto.
  - intros [Heq|Hin].
    + inversion Heq; subst. exists v'. auto.
    + destruct (IH Hin) as [v [Hv Hor]]. exists v. auto.
Qed.

Lemma get_in k v d : OD.get k d = Some v -> In (k, v) d.
Proof.
  induction d as [|[k' v'] d IH]; simpl; [discriminate|].
  destruct (Z.eqb_spec k k') as [->|_]; [|auto].
  intros [= ->]. auto.
Qed.

Lemma in_get k v d :
  List.NoDup (OD.keys d) -> In (k, v) d -> OD.get k d = Some v.
Proof.
  induction d as [|[k' v'] d IH]; simpl; [tauto|].
  intros Hd. apply NoDup_cons_iff in Hd as [Hk' Hd].
  intros [Heq|Hin].
  - inversion Heq; subst. rewrite Z.eqb_refl. reflexivity.
  - destruct (Z.eqb_spec k k') as [->|_]; [|auto].
    exfalso. apply Hk'. eapply in_keys, Hin.
Qed.
End Facts.
End DictFacts.

Module TrackingFacts.
Import EntryExitCounter.
Import DictFacts.
Import TrackingSpec.

Lemma inv_init E md mx :
  E = [] -> tracked_inv E (CentroidTracker.__init__ md mx).
Proof.
  intros ->. split; simpl.
  - constructor.
  - tauto.
  - tauto.
Qed.

Lemma fresh_next_id E tr :
  tracked_inv E tr ->
  ~ In (CentroidTracker.next_id tr) (OD.keys (CentroidTracker.tracks tr)).
Proof.
  intros [_ Hb _] Hin. apply in_map_iff in Hin as [[k p] [Hk Hin]].
  simpl in Hk; subst k. specialize (Hb _ _ Hin). lia.
Qed.

Lemma inv_register E now c tr :
  tracked_inv E tr -> tracked_inv E (CentroidTracker.register now c tr).
Proof.
  intros Hinv. pose proof (fresh_next_id E tr Hinv) as Hfresh.
  destruct Hinv as [Hn Hb Hc].
  unfold CentroidTracker.register.
  split; simpl; rewrite set_fresh by exact Hfresh.
  - unfold OD.keys. rewrite map_app. simpl. apply List.NoDup_app.
    + exact Hn.
    + repeat constructor. simpl; tauto.
    + intros a Ha [<-|[]]. exact (Hfresh Ha).
  - intros k p Hin. apply in_app_or in Hin as [Hin|[Heq|[]]].
    + specialize (Hb _ _ Hin). lia.
    + inversion Heq; lia.
  - intros k Hk. destruct (Hc k Hk) as [Hlt Hp]. split; [lia|].
    intros p Hin. apply in_app_or in Hin as [Hin|[Heq|[]]].
    + exact (Hp p Hin).
    + inversion Heq; lia.
Qed.

Lemma inv_deregister E track_id tr :
  tracked_inv E tr -> tracked_inv E (CentroidTracker.deregister track_id tr).
Proof.
  intros Hinv. unfold CentroidTracker.deregister.
  destruct (OD.mem track_id (CentroidTracker.tracks tr)); [|exact Hinv].
  destruct Hinv as [Hn Hb Hc]. split; simpl.
  - apply nodup_keys_del, Hn.
  - intros k p Hin. apply in_del in Hin. exact (Hb _ _ Hin).
  - intros k Hk. destruct (Hc k Hk) as [Hlt Hp]. split; [exact Hlt|].
    intros p Hin. apply in_del in Hin. exact (Hp p Hin).
Qed.

Lemma inv_update_position E now c track_id tr :
  tracked_inv E tr ->
  tracked_inv E
    (CentroidTracker.with_tracks tr
       (OD.alter (TrackedPerson.update_position now c) track_id
          (CentroidTracker.tracks tr))).
Proof.
  intros [Hn Hb Hc]. split; simpl.
  - rewrite keys_alter. exact Hn.
  - intros k p Hin. apply in_alter in Hin as [p0 [Hin _]]. exact (Hb _ _ Hin).
  - intros k Hk. destruct (Hc k Hk) as [Hlt Hp]. split; [exact Hlt|].
    intros p Hin. apply in_alter in Hin as [p0 [Hin [->| ->]]].
    + exact (Hp p0 Hin).
    + simpl. exact (Hp p0 Hin).
Qed.

Lemma inv_register_all E clock cs : forall n tr,
  tracked_inv E tr ->
  tracked_inv E (fst (CentroidTracker.register_all clock n cs tr)).
Proof.
  induction cs as [|c cs IH]; intros n tr Hinv; simpl; [exact Hinv|].
  apply IH, inv_register, Hinv.
Qed.

Lemma inv_update_matched E clock track_ids detections pairs : forall n tr,
  tracked_inv E tr ->
  tracked_inv E
    (fst (CentroidTracker.update_matched clock n track_ids detections pairs
            tr)).
Proof.
  induction pairs as [|[i j] pairs IH]; intros n tr Hinv; simpl; [exact Hinv|].
  apply IH, inv_update_position, Hinv.
Qed.

Lemma inv_deregister_all E ids : forall tr,
  tracked_inv E tr ->
  tracked_inv E
    (fold_left (fun tr' track_id => CentroidTracker.deregister track_id tr')
       ids tr).
Proof.
  induction ids as [|k ids IH]; intros tr Hinv; simpl; [exact Hinv|].
  apply IH, inv_deregister, Hinv.
Qed.

(** The tracker never clears a [crossed_line] flag and never reuses an
    identifier. *)
Lemma inv_tracker_update E clock detections tr :
  tracked_inv E tr ->
  tracked_inv E (CentroidTracker.update clock detections tr).
Proof.
  intros Hinv. unfold CentroidTracker.update.
  destruct detections as [|c cs].
  - apply inv_deregister_all, Hinv.
  - destruct (CentroidTracker.tracks tr) as [|kp rest] eqn:Htracks.
    + apply inv_register_all, Hinv.
    + rewrite <- Htracks. clear Htracks kp rest.
      set (track_ids := OD.keys (CentroidTracker.tracks tr)).
      set (pairs := CentroidTracker.greedy_pairs _ _).
      pose proof (inv_update_matched E clock track_ids (c :: cs) pairs 0 tr
                    Hinv) as H1.
      destruct (CentroidTracker.update_matched _ _ _ _ _ _) as [tr1 n1].
      set (new := CentroidTracker.unmatched_detections _ _).
      pose proof (inv_register_all E clock new n1 tr1 H1) as H2.
      destruct (CentroidTracker.register_all _ _ _ _) as [tr2 n2].
      apply inv_deregister_all, H2.
Qed.

(** One pass of the loop body either changes no track and reports
    nothing, or reports one crossing of a track that was not yet marked and
    marks it. *)
Lemma visit_cases c r k p :
  (crossings (snd (fst (visit c r k p))) = crossings r
   /\ snd (visit c r k p) = p)
  \/ (exists d,
        crossings (snd (fst (visit c r k p))) = crossings r ++ [(k, d)]
        /\ TrackedPerson.crossed_line p = false
        /\ snd (visit c r k p) = TrackedPerson.mark_crossed d p).
Proof.
  unfold visit.
  destruct (length (TrackedPerson.centroids p) <? 2)%nat; [left; auto|].
  destruct (track_states c !! k) as [previous_side|]; [|left; auto].
  destruct (crossing_direction _ _ _) as [d|]; [|left; auto].
  destruct (TrackedPerson.crossed_line p) eqn:Hp; simpl; [left; auto|].
  right. exists d. destruct d; simpl; auto.
Qed.

Lemma scan_spec tracks : forall c r,
  List.NoDup (OD.keys tracks) ->
  exists new,
    crossings (snd (fst (scan c r tracks))) = crossings r ++ new
    /\ OD.keys (snd (scan c r tracks)) = OD.keys tracks
    /\ List.NoDup (ids new)
    /\ (forall k, In k (ids new) ->
          exists p, In (k, p) tracks /\ TrackedPerson.crossed_line p = false)
    /\ (forall k p', In (k, p') (snd (scan c r tracks)) ->
          (In k (ids new) -> TrackedPerson.crossed_line p' = true)
          /\ exists p, In (k, p) tracks
               /\ (TrackedPerson.crossed_line p = true ->
                   TrackedPerson.crossed_line p' = true)).
Proof.
  unfold OD.keys.
  induction tracks as [|[k0 p0] rest IH]; intros c r Hnd; simpl.
  - exists []. rewrite app_nil_r. repeat split; try constructor; simpl; tauto.
  - change (List.NoDup (k0 :: List.map fst rest)) in Hnd.
    apply NoDup_cons_iff in Hnd as [Hk0 Hnd].
    pose proof (visit_cases c r k0 p0) as Hv.
    destruct (visit c r k0 p0) as [[c1 r1] p1]. simpl in Hv.
    specialize (IH c1 r1 Hnd) as [new [Hcr [Hkeys [Hnew [Hfrom Hto]]]]].
    destruct (scan c1 r1 rest) as [[c2 r2] rest2]. simpl in *.
    assert (Hsub : forall k, In k (ids new) -> In k (List.map fst rest)).
    { intros k Hk. destruct (Hfrom k Hk) as [p [Hin _]]. eapply in_keys, Hin. }
    assert (Hrest2 : forall p', ~ In (k0, p') rest2).
    { intros p' Hin. apply Hk0. rewrite <- Hkeys. eapply in_keys, Hin. }
    destruct Hv as [[Hr1 ->]|[d [Hr1 [Hp0 ->]]]].
    + exists new. rewrite Hcr, Hr1. split; [reflexivity|].
      split; [f_equal; exact Hkeys|]. split; [exact Hnew|]. split.
      * intros k Hk. destruct (Hfrom k Hk) as [p [Hin Hp]]. exists p. auto.
      * intros k p' [Heq|Hin].
        -- inversion Heq; subst. split.
           ++ intros Hk. exfalso. exact (Hk0 (Hsub _ Hk)).
           ++ exists p'. auto.
        -- destruct (Hto k p' Hin) as [Ha [p [Hp Hb]]]. split; [exact Ha|].
           exists p. auto.
    + exists ((k0, d) :: new). rewrite Hcr, Hr1, <- app_assoc.
      split; [reflexivity|]. split; [f_equal; exact Hkeys|]. split.
      { simpl. apply NoDup_cons_iff. split; [|exact Hnew].
        intros Hk. exact (Hk0 (Hsub _ Hk)). }
      split.
      * intros k [<-|Hk].
        -- exists p0. auto.
        -- destruct (Hfrom k Hk) as [p [Hin Hp]]. exists p. auto.
      * intros k p' [Heq|Hin].
        -- inversion Heq; subst. split; [reflexivity|]. exists p0. auto.
        -- destruct (Hto k p' Hin) as [Ha [p [Hp Hb]]]. split.
           ++ intros [<-|Hk]; [exfalso; exact (Hrest2 _ Hin)|exact (Ha Hk)].
           ++ exists p. auto.
Qed.

(** One call of [update] extends the identities that have crossed by the
    identities of the crossings it reports, which are new ones. *)
Lemma update_inv E clock detections c :
  tracked_inv E (tracker c) -> List.NoDup E ->
  let E' := E ++ ids (crossings (fst (update clock detections c))) in
  List.NoDup E' /\ tracked_inv E' (tracker (snd (update clock detections c))).
Proof.
  intros Hinv HE. unfold update.
  pose proof (inv_tracker_update E clock detections (tracker c) Hinv) as Htr.
  set (tr := CentroidTracker.update clock detections (tracker c)) in *.
  destruct Htr as [Hn Hb Hc].
  destruct (scan_spec (CentroidTracker.tracks tr) c
              {| new_entries := 0; new_exits := 0; crossings := [] |} Hn)
    as [new [Hcr [Hkeys [Hnew [Hfrom Hto]]]]].
  destruct (scan _ _ _) as [[c1 r] tracks1].
  cbn [fst snd crossings app tracker with_track_states with_tracker] in *.
  rewrite Hcr. split.
  - apply List.NoDup_app; [exact HE|exact Hnew|].
    intros k HkE Hk. destruct (Hfrom k Hk) as [p [Hin Hp]].
    destruct (Hc k HkE) as [_ Hall]. rewrite (Hall p Hin) in Hp. discriminate.
  - split; simpl.
    + rewrite Hkeys. exact Hn.
    + intros k p Hin. destruct (Hto k p Hin) as [_ [p0 [Hin0 _]]].
      exact (Hb _ _ Hin0).
    + intros k Hk. apply in_app_or in Hk as [HkE|Hk].
      * destruct (Hc k HkE) as [Hlt Hall]. split; [exact Hlt|].
        intros p Hin. destruct (Hto k p Hin) as [_ [p0 [Hin0 Himp]]].
        exact (Himp (Hall p0 Hin0)).
      * split.
        -- destruct (Hfrom k Hk) as [p [Hin _]]. exact (Hb _ _ Hin).
        -- intros p Hin. destruct (Hto k p Hin) as [Ha _]. exact (Ha Hk).
Qed.

Lemma crossings_of_inv frames : forall E c,
  tracked_inv E (tracker c) -> List.NoDup E ->
  List.NoDup (E ++ ids (crossings_of frames c))
  /\ tracked_inv (E ++ ids (crossings_of frames c))
       (tracker (run (List.map Update frames) c)).
Proof.
  induction frames as [|f frames IH]; intros E c Hinv HE; simpl.
  - rewrite app_nil_r. auto.
  - pose proof (update_inv E (fst f) (snd f) c Hinv HE) as [HE' Hinv'].
    destruct (update (fst f) (snd f) c) as [r c']. simpl in *.
    specialize (IH _ c' Hinv' HE').
    unfold ids in *. rewrite map_app, app_assoc. exact IH.
Qed.

(** C2.  Over any sequence of [update] calls made on a counter since its
    construction (or since [reset], which gives the same state), no track id
    appears in two crossing events, and a track that has produced its
    crossing stays marked [crossed_line] for as long as it is tracked.
    Identifiers are never given out twice, so this bounds the crossings of
    an identity over its whole visit, whatever the centroid does around the
    line. *)
Theorem at_most_one_crossing_per_identity :
  forall (line_y h : Z) (dir : string) (frames : list frame),
    let c0 := __init__ line_y h dir in
    let events := crossings_of frames c0 in
    List.NoDup (List.map fst events)
    /\ forall k p,
         In k (List.map fst events) ->
         In (k, p)
            (CentroidTracker.tracks
               (tracker (run (List.map Update frames) c0))) ->
         TrackedPerson.crossed_line p = true.
Proof.
  intros line_y h dir frames c0 events.
  destruct (crossings_of_inv frames [] c0) as [Hnd Hinv].
  - apply inv_init. reflexivity.
  - constructor.
  - simpl in *. split; [exact Hnd|].
    intros k p Hk Hin. destruct (inv_crossed _ _ Hinv k Hk) as [_ Hall].
    exact (Hall p Hin).
Qed.

(** The jitter of the claim: a centroid that crosses down, comes back up
    and crosses down again is counted once. *)
Example jitter_is_counted_once :
  crossings_of
    (List.map (fun y => (CounterSpec.still, [(320, y)]))
       [290; 295; 305; 295; 305; 295; 310])
    (__init__ 300 480 "down")
  = [(0, entry)].
Proof. vm_compute. reflexivity. Qed.

(** ** Every track has a position *)

Lemma update_position_nonempty now c p :
  TrackedPerson.centroids (TrackedPerson.update_position now c p) <> [].
Proof.
  unfold TrackedPerson.update_position. cbn [TrackedPerson.centroids].
  assert (Hcs : deque_append 30 (TrackedPerson.centroids p) c <> []).
  { unfold deque_append. destruct (_ <=? _)%nat; intros H;
      apply app_eq_nil in H as [_ H]; discriminate. }
  revert Hcs. generalize (deque_append 30 (TrackedPerson.centroids p) c).
  intros cs Hcs.
  destruct (Nat.ltb_spec 30 (length cs)) as [Hlong|_]; [|exact Hcs].
  destruct cs as [|a [|b cs']]; cbn [length tl] in *; [lia|lia|discriminate].
Qed.

Lemma positions_register now c tr :
  has_positions tr -> has_positions (CentroidTracker.register now c tr).
Proof.
  intros H k p Hin. simpl in Hin. apply in_set in Hin as [Heq|Hin].
  - inversion Heq; subst. simpl. discriminate.
  - exact (H k p Hin).
Qed.

Lemma positions_deregister track_id tr :
  has_positions tr -> has_positions (CentroidTracker.deregister track_id tr).
Proof.
  intros H. unfold CentroidTracker.deregister.
  destruct (OD.mem track_id (CentroidTracker.tracks tr)); [|exact H].
  intros k p Hin. simpl in Hin. apply in_del in Hin. exact (H k p Hin).
Qed.

Lemma positions_update_position now c track_id tr :
  has_positions tr ->
  has_positions
    (CentroidTracker.with_tracks tr
       (OD.alter (TrackedPerson.update_position now c) track_id
          (CentroidTracker.tracks tr))).
Proof.
  intros H k p Hin. simpl in Hin.
  apply in_alter in Hin as [p0 [Hin [->| ->]]].
  - exact (H k p0 Hin).
  - apply update_position_nonempty.
Qed.

Lemma positions_register_all clock cs : forall n tr,
  has_positions tr ->
  has_positions (fst (CentroidTracker.register_all clock n cs tr)).
Proof.
  induction cs as [|c cs IH]; intros n tr H; simpl; [exact H|].
  apply IH, positions_register, H.
Qed.

Lemma positions_update_matched clock track_ids detections pairs : forall n tr,
  has_positions tr ->
  has_positions
    (fst (CentroidTracker.update_matched clock n track_ids detections pairs
            tr)).
Proof.
  induction pairs as [|[i j] pairs IH]; intros n tr H; simpl; [exact H|].
  apply IH, positions_update_position, H.
Qed.

Lemma positions_deregister_all ids : forall tr,
  has_positions tr ->
  has_positions
    (fold_left (fun tr' track_id => CentroidTracker.deregister track_id tr')
       ids tr).
Proof.
  induction ids as [|k ids IH]; intros tr H; simpl; [exact H|].
  apply IH, positions_deregister, H.
Qed.

Lemma positions_tracker_update clock detections tr :
  has_positions tr ->
  has_positions (CentroidTracker.update clock detections tr).
Proof.
  intros H. unfold CentroidTracker.update.
  destruct detections as [|c cs].
  - apply positions_deregister_all, H.
  - destruct (CentroidTracker.tracks tr) as [|kp rest] eqn:Htracks.
    + apply positions_register_all, H.
    + rewrite <- Htracks. clear Htracks kp rest.
      set (track_ids := OD.keys (CentroidTracker.tracks tr)).
      set (pairs := CentroidTracker.greedy_pairs _ _).
      pose proof (positions_update_matched clock track_ids (c :: cs) pairs
                    0 tr H) as H1.
      destruct (CentroidTracker.update_matched _ _ _ _ _ _) as [tr1 n1].
      set (new := CentroidTracker.unmatched_detections _ _).
      pose proof (positions_register_all clock new n1 tr1 H1) as H2.
      destruct (CentroidTracker.register_all _ _ _ _) as [tr2 n2].
      apply positions_deregister_all, H2.
Qed.

Lemma scan_keeps_positions tracks : forall c r k p',
  In (k, p') (snd (scan c r tracks)) ->
  exists p, In (k, p) tracks
            /\ TrackedPerson.centroids p' = TrackedPerson.centroids p.
Proof.
  induction tracks as [|[k0 p0] rest IH]; intros c r k p'; simpl; [tauto|].
  pose proof (visit_cases c r k0 p0) as Hv.
  destruct (visit c r k0 p0) as [[c1 r1] p1]. simpl in Hv.
  specialize (IH c1 r1 k p').
  destruct (scan c1 r1 rest) as [[c2 r2] rest2]. simpl in *.
  intros [[= <- <-]|Hin].
  - exists p0. split; [auto|].
    destruct Hv as [[_ ->]|[d (_ & _ & ->)]]; reflexivity.
  - destruct (IH Hin) as [p [Hp Heq]]. exists p. auto.
Qed.

Lemma positions_update clock detections c :
  has_positions (tracker c) ->
  has_positions (tracker (snd (update clock detections c))).
Proof.
  intros H. unfold update.
  pose proof (positions_tracker_update clock detections (tracker c) H) as Htr.
  set (tr := CentroidTracker.update clock detections (tracker c)) in *.
  pose proof (scan_keeps_positions (CentroidTracker.tracks tr) c
                {| new_entries := 0; new_exits := 0; crossings := [] |}) as Hs.
  destruct (scan _ _ _) as [[c1 r] tracks1]. simpl in *.
  intros k p' Hin. destruct (Hs k p' Hin) as [p [Hp ->]]. exact (Htr k p Hp).
Qed.

(** In every state of a counter every track has at least one centroid: the
    default of [last] in the embedding of [centroids[-1]] is never used. *)
Lemma positions_run ops : forall line_y h dir,
  has_positions (tracker (run ops (__init__ line_y h dir))).
Proof.
  intros line_y h dir.
  assert (H0 : has_positions (tracker (__init__ line_y h dir)))
    by (intros k p []).
  revert H0. generalize (__init__ line_y h dir).
  induction ops as [|op ops IH]; intros c Hc; [exact Hc|].
  simpl. apply IH. destruct op as [f|]; simpl.
  - pose proof (positions_update (fst f) (snd f) c Hc) as Hu.
    destruct (update (fst f) (snd f) c) as [r c']. exact Hu.
  - intros k p [].
Qed.
End TrackingFacts.

(* ===================================================================== *)
(** * Properties of the greedy matcher *)
(* ===================================================================== *)

Module MatchFacts.
Import MatchSpec.

(** ** The order on matrix entries *)

Lemma dist_le_refl a : dist_le a a.
Proof. destruct a; unfold dist_le; simpl; [apply Z.leb_refl|reflexivity]. Qed.

Lemma dist_le_trans a b c : dist_le a b -> dist_le b c -> dist_le a c.
Proof.
  unfold dist_le. destruct a, b, c; simpl; try congruence.
  rewrite !Z.leb_le. lia.
Qed.

Lemma dist_le_total a b : dist_le a b \/ dist_le b a.
Proof.
  unfold dist_le. destruct a, b; simpl; auto. rewrite !Z.leb_le. lia.
Qed.

Lemma dist_lt_le_trans a b c : dist_lt a b -> dist_le b c -> dist_lt a c.
Proof.
  unfold dist_lt, dist_le, dist_ltb. destruct a, b, c; simpl; try congruence.
  rewrite !negb_true_iff, Z.leb_le, !Z.leb_gt. lia.
Qed.

Lemma dist_not_lt_le a b : dist_ltb a b = false -> dist_le b a.
Proof. unfold dist_ltb, dist_le. apply negb_false_iff. Qed.

Lemma dist_lt_not_le a b : dist_lt a b -> ~ dist_le b a.
Proof.
  unfold dist_lt, dist_ltb, dist_le.
  destruct (dist_leb b a); simpl; congruence.
Qed.

Lemma dist_eqb_eq a b : dist_eqb a b = true <-> a = b.
Proof.
  destruct a, b; simpl; split; try congruence.
  - intros H. apply Z.eqb_eq in H. congruence.
  - intros [= ->]. apply Z.eqb_refl.
Qed.

Lemma dist_le_fin_inv a t : dist_le a (Fin t) -> exists z, a = Fin z.
Proof. destruct a; [eauto|discriminate]. Qed.

Lemma dist_min_cases a b :
  (dist_min a b = a \/ dist_min a b = b)
  /\ dist_le (dist_min a b) a /\ dist_le (dist_min a b) b.
Proof.
  unfold dist_min. destruct (dist_leb a b) eqn:Hab.
  - split; [auto|]. split; [apply dist_le_refl|exact Hab].
  - split; [auto|]. split; [|apply dist_le_refl].
    destruct (dist_le_total a b) as [H|H]; [|exact H].
    unfold dist_le in H. congruence.
Qed.

(** ** Minimum and position of the minimum *)

Lemma fold_min_spec xs : forall x,
  In (fold_left dist_min xs x) (x :: xs)
  /\ forall y, In y (x :: xs) -> dist_le (fold_left dist_min xs x) y.
Proof.
  induction xs as [|a xs IH]; intros x; simpl.
  - split; [auto|]. intros y [<-|[]]. apply dist_le_refl.
  - destruct (IH (dist_min x a)) as [Hin Hle].
    destruct (dist_min_cases x a) as [Hor [Hx Ha]]. split.
    + destruct Hin as [Heq|Hin]; [|auto].
      rewrite <- Heq. destruct Hor as [-> | ->]; auto.
    + intros y [<-|[<-|Hy]].
      * eapply dist_le_trans; [apply Hle; left; reflexivity|exact Hx].
      * eapply dist_le_trans; [apply Hle; left; reflexivity|exact Ha].
      * apply Hle. right. exact Hy.
Qed.

Lemma first_index_spec m l :
  In m l ->
  (first_index m l < length l)%nat /\ nth (first_index m l) l Inf = m.
Proof.
  induction l as [|x l IH]; simpl; [tauto|]. intros Hin.
  destruct (dist_eqb x m) eqn:Hx.
  - apply dist_eqb_eq in Hx. split; [lia|exact Hx].
  - destruct Hin as [->|Hin].
    + assert (dist_eqb m m = true) by (apply dist_eqb_eq; reflexivity).
      congruence.
    + destruct (IH Hin). split; [lia|assumption].
Qed.

Lemma unravel_in_range D k :
  (k < ndarray_size D)%nat ->
  (fst (unravel_index k D) < nrows D)%nat
  /\ (snd (unravel_index k D) < ncols D)%nat.
Proof.
  unfold ndarray_size, unravel_index. simpl. intros Hk.
  assert (ncols D <> 0)%nat by (intros H0; rewrite H0 in Hk; lia).
  split.
  - apply Nat.Div0.div_lt_upper_bound. lia.
  - apply Nat.mod_upper_bound. assumption.
Qed.

Lemma unravel_ravel D r c :
  (c < ncols D)%nat -> unravel_index (r * ncols D + c) D = (r, c).
Proof.
  intros Hc. unfold unravel_index. f_equal.
  - rewrite Nat.div_add_l by lia. rewrite Nat.div_small by exact Hc. lia.
  - rewrite Nat.add_comm, Nat.Div0.mod_add. apply Nat.mod_small, Hc.
Qed.

Lemma length_flat D : length (flat D) = ndarray_size D.
Proof. unfold flat. rewrite length_map, length_seq. reflexivity. Qed.

Lemma nth_flat D k :
  (k < ndarray_size D)%nat -> nth k (flat D) Inf = flat_at D k.
Proof.
  intros Hk. unfold flat.
  rewrite (nth_indep _ Inf (flat_at D 0%nat))
    by (rewrite length_map, length_seq; exact Hk).
  rewrite map_nth, seq_nth by exact Hk. reflexivity.
Qed.

Lemma in_flat D r c :
  (r < nrows D)%nat -> (c < ncols D)%nat -> In (at_ D r c) (flat D).
Proof.
  intros Hr Hc. unfold flat. apply in_map_iff.
  exists (r * ncols D + c)%nat. split.
  - unfold flat_at. rewrite unravel_ravel by exact Hc. reflexivity.
  - apply in_seq. unfold ndarray_size. nia.
Qed.

Lemma min_none D :
  ndarray_min D = None <-> (nrows D = 0 \/ ncols D = 0)%nat.
Proof.
  unfold ndarray_min. pose proof (length_flat D) as Hl.
  unfold ndarray_size in Hl. destruct (flat D); simpl in Hl; split.
  - intros _. nia.
  - reflexivity.
  - discriminate.
  - intros H. nia.
Qed.

(** On a non-empty array [min()] is the least entry, and
    [unravel_index(argmin())] is a position that holds it. *)
Lemma min_spec D :
  (0 < nrows D)%nat -> (0 < ncols D)%nat ->
  exists m,
    ndarray_min D = Some m
    /\ (fst (unravel_index (ndarray_argmin D) D) < nrows D)%nat
    /\ (snd (unravel_index (ndarray_argmin D) D) < ncols D)%nat
    /\ at_ D (fst (unravel_index (ndarray_argmin D) D))
            (snd (unravel_index (ndarray_argmin D) D)) = m
    /\ forall r c, (r < nrows D)%nat -> (c < ncols D)%nat ->
                   dist_le m (at_ D r c).
Proof.
  intros Hr Hc. unfold ndarray_argmin, ndarray_min.
  pose proof (length_flat D) as Hl. pose proof (in_flat D) as Hin.
  pose proof (nth_flat D) as Hnth.
  destruct (flat D) as [|x xs] eqn:Hflat.
  - simpl in Hl. unfold ndarray_size in Hl. nia.
  - destruct (fold_min_spec xs x) as [Hm Hle].
    set (m := fold_left dist_min xs x) in *. exists m.
    destruct (first_index_spec m (x :: xs) Hm) as [Hk Hat].
    rewrite Hl in Hk. rewrite (Hnth _ Hk) in Hat.
    destruct (unravel_in_range D _ Hk) as [Hi Hj].
    repeat split; try assumption.
    intros r c Hr' Hc'. apply Hle, Hin; assumption.
Qed.

(** ** The result of the matcher *)

Lemma mark_used_fin D i j r c z :
  at_ (mark_used D i j) r c = Fin z ->
  r <> i /\ c <> j /\ at_ D r c = Fin z.
Proof.
  simpl. destruct (Nat.eqb_spec r i), (Nat.eqb_spec c j); simpl;
    try discriminate. auto.
Qed.

Lemma mark_used_other D i j r c :
  r <> i -> c <> j -> at_ (mark_used D i j) r c = at_ D r c.
Proof.
  intros Hr Hc. simpl.
  destruct (Nat.eqb_spec r i), (Nat.eqb_spec c j); simpl; congruence.
Qed.

Lemma min_some_nonempty D m :
  ndarray_min D = Some m -> (0 < nrows D)%nat /\ (0 < ncols D)%nat.
Proof.
  intros Hm.
  destruct (Nat.eq_dec (nrows D) 0%nat) as [H0|H0];
    [assert (ndarray_min D = None) by (apply min_none; auto); congruence|].
  destruct (Nat.eq_dec (ncols D) 0%nat) as [H1|H1];
    [assert (ndarray_min D = None) by (apply min_none; auto); congruence|].
  lia.
Qed.

Lemma greedy_nil D thr m :
  ndarray_min D = Some m -> dist_lt thr m -> greedy D thr [].
Proof.
  intros Hm Hlt. split; simpl; try tauto; try constructor.
  - intros pre i j post Heq. destruct pre; discriminate.
  - intros r c (Hr & Hc & _).
    destruct (min_spec D) as (m' & Hm' & _ & _ & _ & Hle); [lia|lia|].
    assert (m' = m) by congruence. subst m'.
    eapply dist_lt_le_trans; [exact Hlt|apply Hle; assumption].
Qed.

(** The matching of the array left after the first pair extends to a
    matching of the whole array. *)
Lemma greedy_cons D t i j ms :
  (i < nrows D)%nat -> (j < ncols D)%nat ->
  dist_le (at_ D i j) (Fin t) ->
  (forall r c, (r < nrows D)%nat -> (c < ncols D)%nat ->
               dist_le (at_ D i j) (at_ D r c)) ->
  greedy (mark_used D i j) (Fin t) ms ->
  greedy D (Fin t) ((i, j) :: ms).
Proof.
  intros Hi Hj Hij Hmin [Hrange Hwithin Hrows Hcols Horder Hstop].
  assert (Hkeep : forall i1 j1, In (i1, j1) ms ->
            i1 <> i /\ j1 <> j /\ at_ (mark_used D i j) i1 j1 = at_ D i1 j1).
  { intros i1 j1 Hin.
    destruct (dist_le_fin_inv _ _ (Hwithin _ _ Hin)) as [z Hz].
    destruct (mark_used_fin _ _ _ _ _ _ Hz) as (? & ? & Hat).
    repeat split; congruence. }
  assert (Hrow : ~ In i (rows_of ms)).
  { intros Hin. apply in_map_iff in Hin as [[i1 j1] [Heq Hin]].
    simpl in Heq; subst i1. destruct (Hkeep _ _ Hin) as [Hne _]. congruence. }
  assert (Hcol : ~ In j (cols_of ms)).
  { intros Hin. apply in_map_iff in Hin as [[i1 j1] [Heq Hin]].
    simpl in Heq; subst j1. destruct (Hkeep _ _ Hin) as (_ & Hne & _).
    congruence. }
  split.
  - intros i1 j1 [[= <- <-]|Hin]; [auto|exact (Hrange _ _ Hin)].
  - intros i1 j1 [[= <- <-]|Hin]; [exact Hij|].
    destruct (Hkeep _ _ Hin) as (_ & _ & <-). exact (Hwithin _ _ Hin).
  - simpl. constructor; assumption.
  - simpl. constructor; assumption.
  - intros pre i1 j1 post Heq r c (Hr & Hc & Hnr & Hnc).
    destruct pre as [|[i0 j0] pre]; simpl in Heq.
    + injection Heq as <- <- _. apply Hmin; assumption.
    + injection Heq as <- <- Heq. simpl in Hnr, Hnc.
      assert (In (i1, j1) ms) as Hin
          by (rewrite Heq; apply in_or_app; right; left; reflexivity).
      destruct (Hkeep _ _ Hin) as (_ & _ & <-).
      rewrite <- (mark_used_other D i j r c) by (intuition congruence).
      apply (Horder pre i1 j1 post Heq). unfold remaining. simpl. tauto.
  - intros r c (Hr & Hc & Hnr & Hnc). simpl in Hnr, Hnc.
    rewrite <- (mark_used_other D i j r c) by (intuition congruence).
    apply Hstop. unfold remaining. simpl. tauto.
Qed.

Lemma loop_unfold fuel D thr acc :
  _greedy_match_loop (S fuel) D thr acc
  = match ndarray_min D with
    | None => Raised
    | Some min_val =>
        if dist_ltb thr min_val then Done acc
        else
          _greedy_match_loop fuel
            (mark_used D (fst (unravel_index (ndarray_argmin D) D))
               (snd (unravel_index (ndarray_argmin D) D)))
            thr
            (acc ++ [(fst (unravel_index (ndarray_argmin D) D),
                      snd (unravel_index (ndarray_argmin D) D))])
    end.
Proof.
  simpl. destruct (ndarray_min D); [|reflexivity].
  destruct (dist_ltb thr d); reflexivity.
Qed.

(** Every result of the loop is the list it started with followed by a
    greedy matching of the array it started with. *)
Lemma loop_spec t : forall fuel D acc ms,
  _greedy_match_loop fuel D (Fin t) acc = Done ms ->
  exists new, ms = acc ++ new /\ greedy D (Fin t) new.
Proof.
  induction fuel as [|fuel IH]; intros D acc ms; [discriminate|].
  rewrite loop_unfold.
  destruct (ndarray_min D) as [m|] eqn:Hm; [|discriminate].
  destruct (dist_ltb (Fin t) m) eqn:Hlt.
  - intros [= <-]. exists []. rewrite app_nil_r. split; [reflexivity|].
    eapply greedy_nil; eassumption.
  - destruct (min_some_nonempty D m Hm) as [Hr Hc].
    destruct (min_spec D Hr Hc) as (m' & Hm' & Hi & Hj & Hat & Hle).
    replace m' with m in * by congruence. clear Hm'.
    destruct (unravel_index (ndarray_argmin D) D) as [i j].
    cbn [fst snd] in *.
    intros Hloop. destruct (IH _ _ _ Hloop) as [new [-> Hnew]].
    exists ((i, j) :: new). rewrite <- app_assoc. split; [reflexivity|].
    apply greedy_cons; try assumption.
    + rewrite Hat. apply dist_not_lt_le, Hlt.
    + rewrite Hat. exact Hle.
Qed.

(** ** Termination *)

Lemma filter_shrinks {A} (f g : A -> bool) (l : list A) (a : A) :
  (forall x, g x = true -> f x = true) ->
  In a l -> f a = true -> g a = false ->
  (length (List.filter g l) < length (List.filter f l))%nat.
Proof.
  intros Himp. 
  assert (Hle : forall l',
            (length (List.filter g l') <= length (List.filter f l'))%nat).
  { induction l' as [|x l' IH]; simpl; [lia|].
    destruct (g x) eqn:Hg; [rewrite (Himp x Hg); simpl; lia|].
    destruct (f x); simpl; lia. }
  induction l as [|x l IH]; simpl; [tauto|]. intros [->|Hin] Hf Hg.
  - rewrite Hf, Hg. simpl. specialize (Hle l). lia.
  - specialize (IH Hin Hf Hg).
    destruct (g x) eqn:Hgx; [rewrite (Himp x Hgx); simpl; lia|].
    destruct (f x); simpl; lia.
Qed.

Lemma live_rows_shrink D t i j :
  (i < nrows D)%nat -> (j < ncols D)%nat ->
  dist_le (at_ D i j) (Fin t) ->
  (length (live_rows (mark_used D i j) (Fin t))
   < length (live_rows D (Fin t)))%nat.
Proof.
  intros Hi Hj Hij. unfold live_rows. simpl nrows. simpl ncols.
  apply filter_shrinks with (a := i).
  - intros r Hr. apply existsb_exists in Hr as [c [Hc Hle]].
    apply existsb_exists. exists c. split; [exact Hc|].
    destruct (dist_le_fin_inv _ _ Hle) as [z Hz].
    destruct (mark_used_fin _ _ _ _ _ _ Hz) as (_ & _ & Hat).
    rewrite Hat. rewrite Hz in Hle. exact Hle.
  - apply in_seq. lia.
  - apply existsb_exists. exists j. split; [apply in_seq; lia|exact Hij].
  - destruct (existsb _ _) eqn:He; [|reflexivity].
    apply existsb_exists in He as [c [_ Hle]]. simpl in Hle.
    rewrite Nat.eqb_refl in Hle. discriminate.
Qed.

Lemma length_live_rows D thr : (length (live_rows D thr) <= nrows D)%nat.
Proof.
  unfold live_rows. etransitivity; [apply filter_length_le|].
  rewrite length_seq. lia.
Qed.

(** With a finite threshold and a non-empty array the loop returns as soon
    as it is given more iterations than there are live rows. *)
Lemma loop_returns t : forall fuel D acc,
  (0 < nrows D)%nat -> (0 < ncols D)%nat ->
  (length (live_rows D (Fin t)) < fuel)%nat ->
  exists ms, _greedy_match_loop fuel D (Fin t) acc = Done ms.
Proof.
  induction fuel as [|fuel IH]; intros D acc Hr Hc Hfuel; [lia|].
  rewrite loop_unfold.
  destruct (min_spec D Hr Hc) as (m & Hm & Hi & Hj & Hat & Hle).
  rewrite Hm. destruct (dist_ltb (Fin t) m) eqn:Hlt; [eauto|].
  destruct (unravel_index (ndarray_argmin D) D) as [i j].
  cbn [fst snd] in *.
  apply IH; try assumption.
  assert (dist_le (at_ D i j) (Fin t)) as Hij
      by (rewrite Hat; apply dist_not_lt_le, Hlt).
  pose proof (live_rows_shrink D t i j Hi Hj Hij). lia.
Qed.

(** More iterations do not change a result. *)
Lemma loop_fuel_mono thr : forall fuel fuel' D acc ms,
  (fuel <= fuel')%nat ->
  _greedy_match_loop fuel D thr acc = Done ms ->
  _greedy_match_loop fuel' D thr acc = Done ms.
Proof.
  induction fuel as [|fuel IH]; intros fuel' D acc ms Hle; [discriminate|].
  destruct fuel' as [|fuel']; [lia|]. rewrite !loop_unfold.
  destruct (ndarray_min D) as [m|]; [|discriminate].
  destruct (dist_ltb thr m); [auto|].
  apply IH. lia.
Qed.

(** An infinite threshold never lets the loop break. *)
Lemma loop_diverges_at_inf : forall fuel D acc,
  (0 < nrows D)%nat -> (0 < ncols D)%nat ->
  _greedy_match_loop fuel D Inf acc = OutOfFuel.
Proof.
  induction fuel as [|fuel IH]; intros D acc Hr Hc; [reflexivity|].
  rewrite loop_unfold.
  destruct (min_spec D Hr Hc) as (m & Hm & _). rewrite Hm.
  assert (dist_ltb Inf m = false) as -> by (destruct m; reflexivity).
  apply IH; assumption.
Qed.

(** The matcher returns on the matrices the tracker builds. *)
Lemma greedy_pairs_done cs1 cs2 md :
  cs1 <> [] -> cs2 <> [] ->
  _greedy_match (CentroidTracker._compute_distances cs1 cs2)
    (CentroidTracker.sq_threshold md)
  = Done (CentroidTracker.greedy_pairs
            (CentroidTracker._compute_distances cs1 cs2) md).
Proof.
  intros H1 H2. unfold CentroidTracker.greedy_pairs.
  assert (exists t, CentroidTracker.sq_threshold md = Fin t) as [t ->]
      by (unfold CentroidTracker.sq_threshold; destruct (md <? 0); eauto).
  destruct (loop_returns t
              (S (nrows (CentroidTracker._compute_distances cs1 cs2)))
              (CentroidTracker._compute_distances cs1 cs2) [])
    as [ms Hms].
  - simpl. destruct cs1; [congruence|simpl; lia].
  - simpl. destruct cs2; [congruence|simpl; lia].
  - pose proof (length_live_rows
                  (CentroidTracker._compute_distances cs1 cs2) (Fin t)). lia.
  - unfold _greedy_match, _greedy_match_fuel. rewrite Hms. reflexivity.
Qed.

(** ** The matcher *)

Example greedy_two_by_two :
  _greedy_match two_by_two (Fin 3) = Done [(0, 1); (1, 0)]%nat.
Proof. reflexivity. Qed.

(** C8 (as amended).  On every non-empty distance matrix and for every
    finite threshold the matcher returns, whatever number of iterations
    beyond the number of rows it is allowed, a list of (row, column) pairs
    [ms] with [greedy D thr ms]: the pairs are positions of the matrix
    ([g_range]) whose distance is at most the threshold ([g_within]); no row
    and no column occurs twice ([g_rows], [g_cols]); each pair holds the
    smallest distance among the positions whose row and column were unused
    when it was chosen ([g_order]); and when the matcher stops every
    position whose row and column are still unused holds a distance strictly
    above the threshold ([g_stop]), that is, matching goes on as long as a
    remaining distance is at or below the threshold. *)
Theorem greedy_match_correct :
  forall (D : ndarray) (t : Z),
    (0 < nrows D)%nat -> (0 < ncols D)%nat ->
    exists ms,
      _greedy_match D (Fin t) = Done ms
      /\ (forall fuel, (nrows D < fuel)%nat ->
                       _greedy_match_fuel fuel D (Fin t) = Done ms)
      /\ greedy D (Fin t) ms.
Proof.
  intros D t Hr Hc.
  destruct (loop_returns t (S (nrows D)) D [] Hr Hc) as [ms Hms].
  - pose proof (length_live_rows D (Fin t)). lia.
  - exists ms. split; [exact Hms|]. split.
    + intros fuel Hfuel. unfold _greedy_match_fuel.
      apply (loop_fuel_mono (Fin t) (S (nrows D))); [lia|exact Hms].
    + destruct (loop_spec t _ _ _ _ Hms) as [new [-> Hnew]]. exact Hnew.
Qed.

(** The theorem at the two-by-two matrix above. *)
Lemma greedy_match_correct_witness :
  (0 < nrows two_by_two)%nat /\ (0 < ncols two_by_two)%nat
  /\ exists ms,
       _greedy_match two_by_two (Fin 3) = Done ms
       /\ (forall fuel, (nrows two_by_two < fuel)%nat ->
                        _greedy_match_fuel fuel two_by_two (Fin 3) = Done ms)
       /\ greedy two_by_two (Fin 3) ms.
Proof.
  split; [simpl; lia|]. split; [simpl; lia|].
  apply (greedy_match_correct two_by_two 3); simpl; lia.
Defined.

(** C8 (counterexample).  A single distance equal to the threshold: no
    distance of the matrix is below the threshold, and yet the matcher does
    not stop but matches the pair.  Besides, on a matrix without entries
    [min()] raises, and with an infinite threshold the loop never breaks. *)
Lemma greedy_match_boundary_cases :
  (_greedy_match (of_rows [[Fin 50]]) (Fin 50) = Done [(0, 0)]%nat
   /\ forall r c, ~ dist_lt (at_ (of_rows [[Fin 50]]) r c) (Fin 50))
  /\ (forall fuel, _greedy_match_fuel (S fuel) (of_rows []) (Fin 50) = Raised)
  /\ (forall fuel, _greedy_match_fuel fuel (of_rows [[Fin 1]]) Inf = OutOfFuel).
Proof.
  split; [split; [reflexivity|]|split].
  - intros r c. unfold dist_lt. simpl.
    destruct r as [|[|r]], c as [|[|c]]; simpl; discriminate.
  - reflexivity.
  - intros fuel. apply loop_diverges_at_inf; simpl; lia.
Qed.

(** The same in the tracker: a detection at exactly [max_distance] pixels of
    a track is matched to it. *)
Example tracker_matches_at_max_distance :
  CentroidTracker.greedy_pairs
    (CentroidTracker._compute_distances [(0, 0)] [(30, 40)]) 50
  = [(0, 0)]%nat.
Proof. reflexivity. Qed.

(** The pairs handed to the tracker are positions of the matrix:
    [track_ids[i]] and [detections[j]] are defined for each of them. *)
Lemma greedy_pairs_in_range cs1 cs2 md i j :
  In (i, j)
     (CentroidTracker.greedy_pairs
        (CentroidTracker._compute_distances cs1 cs2) md) ->
  (i < length cs1)%nat /\ (j < length cs2)%nat.
Proof.
  unfold CentroidTracker.greedy_pairs.
  assert (exists t, CentroidTracker.sq_threshold md = Fin t) as [t ->]
      by (unfold CentroidTracker.sq_threshold; destruct (md <? 0); eauto).
  destruct (_greedy_match _ _) as [ms| |] eqn:Hms; try (simpl; tauto).
  unfold _greedy_match, _greedy_match_fuel in Hms.
  destruct (loop_spec t _ _ _ _ Hms) as [new [-> Hnew]].
  intros Hin. exact (g_range _ _ _ Hnew i j Hin).
Qed.
End MatchFacts.

(* ===================================================================== *)
(** * Properties of DwellTimeTracker: the session ledger *)
(* ===================================================================== *)

Module LedgerFacts.
Import DwellTimeTracker.
Import DictFacts.
Import LedgerSpec.

Lemma minutes_of_exact (delta : timedelta) :
  (minutes_of delta == delta # 60000000)%Q.
Proof.
  unfold minutes_of, total_seconds, Qdiv, Qeq. simpl. lia.
Qed.

Lemma minutes_of_nonneg (delta : timedelta) :
  0 <= delta -> (0 <= minutes_of delta)%Q.
Proof.
  intros H. rewrite minutes_of_exact. unfold Qle. simpl. lia.
Qed.

Lemma close_row_other timestamp session track_id r :
  open_for track_id r = false ->
  close_row timestamp session track_id r = r.
Proof. unfold close_row, open_for. intros ->. reflexivity. Qed.

Lemma close_rows_none timestamp session track_id rows :
  (forall r, In r rows -> open_for track_id r = false) ->
  List.map (close_row timestamp session track_id) rows = rows.
Proof.
  intros H. rewrite <- (map_id rows) at 2. apply map_ext_in.
  intros r Hr. apply close_row_other, H, Hr.
Qed.

Lemma close_row_closes timestamp session track_id r :
  open_for track_id (close_row timestamp session track_id r) = false.
Proof.
  unfold close_row. destruct (open_for track_id r) eqn:Hr; unfold open_for in *.
  - rewrite Hr. simpl. apply andb_false_r.
  - rewrite Hr. exact Hr.
Qed.

(** C3.  When the ledger holds no open row for an identity,
    [record_entry(id, t1)] followed by [record_exit(id, t2)] with
    [t1 <= t2] adds exactly one row to the ledger and changes no other: the
    row of that identity, inactive, with the two timestamps, a dwell of
    [(t2 - t1)] microseconds counted in minutes (an exact rational here,
    the float of the source up to rounding), the hour of [t1] and the
    weekday name of [t1].  No session of that identity stays in memory and
    the sessions of the other identities are untouched. *)
Theorem entry_then_exit_closes_one_session :
  forall (s : t) (track_id : Z) (now1 now2 : datetime)
         (ts1 ts2 : option datetime),
    let t1 := or_now now1 ts1 in
    let t2 := or_now now2 ts2 in
    (forall r, In r (sessions s) -> open_for track_id r = false) ->
    t1 <= t2 ->
    let s' :=
      record_exit now2 track_id ts2 (record_entry now1 track_id ts1 s) in
    sessions s' = sessions s ++ [closed_row track_id t1 t2]
    /\ Row.dwell_minutes (closed_row track_id t1 t2)
       = Some (minutes_of (t2 - t1))
    /\ (minutes_of (t2 - t1)%Z == (t2 - t1)%Z # 60000000)%Q
    /\ (0 <= minutes_of (t2 - t1)%Z)%Q
    /\ Row.entry_hour (closed_row track_id t1 t2) = Some (hour t1)
    /\ Row.day_of_week (closed_row track_id t1 t2) = Some (strftime_A t1)
    /\ active_sessions s' = OD.del track_id (active_sessions s)
    /\ OD.get track_id (active_sessions s') = None.
Proof.
  intros s track_id now1 now2 ts1 ts2 t1 t2 Hnone Hle s'.
  assert (Hs' : sessions s' = sessions s ++ [closed_row track_id t1 t2]
                /\ active_sessions s' = OD.del track_id (active_sessions s)).
  { subst s'. unfold record_exit, record_entry. simpl.
    rewrite get_set_same. simpl. rewrite del_set_same. split; [|reflexivity].
    rewrite map_app, close_rows_none by exact Hnone. simpl. f_equal.
    unfold close_row. simpl. rewrite Z.eqb_refl. reflexivity. }
  destruct Hs' as [Hrows Hact]. rewrite Hact.
  repeat split; try reflexivity; try assumption.
  - apply minutes_of_exact.
  - apply minutes_of_nonneg. lia.
  - apply get_del_same.
Qed.

Example dwell_of_47_minutes :
  (minutes_of (forty_seven_minutes_later - monday_evening)%Z == 47)%Q
  /\ hour monday_evening = 20
  /\ strftime_A monday_evening = "Monday"%string.
Proof. repeat split. Qed.

(** The theorem at a visit of 47 minutes on a fresh tracker. *)
Lemma entry_then_exit_closes_one_session_witness :
  sessions
    (record_exit 0 7 (Some forty_seven_minutes_later)
       (record_entry 0 7 (Some monday_evening) fresh_tracker))
  = [closed_row 7 monday_evening forty_seven_minutes_later].
Proof.
  apply (entry_then_exit_closes_one_session fresh_tracker 7 0 0
           (Some monday_evening) (Some forty_seven_minutes_later)).
  - simpl. tauto.
  - vm_compute. discriminate.
Defined.

(** C4.  [record_exit] for an identity with no session in the active map
    logs one warning and does nothing else: the active map and the ledger
    are unchanged, and the call returns normally. *)
Theorem exit_without_session_is_ignored :
  forall (s : t) (track_id : Z) (now : datetime) (ts : option datetime),
    OD.get track_id (active_sessions s) = None ->
    let s' := record_exit now track_id ts s in
    active_sessions s' = active_sessions s
    /\ sessions s' = sessions s
    /\ log s' = log s ++ [(WARNING, Exit_for_unknown_track_id track_id)].
Proof.
  intros s track_id now ts Hnone s'. subst s'. unfold record_exit.
  rewrite Hnone. simpl. repeat split.
Qed.

(** The theorem at a fresh tracker, which has no session at all. *)
Lemma exit_without_session_is_ignored_witness :
  OD.get 42 (active_sessions fresh_tracker) = None
  /\ sessions (record_exit 0 42 None fresh_tracker) = [].
Proof.
  split; [reflexivity|].
  apply (exit_without_session_is_ignored fresh_tracker 42 0 None).
  reflexivity.
Defined.

(** C5.  Constructing a tracker over a ledger in which exactly one row is
    flagged active, with no exit timestamp, loads exactly one session into
    the active map: the session of that row's identity, with the row's entry
    timestamp and no exit timestamp.  The loading is part of the
    construction, done once (one [Loaded_active_sessions] record between the
    two records of the construction), and leaves the ledger as it was. *)
Theorem restart_recovers_open_session :
  forall (rows : list Row.t) (r : Row.t) (warning alert : Z),
    select_active rows = [r] ->
    Row.exit_time r = None ->
    let s := __init__ rows warning alert in
    exists session,
      active_sessions s = [(Row.track_id r, session)]
      /\ DwellSession.track_id session = Row.track_id r
      /\ DwellSession.entry_time session = Row.entry_time r
      /\ DwellSession.is_active session = true
      /\ sessions s = rows
      /\ log s = [(INFO, Database_initialized);
                  (INFO, Loaded_active_sessions 1);
                  (INFO, Tracker_initialized warning alert)].
Proof.
  intros rows r warning alert Hsel Hexit s.
  exists (session_of_row r). subst s.
  unfold __init__, _load_active_sessions. simpl. rewrite Hsel. simpl.
  unfold DwellSession.is_active. simpl. rewrite Hexit.
  repeat split.
Qed.

(** The theorem at a ledger with one closed and one open row. *)
Lemma restart_recovers_open_session_witness :
  exists session,
    active_sessions (__init__ ledger_after_crash 90 120) = [(7, session)]
    /\ DwellSession.entry_time session = monday_evening.
Proof.
  destruct (restart_recovers_open_session ledger_after_crash
              (open_row 7 monday_evening) 90 120)
    as [session (Hact & _ & Hentry & _)].
  - reflexivity.
  - reflexivity.
  - exists session. split; [exact Hact|exact Hentry].
Defined.

(** C6 (as amended).  When the ledger holds no open row for an identity,
    two [record_entry] calls for it leave two open rows in the ledger,
    while the active map, keyed by identity, holds one session, the newer
    one.  A following [record_exit] marks both rows inactive, with the same
    exit timestamp, and removes the identity from the active map: no open
    session of the identity is left. *)
Theorem second_entry_then_exit :
  forall (s : t) (track_id : Z) (now1 now2 now3 : datetime)
         (ts1 ts2 ts3 : option datetime),
    let t1 := or_now now1 ts1 in
    let t2 := or_now now2 ts2 in
    let t3 := or_now now3 ts3 in
    (forall r, In r (sessions s) -> open_for track_id r = false) ->
    let s2 :=
      record_entry now2 track_id ts2 (record_entry now1 track_id ts1 s) in
    let s3 := record_exit now3 track_id ts3 s2 in
    sessions s2 = sessions s ++ [open_row track_id t1; open_row track_id t2]
    /\ List.filter (open_for track_id) (sessions s2)
       = [open_row track_id t1; open_row track_id t2]
    /\ OD.get track_id (active_sessions s2)
       = Some (DwellSession.new track_id t2)
    /\ List.map visit_of (sessions s3)
       = List.map visit_of (sessions s)
         ++ [(track_id, t1, Some t3, 0); (track_id, t2, Some t3, 0)]
    /\ List.filter (open_for track_id) (sessions s3) = []
    /\ OD.get track_id (active_sessions s3) = None.
Proof.
  intros s track_id now1 now2 now3 ts1 ts2 ts3 t1 t2 t3 Hnone s2 s3.
  assert (Hfilter : List.filter (open_for track_id) (sessions s) = []).
  { clear - Hnone. induction (sessions s) as [|r rows IH]; [reflexivity|].
    simpl. rewrite (Hnone r) by (left; reflexivity).
    apply IH. intros r' Hr'. apply Hnone. right. exact Hr'. }
  assert (Hrows2 : sessions s2
                   = sessions s
                     ++ [open_row track_id t1; open_row track_id t2]).
  { subst s2. unfold record_entry. simpl. rewrite <- app_assoc. reflexivity. }
  assert (Hget2 : OD.get track_id (active_sessions s2)
                  = Some (DwellSession.new track_id t2)).
  { subst s2. unfold record_entry. simpl. apply get_set_same. }
  split; [exact Hrows2|]. split.
  { rewrite Hrows2, List.filter_app, Hfilter. simpl.
    unfold open_for. simpl. rewrite Z.eqb_refl. reflexivity. }
  split; [exact Hget2|].
  clearbody s2. subst s3. unfold record_exit. rewrite Hget2. simpl.
  rewrite Hrows2.
  split; [|split].
  - rewrite map_app, close_rows_none by exact Hnone.
    rewrite map_app. simpl. unfold close_row. simpl.
    rewrite Z.eqb_refl. reflexivity.
  - rewrite map_app, close_rows_none by exact Hnone.
    rewrite List.filter_app, Hfilter. simpl.
    rewrite !close_row_closes. reflexivity.
  - apply get_del_same.
Qed.

(** The theorem at two entries of identity 7, a minute apart. *)
Lemma second_entry_then_exit_witness :
  List.map visit_of
    (sessions
       (record_exit 0 7 (Some 120000000)
          (record_entry 0 7 (Some 60000000)
             (record_entry 0 7 (Some 0) fresh_tracker))))
  = [(7, 0, Some 120000000, 0); (7, 60000000, Some 120000000, 0)].
Proof.
  apply (second_entry_then_exit fresh_tracker 7 0 0 0
           (Some 0) (Some 60000000) (Some 120000000)).
  simpl. tauto.
Defined.

(** C6 (counterexample).  After two entries of identity 7 the active map
    holds one session of it, not two, and the exit that follows closes two
    rows of the ledger, not one. *)
Lemma exit_closes_both_rows :
  let s2 :=
    record_entry 0 7 (Some 60000000)
      (record_entry 0 7 (Some 0) fresh_tracker) in
  let s3 := record_exit 0 7 (Some 120000000) s2 in
  length (List.filter (fun kv => Z.eqb (fst kv) 7) (active_sessions s2)) = 1%nat
  /\ length (List.filter (open_for 7) (sessions s2)) = 2%nat
  /\ length (List.filter (open_for 7) (sessions s3)) = 0%nat
  /\ List.map Row.is_active (sessions s3) = [0; 0].
Proof. repeat split. Qed.
End LedgerFacts.

(* ===================================================================== *)
(** * Properties of DwellTimeTracker: campers and warnings *)
(* ===================================================================== *)

Module AlertFacts.
Import DwellTimeTracker.
Import AlertSpec.

Section FrozenClock.
Variable now : datetime.
Variable clock : nat -> datetime.
Hypothesis frozen : forall k, clock k = now.

Lemma dwell_frozen n x :
  fst (DwellSession.get_current_dwell_minutes clock n x)
  = current_dwell now x.
Proof.
  unfold current_dwell, DwellSession.get_current_dwell_minutes.
  destruct (DwellSession.exit_time x); simpl; [reflexivity|].
  rewrite frozen. reflexivity.
Qed.


Lemma keyed_spec l : forall n,
  fst (keyed clock n l) = List.map (fun x => (current_dwell now x, x)) l.
Proof.
  induction l as [|y l IH]; intros n; simpl; [reflexivity|].
  pose proof (dwell_frozen n y) as Hy.
  destruct (DwellSession.get_current_dwell_minutes clock n y) as [d n1].
  simpl in Hy. subst d. specialize (IH n1).
  destruct (keyed clock n1 l) as [ks n2]. simpl in *. rewrite IH.
  reflexivity.
Qed.
End FrozenClock.







(** ** Whatever the clock does *)






(** ** At one instant *)



Example busy_evening_lists :
  List.map DwellSession.track_id
    (get_campers (fun _ => minutes 200) None busy_evening) = [4; 3]
  /\ List.map DwellSession.track_id
       (get_warnings (fun _ => minutes 200) busy_evening) = [2].
Proof. split; vm_compute; reflexivity. Qed.



End AlertFacts.

(* ===================================================================== *)
(** * Properties of OccupancyTracker: event rows *)
(* ===================================================================== *)

Module EventFacts.
Import OccupancyTracker.
Import EventSpec.

Lemma record_events_spec wall count ty : forall n o,
  List.map kind_and_occupancy (events (fst (record_events wall n count ty o)))
  = List.map kind_and_occupancy (events o)
    ++ repeat (ty, current_occupancy o) count
  /\ current_occupancy (fst (record_events wall n count ty o))
     = current_occupancy o
  /\ total_entries (fst (record_events wall n count ty o)) = total_entries o
  /\ total_exits (fst (record_events wall n count ty o)) = total_exits o.
Proof.
  induction count as [|count IH]; intros n o; simpl.
  - rewrite app_nil_r. auto.
  - destruct (IH (S n) (_record_event (wall n) ty o)) as (He & Ho & H1 & H2).
    rewrite He, Ho, H1, H2. simpl. rewrite map_app, <- app_assoc. simpl.
    auto.
Qed.

(** [update] stores the totals it is given and appends one 'entry' row per
    unit of increase of [total_entries], then one 'exit' row per unit of
    increase of [total_exits]; every one of these rows carries the
    'current_occupancy' of the argument. *)
Lemma update_appends_events wall clock stats o entries exits occupancy :
  stats !! "total_entries"%string = Some entries ->
  stats !! "total_exits"%string = Some exits ->
  stats !! "current_occupancy"%string = Some occupancy ->
  exists o',
    update wall clock stats o = Some o'
    /\ total_entries o' = entries
    /\ total_exits o' = exits
    /\ current_occupancy o' = occupancy
    /\ List.map kind_and_occupancy (events o')
       = List.map kind_and_occupancy (events o)
         ++ repeat ("entry"%string, occupancy)
              (Z.to_nat (entries - total_entries o))
         ++ repeat ("exit"%string, occupancy)
              (Z.to_nat (exits - total_exits o)).
Proof.
  intros He Hx Ho. unfold update. rewrite He, Hx, Ho.
  set (o1 := with_counters o occupancy entries exits _).
  assert (H2 : exists o2 n2,
    (if 0 <? entries - total_entries o
     then record_events wall 0 (Z.to_nat (entries - total_entries o))
            "entry" o1
     else (o1, 0%nat)) = (o2, n2)
    /\ List.map kind_and_occupancy (events o2)
       = List.map kind_and_occupancy (events o)
         ++ repeat ("entry"%string, occupancy)
              (Z.to_nat (entries - total_entries o))
    /\ current_occupancy o2 = occupancy
    /\ total_entries o2 = entries /\ total_exits o2 = exits).
  { destruct (Z.ltb_spec 0 (entries - total_entries o)) as [Hpos|Hneg].
    - destruct (record_events_spec wall
                  (Z.to_nat (entries - total_entries o)) "entry" 0 o1)
        as (Hev & Hocc & Hen & Hex).
      destruct (record_events wall 0 _ "entry" o1) as [o2 n2].
      exists o2, n2. simpl in *. auto.
    - exists o1, 0%nat. replace (Z.to_nat (entries - total_entries o))
        with 0%nat by lia.
      simpl. rewrite app_nil_r. auto. }
  destruct H2 as (o2 & n2 & -> & Hev2 & Hocc2 & Hen2 & Hex2).
  assert (H3 : exists o3 n3,
    (if 0 <? exits - total_exits o
     then record_events wall n2 (Z.to_nat (exits - total_exits o)) "exit" o2
     else (o2, n2)) = (o3, n3)
    /\ List.map kind_and_occupancy (events o3)
       = List.map kind_and_occupancy (events o2)
         ++ repeat ("exit"%string, occupancy)
              (Z.to_nat (exits - total_exits o))
    /\ current_occupancy o3 = occupancy
    /\ total_entries o3 = entries /\ total_exits o3 = exits).
  { destruct (Z.ltb_spec 0 (exits - total_exits o)) as [Hpos|Hneg].
    - destruct (record_events_spec wall
                  (Z.to_nat (exits - total_exits o)) "exit" n2 o2)
        as (Hev & Hocc & Hen & Hex).
      destruct (record_events wall n2 _ "exit" o2) as [o3 n3].
      exists o3, n3. simpl in *. rewrite Hocc2 in Hev.
      repeat split; congruence.
    - exists o2, n2. replace (Z.to_nat (exits - total_exits o))
        with 0%nat by lia.
      simpl. rewrite app_nil_r. auto. }
  destruct H3 as (o3 & n3 & -> & Hev3 & Hocc3 & Hen3 & Hex3).
  rewrite Hev2, <- app_assoc in Hev3.
  destruct (Qle_bool _ _); eexists; (split; [reflexivity|]); simpl;
    repeat split; assumption.
Qed.

Example stats_two_abreast_values :
  stats_two_abreast !! "total_entries"%string = Some 2
  /\ stats_two_abreast !! "total_exits"%string = Some 0
  /\ stats_two_abreast !! "current_occupancy"%string = Some 2
  /\ stats_two_abreast !! "active_tracks"%string = Some 2.
Proof. repeat split; vm_compute; reflexivity. Qed.

(** C9 (the code at the failing input).  A tracker that has seen nobody is
    given the statistics of the counter after two people entered in one
    frame.  It records two 'entry' rows, and both carry occupancy 2: the
    row of the first entry does not carry the occupancy after that entry,
    which is 1. *)
Theorem batch_events_carry_final_occupancy :
  exists o',
    update Z.of_nat CounterSpec.still stats_two_abreast (__init__ [] [] 60 0)
    = Some o'
    /\ List.map kind_and_occupancy (events o')
       = [("entry"%string, 2); ("entry"%string, 2)].
Proof.
  destruct stats_two_abreast_values as (He & Hx & Ho & _).
  destruct (update_appends_events Z.of_nat CounterSpec.still
              stats_two_abreast (__init__ [] [] 60 0) 2 0 2 He Hx Ho)
    as (o' & Hup & _ & _ & _ & Hev).
  exists o'. split; [exact Hup|]. rewrite Hev. reflexivity.
Qed.
End EventFacts.

(* ===================================================================== *)
(** * More on the tracker: tracks, identifiers, histories *)
(* ===================================================================== *)

Module TrackerFacts.
Import EntryExitCounter.
Import DictFacts.
Import TrackingSpec.
Import TrackerSpec.
Import TrackingFacts.

(** ** A property of every track of every state *)

Section TrackProperty.
Variable P : Z -> TrackedPerson.t -> Prop.
Hypothesis P_new : forall id c now, 0 <= id -> P id (new_track id c now).
Hypothesis P_move : forall k now c p,
  P k p -> P k (TrackedPerson.update_position now c p).
Hypothesis P_mark : forall k d p, P k p -> P k (TrackedPerson.mark_crossed d p).

Lemma all_register now c tr :
  all_tracks P tr -> all_tracks P (CentroidTracker.register now c tr).
Proof.
  intros [Hn H]. split; simpl; [lia|].
  intros k p Hin. apply in_set in Hin as [Heq|Hin]; [|exact (H k p Hin)].
  inversion Heq; subst. split; [exact Hn|]. apply P_new, Hn.
Qed.

Lemma all_deregister track_id tr :
  all_tracks P tr -> all_tracks P (CentroidTracker.deregister track_id tr).
Proof.
  intros [Hn H]. unfold CentroidTracker.deregister.
  destruct (OD.mem track_id (CentroidTracker.tracks tr)); [|split; assumption].
  split; simpl; [exact Hn|].
  intros k p Hin. apply in_del in Hin. exact (H k p Hin).
Qed.

Lemma all_update_position now c track_id tr :
  all_tracks P tr ->
  all_tracks P
    (CentroidTracker.with_tracks tr
       (OD.alter (TrackedPerson.update_position now c) track_id
          (CentroidTracker.tracks tr))).
Proof.
  intros [Hn H]. split; simpl; [exact Hn|].
  intros k p Hin. apply in_alter in Hin as [p0 [Hin [->| ->]]].
  - exact (H k p0 Hin).
  - destruct (H k p0 Hin). split; [assumption|]. apply P_move. assumption.
Qed.

Lemma all_register_all clock cs : forall n tr,
  all_tracks P tr ->
  all_tracks P (fst (CentroidTracker.register_all clock n cs tr)).
Proof.
  induction cs as [|c cs IH]; intros n tr H; simpl; [exact H|].
  apply IH, all_register, H.
Qed.

Lemma all_update_matched clock track_ids detections pairs : forall n tr,
  all_tracks P tr ->
  all_tracks P
    (fst (CentroidTracker.update_matched clock n track_ids detections pairs
            tr)).
Proof.
  induction pairs as [|[i j] pairs IH]; intros n tr H; simpl; [exact H|].
  apply IH, all_update_position, H.
Qed.

Lemma all_deregister_all ids : forall tr,
  all_tracks P tr ->
  all_tracks P
    (fold_left (fun tr' track_id => CentroidTracker.deregister track_id tr')
       ids tr).
Proof.
  induction ids as [|k ids IH]; intros tr H; simpl; [exact H|].
  apply IH, all_deregister, H.
Qed.

Lemma all_tracker_update clock detections tr :
  all_tracks P tr ->
  all_tracks P (CentroidTracker.update clock detections tr).
Proof.
  intros H. unfold CentroidTracker.update.
  destruct detections as [|c cs].
  - apply all_deregister_all, H.
  - destruct (CentroidTracker.tracks tr) as [|kp rest] eqn:Htracks.
    + apply all_register_all, H.
    + rewrite <- Htracks. clear Htracks kp rest.
      set (track_ids := OD.keys (CentroidTracker.tracks tr)).
      set (pairs := CentroidTracker.greedy_pairs _ _).
      pose proof (all_update_matched clock track_ids (c :: cs) pairs 0 tr H)
        as H1.
      destruct (CentroidTracker.update_matched _ _ _ _ _ _) as [tr1 n1].
      set (new := CentroidTracker.unmatched_detections _ _).
      pose proof (all_register_all clock new n1 tr1 H1) as H2.
      destruct (CentroidTracker.register_all _ _ _ _) as [tr2 n2].
      apply all_deregister_all, H2.
Qed.

(** The loop of the counter changes a track only by marking it. *)
Lemma scan_tracks tracks : forall c r k p',
  In (k, p') (snd (scan c r tracks)) ->
  exists p, In (k, p) tracks
            /\ (p' = p \/ exists d, p' = TrackedPerson.mark_crossed d p).
Proof.
  induction tracks as [|[k0 p0] rest IH]; intros c r k p'; simpl; [tauto|].
  pose proof (visit_cases c r k0 p0) as Hv.
  destruct (visit c r k0 p0) as [[c1 r1] p1]. simpl in Hv.
  specialize (IH c1 r1 k p').
  destruct (scan c1 r1 rest) as [[c2 r2] rest2]. simpl in *.
  intros [Heq|Hin].
  - inversion Heq; subst. exists p0. split; [auto|].
    destruct Hv as [[_ ->]|[d (_ & _ & ->)]]; eauto.
  - destruct (IH Hin) as [p [Hp Hor]]. exists p. auto.
Qed.

Lemma all_update clock detections c :
  all_tracks P (tracker c) ->
  all_tracks P (tracker (snd (update clock detections c))).
Proof.
  intros H. unfold update.
  pose proof (all_tracker_update clock detections (tracker c) H) as [Hn Htr].
  set (tr := CentroidTracker.update clock detections (tracker c)) in *.
  pose proof (scan_tracks (CentroidTracker.tracks tr) c
                {| new_entries := 0; new_exits := 0; crossings := [] |}) as Hs.
  destruct (scan _ _ _) as [[c1 r] tracks1]. simpl in *.
  split; [exact Hn|]. intros k p' Hin.
  destruct (Hs k p' Hin) as [p [Hp [->|[d ->]]]].
  - exact (Htr k p Hp).
  - destruct (Htr k p Hp). split; [assumption|]. apply P_mark. assumption.
Qed.

Lemma all_run ops : forall c,
  all_tracks P (tracker c) -> all_tracks P (tracker (run ops c)).
Proof.
  induction ops as [|op ops IH]; intros c Hc; [exact Hc|].
  simpl. apply IH. destruct op as [f|]; simpl.
  - pose proof (all_update (fst f) (snd f) c Hc) as Hu.
    destruct (update (fst f) (snd f) c) as [r c']. exact Hu.
  - split; simpl; [lia|tauto].
Qed.

Lemma all_reachable line_y h dir ops :
  all_tracks P (tracker (run ops (__init__ line_y h dir))).
Proof. apply all_run. split; simpl; [lia|tauto]. Qed.
End TrackProperty.

(** ** Histories *)

Lemma length_deque_append maxlen d c :
  (length d <= maxlen)%nat -> (0 < maxlen)%nat ->
  (1 <= length (deque_append maxlen d c) <= maxlen)%nat.
Proof.
  intros Hd Hm. unfold deque_append.
  destruct (Nat.leb_spec maxlen (length d)).
  - rewrite length_app. simpl. destruct d; simpl in *; lia.
  - rewrite length_app. simpl. lia.
Qed.

(** X1.  [update_position] keeps a window of the 30 latest positions: on a
    history of at most 30 positions (the only ones there are, see the next
    theorem) the new history is the old one followed by the new position,
    without its oldest position when the old one was full. *)
Theorem update_position_window :
  forall (now : Q) (c : centroid) (p : TrackedPerson.t),
    (length (TrackedPerson.centroids p) <= 30)%nat ->
    let p' := TrackedPerson.update_position now c p in
    TrackedPerson.centroids p'
    = skipn (length (TrackedPerson.centroids p) + 1 - 30)
        (TrackedPerson.centroids p ++ [c])
    /\ List.last (TrackedPerson.centroids p') (0, 0) = c
    /\ TrackedPerson.last_seen p' = now
    /\ TrackedPerson.track_id p' = TrackedPerson.track_id p
    /\ TrackedPerson.crossed_line p' = TrackedPerson.crossed_line p.
Proof.
  intros now c p Hlen p'. subst p'.
  unfold TrackedPerson.update_position.
  cbn [TrackedPerson.centroids TrackedPerson.last_seen TrackedPerson.track_id
       TrackedPerson.crossed_line].
  pose proof (length_deque_append 30 (TrackedPerson.centroids p) c Hlen) as Hb.
  destruct (Nat.ltb_spec 30 (length (deque_append 30 (TrackedPerson.centroids p) c)));
    [lia|].
  assert (Heq : deque_append 30 (TrackedPerson.centroids p) c
                = skipn (length (TrackedPerson.centroids p) + 1 - 30)
                    (TrackedPerson.centroids p ++ [c])).
  { unfold deque_append.
    destruct (Nat.leb_spec 30 (length (TrackedPerson.centroids p))).
    - replace (length (TrackedPerson.centroids p) + 1 - 30)%nat with 1%nat
        by lia.
      destruct (TrackedPerson.centroids p); [simpl in *; lia|reflexivity].
    - replace (length (TrackedPerson.centroids p) + 1 - 30)%nat with 0%nat
        by lia.
      reflexivity. }
  split; [exact Heq|]. split; [|repeat split].
  unfold deque_append. destruct (_ <=? _)%nat; apply last_last.
Qed.

(** The theorem at a history of 29 positions. *)
Lemma update_position_window_witness :
  List.last
    (TrackedPerson.centroids
       (TrackedPerson.update_position 1 (320, 260) almost_full)) (0, 0)
  = (320, 260).
Proof.
  apply (update_position_window 1 (320, 260) almost_full). simpl. lia.
Defined.

(** X2.  In every state of a counter every track holds between 1 and 30
    positions. *)
Theorem history_bounded :
  forall (line_y h : Z) (dir : string) (ops : list call)
         (k : Z) (p : TrackedPerson.t),
    In (k, p)
       (CentroidTracker.tracks (tracker (run ops (__init__ line_y h dir)))) ->
    (1 <= length (TrackedPerson.centroids p) <= 30)%nat.
Proof.
  intros line_y h dir ops k p Hin.
  destruct (all_reachable
              (fun _ p => (1 <= length (TrackedPerson.centroids p) <= 30)%nat))
    with (line_y := line_y) (h := h) (dir := dir) (ops := ops) as [_ H].
  - intros. simpl. lia.
  - intros k0 now c p0 Hp0. unfold TrackedPerson.update_position.
    cbn [TrackedPerson.centroids].
    pose proof (length_deque_append 30 (TrackedPerson.centroids p0) c) as Hb.
    destruct (Nat.ltb_spec 30
                (length (deque_append 30 (TrackedPerson.centroids p0) c)));
      lia.
  - intros k0 d p0 Hp0. exact Hp0.
  - exact (proj2 (H k p Hin)).
Qed.

(** The theorem at the track of the first frame. *)
Lemma history_bounded_witness :
  (1 <= length (TrackedPerson.centroids lone_track) <= 30)%nat.
Proof.
  apply (history_bounded 300 480 "down"
           [Update (CounterSpec.still, [(320, 350)])] 0 lone_track).
  left. reflexivity.
Defined.

(** Identifiers stay unique and below [next_id] through every call. *)
Lemma inv_run ops : forall c,
  (exists E, tracked_inv E (tracker c) /\ List.NoDup E) ->
  exists E, tracked_inv E (tracker (run ops c)) /\ List.NoDup E.
Proof.
  induction ops as [|op ops IH]; intros c Hc; [exact Hc|].
  simpl. apply IH. destruct op as [f|]; simpl.
  - destruct Hc as [E [Hinv HE]].
    pose proof (update_inv E (fst f) (snd f) c Hinv HE) as [HE' Hinv'].
    destruct (update (fst f) (snd f) c) as [r c1]. simpl in *. eauto.
  - exists []. split; [apply inv_init; reflexivity|constructor].
Qed.

(** X3.  In every state of a counter the track identifiers are pairwise
    distinct, lie between 0 and [next_id], and are the [track_id] of the
    track they lead to. *)
Theorem track_ids_unique :
  forall (line_y h : Z) (dir : string) (ops : list call),
    let tr := tracker (run ops (__init__ line_y h dir)) in
    List.NoDup (OD.keys (CentroidTracker.tracks tr))
    /\ forall k p, In (k, p) (CentroidTracker.tracks tr) ->
         0 <= k < CentroidTracker.next_id tr
         /\ TrackedPerson.track_id p = k.
Proof.
  intros line_y h dir ops tr.
  assert (Hinv : exists E, tracked_inv E tr /\ List.NoDup E).
  { subst tr. apply inv_run. exists [].
    split; [apply inv_init; reflexivity|constructor]. }
  destruct Hinv as [E [[Hnd Hbelow _] _]].
  destruct (all_reachable (fun k p => TrackedPerson.track_id p = k))
    with (line_y := line_y) (h := h) (dir := dir) (ops := ops) as [_ H].
  - reflexivity.
  - intros; assumption.
  - intros; assumption.
  - split; [exact Hnd|]. intros k p Hin. fold tr in H.
    destruct (H k p Hin). pose proof (Hbelow k p Hin). repeat split; lia || assumption.
Qed.

(** ** What [update] does to the tracks *)

Lemma with_tracks_same tr :
  CentroidTracker.with_tracks tr (CentroidTracker.tracks tr) = tr.
Proof. destruct tr. reflexivity. Qed.

Lemma del_absent {V} k (d : odict V) : OD.get k d = None -> OD.del k d = d.
Proof.
  unfold OD.del. induction d as [|[k' v] d IH]; simpl; [reflexivity|].
  destruct (Z.eqb k k'); [discriminate|]. intros H. simpl. f_equal. exact (IH H).
Qed.

Lemma deregister_del track_id tr :
  CentroidTracker.deregister track_id tr
  = CentroidTracker.with_tracks tr
      (OD.del track_id (CentroidTracker.tracks tr)).
Proof.
  unfold CentroidTracker.deregister, OD.mem.
  destruct (OD.get track_id (CentroidTracker.tracks tr)) eqn:Hget;
    [reflexivity|].
  rewrite del_absent by exact Hget. symmetry. apply with_tracks_same.
Qed.

Lemma deregister_all_filter ids : forall tr,
  fold_left (fun tr' track_id => CentroidTracker.deregister track_id tr') ids tr
  = CentroidTracker.with_tracks tr
      (List.filter (fun kv => negb (existsb (Z.eqb (fst kv)) ids))
         (CentroidTracker.tracks tr)).
Proof.
  induction ids as [|k ids IH]; intros tr; simpl.
  - rewrite <- (with_tracks_same tr) at 1. f_equal.
    induction (CentroidTracker.tracks tr) as [|kv d IHd];
      [reflexivity|simpl; f_equal; exact IHd].
  - rewrite IH, deregister_del. unfold CentroidTracker.with_tracks. simpl.
    f_equal. unfold OD.del.
    induction (CentroidTracker.tracks tr) as [|kv d IHd]; [reflexivity|].
    simpl. rewrite (Z.eqb_sym k (fst kv)).
    destruct (Z.eqb (fst kv) k); simpl; [exact IHd|].
    destruct (existsb (Z.eqb (fst kv)) ids); simpl; [exact IHd|].
    f_equal. exact IHd.
Qed.

Lemma unique_value {V} (d : odict V) k v v' :
  List.NoDup (OD.keys d) -> In (k, v) d -> In (k, v') d -> v = v'.
Proof.
  intros Hnd H H'. apply (in_get _ _ _ Hnd) in H. apply (in_get _ _ _ Hnd) in H'.
  congruence.
Qed.

(** X4.  An update without detections removes exactly the tracks last seen
    more than [max_disappeared / 30] seconds before the clock reading, and
    leaves the other tracks, their order and [next_id] as they were. *)
Theorem update_without_detections :
  forall (clock : nat -> Q) (tr : CentroidTracker.t),
    List.NoDup (OD.keys (CentroidTracker.tracks tr)) ->
    CentroidTracker.update clock [] tr
    = CentroidTracker.with_tracks tr
        (List.filter
           (fun kv => negb (CentroidTracker.expired tr (clock 0%nat) (snd kv)))
           (CentroidTracker.tracks tr)).
Proof.
  intros clock tr Hnd. unfold CentroidTracker.update.
  rewrite deregister_all_filter. f_equal.
  apply filter_ext_in. intros [k p] Hin. simpl. f_equal.
  destruct (CentroidTracker.expired tr (clock 0%nat) p) eqn:Hexp.
  - apply existsb_exists. exists k. split; [|apply Z.eqb_refl].
    apply in_map_iff. exists (k, p). split; [reflexivity|].
    apply filter_In. auto.
  - destruct (existsb _ _) eqn:He; [|reflexivity].
    apply existsb_exists in He as [k' [Hk' Heq]].
    apply Z.eqb_eq in Heq. subst k'.
    apply in_map_iff in Hk' as [[k1 p1] [Hk1 Hin1]]. simpl in Hk1. subst k1.
    apply filter_In in Hin1 as [Hin1 Hexp1]. simpl in Hexp1.
    rewrite (unique_value _ _ _ _ Hnd Hin Hin1) in Hexp. congruence.
Qed.

(** The theorem at a tracker of one person, two seconds later: the track is
    removed. *)
Lemma update_without_detections_witness :
  CentroidTracker.tracks (CentroidTracker.update (fun _ => 2%Q) [] one_person)
  = [].
Proof.
  rewrite (update_without_detections (fun _ => 2%Q) one_person).
  - reflexivity.
  - repeat constructor. simpl. tauto.
Defined.

Lemma register_all_fresh clock cs : forall n tr,
  (forall k p, In (k, p) (CentroidTracker.tracks tr) ->
               k < CentroidTracker.next_id tr) ->
  fst (CentroidTracker.register_all clock n cs tr)
  = {| CentroidTracker.next_id :=
         CentroidTracker.next_id tr + Z.of_nat (length cs);
       CentroidTracker.tracks :=
         CentroidTracker.tracks tr
         ++ fresh_tracks clock n (CentroidTracker.next_id tr) cs;
       CentroidTracker.max_disappeared := CentroidTracker.max_disappeared tr;
       CentroidTracker.max_distance := CentroidTracker.max_distance tr |}.
Proof.
  induction cs as [|c cs IH]; intros n tr Hb.
  - simpl. rewrite Z.add_0_r, app_nil_r. destruct tr. reflexivity.
  - cbn [CentroidTracker.register_all fresh_tracks length].
    assert (Hfresh : ~ In (CentroidTracker.next_id tr)
                       (OD.keys (CentroidTracker.tracks tr))).
    { intros Hin. apply in_map_iff in Hin as [[k p] [Hk Hin]].
      simpl in Hk. subst k. specialize (Hb _ _ Hin). lia. }
    rewrite IH.
    + unfold CentroidTracker.register. simpl.
      rewrite set_fresh by exact Hfresh. rewrite <- app_assoc. simpl.
      f_equal. lia.
    + unfold CentroidTracker.register. simpl.
      rewrite set_fresh by exact Hfresh.
      intros k p Hin. apply in_app_or in Hin as [Hin|[Heq|[]]].
      * specialize (Hb _ _ Hin). lia.
      * inversion Heq. lia.
Qed.

Lemma keys_fresh_tracks clock cs : forall n id,
  OD.keys (fresh_tracks clock n id cs)
  = List.map (fun i => id + Z.of_nat i) (seq 0 (length cs)).
Proof.
  induction cs as [|c cs IH]; intros n id; [reflexivity|].
  cbn [fresh_tracks length seq List.map OD.keys fst]. f_equal; [lia|].
  change (List.map fst (fresh_tracks clock (S n) (id + 1) cs))
    with (OD.keys (fresh_tracks clock (S n) (id + 1) cs)).
  rewrite IH, <- seq_shift, map_map. apply map_ext. intros i. lia.
Qed.

(** X5.  When nobody is tracked, an update makes a track of every detection,
    in the order of the detections: each with the detection as its only
    position, not yet crossed, and the identifiers [next_id], [next_id + 1],
    ... *)
Theorem update_registers_all :
  forall (clock : nat -> Q) (detections : list centroid)
         (tr : CentroidTracker.t),
    CentroidTracker.tracks tr = [] ->
    let tr' := CentroidTracker.update clock detections tr in
    CentroidTracker.tracks tr'
    = fresh_tracks clock 0 (CentroidTracker.next_id tr) detections
    /\ OD.keys (CentroidTracker.tracks tr')
       = List.map (fun i => CentroidTracker.next_id tr + Z.of_nat i)
           (seq 0 (length detections))
    /\ CentroidTracker.next_id tr'
       = CentroidTracker.next_id tr + Z.of_nat (length detections).
Proof.
  intros clock detections tr Hempty tr'.
  assert (Heq : tr' = {| CentroidTracker.next_id :=
                           CentroidTracker.next_id tr
                           + Z.of_nat (length detections);
                         CentroidTracker.tracks :=
                           fresh_tracks clock 0 (CentroidTracker.next_id tr)
                             detections;
                         CentroidTracker.max_disappeared :=
                           CentroidTracker.max_disappeared tr;
                         CentroidTracker.max_distance :=
                           CentroidTracker.max_distance tr |}).
  { subst tr'. unfold CentroidTracker.update. destruct detections as [|c cs].
    - simpl. rewrite Hempty. simpl. rewrite Z.add_0_r.
      destruct tr; simpl in *; subst; reflexivity.
    - rewrite Hempty. rewrite register_all_fresh.
      + rewrite Hempty. reflexivity.
      + rewrite Hempty. intros k p []. }
  rewrite Heq. simpl. split; [reflexivity|]. split; [|reflexivity].
  apply keys_fresh_tracks.
Qed.

(** The theorem at a new tracker and two detections. *)
Lemma update_registers_all_witness :
  OD.keys
    (CentroidTracker.tracks
       (CentroidTracker.update CounterSpec.still [(100, 280); (400, 280)]
          (CentroidTracker.__init__ 30 50)))
  = [0; 1].
Proof.
  apply (update_registers_all CounterSpec.still [(100, 280); (400, 280)]
           (CentroidTracker.__init__ 30 50)).
  reflexivity.
Defined.

(** ** One person, one detection *)

Lemma greedy_pairs_one_by_one a b md :
  CentroidTracker.greedy_pairs
    (CentroidTracker._compute_distances [a] [b]) md
  = if (0 <=? md) && (CentroidTracker.sq_dist a b <=? md * md)
    then [(0, 0)]%nat else [].
Proof.
  unfold CentroidTracker.greedy_pairs, _greedy_match, _greedy_match_fuel.
  cbn [nrows CentroidTracker._compute_distances length].
  rewrite MatchFacts.loop_unfold.
  assert (Hmin : ndarray_min (CentroidTracker._compute_distances [a] [b])
                 = Some (Fin (CentroidTracker.sq_dist a b))) by reflexivity.
  assert (Harg : unravel_index
                   (ndarray_argmin (CentroidTracker._compute_distances [a] [b]))
                   (CentroidTracker._compute_distances [a] [b])
                 = (0, 0)%nat).
  { unfold ndarray_argmin. rewrite Hmin. unfold flat, ndarray_size. simpl.
    assert (dist_eqb (Fin (CentroidTracker.sq_dist a b))
              (Fin (CentroidTracker.sq_dist a b)) = true) as Hrefl
        by (apply MatchFacts.dist_eqb_eq; reflexivity).
    unfold flat_at. simpl. simpl in Hrefl. rewrite Hrefl. reflexivity. }
  rewrite Hmin, Harg. cbn [fst snd app].
  unfold CentroidTracker.sq_threshold, dist_ltb.
  destruct (Z.ltb_spec md 0) as [Hneg|Hpos].
  - replace (0 <=? md) with false by (symmetry; apply Z.leb_gt; lia).
    simpl.
    replace (CentroidTracker.sq_dist a b <=? -1) with false; [reflexivity|].
    symmetry. apply Z.leb_gt. unfold CentroidTracker.sq_dist. nia.
  - replace (0 <=? md) with true by (symmetry; apply Z.leb_le; lia).
    simpl. destruct (CentroidTracker.sq_dist a b <=? md * md); simpl;
      reflexivity.
Qed.

(** X6.  A tracker that follows one person and receives one detection
    within [max_distance] of the person's latest position keeps the track,
    under the same identifier: the detection becomes its latest position, no
    track is made or removed, and the age of the track is not looked at. *)
Theorem lone_track_followed :
  forall (clock : nat -> Q) (c : centroid) (tr : CentroidTracker.t)
         (k : Z) (p : TrackedPerson.t),
    CentroidTracker.tracks tr = [(k, p)] ->
    0 <= CentroidTracker.max_distance tr ->
    CentroidTracker.sq_dist (List.last (TrackedPerson.centroids p) (0, 0)) c
    <= CentroidTracker.max_distance tr * CentroidTracker.max_distance tr ->
    CentroidTracker.update clock [c] tr
    = CentroidTracker.with_tracks tr
        [(k, TrackedPerson.update_position (clock 0%nat) c p)].
Proof.
  intros clock c tr k p Htracks Hmd Hnear.
  unfold CentroidTracker.update. rewrite Htracks.
  cbn [OD.keys OD.values List.map fst snd].
  rewrite greedy_pairs_one_by_one.
  replace (0 <=? CentroidTracker.max_distance tr) with true
    by (symmetry; apply Z.leb_le; exact Hmd).
  replace (_ <=? _) with true by (symmetry; apply Z.leb_le; exact Hnear).
  cbn [andb CentroidTracker.update_matched nth].
  rewrite Htracks. cbn [OD.alter]. rewrite Z.eqb_refl.
  cbn [List.map fst snd nth CentroidTracker.unmatched_detections length seq
       combine List.filter existsb Nat.eqb orb negb
       CentroidTracker.register_all].
  cbn [CentroidTracker.tracks CentroidTracker.with_tracks OD.get existsb orb
       negb andb List.filter fold_left].
  rewrite Z.eqb_refl. reflexivity.
Qed.

(** The theorem at the tracker of one person and a detection 30 pixels
    away. *)
Lemma lone_track_followed_witness :
  CentroidTracker.update CounterSpec.still [(100, 130)] one_person
  = CentroidTracker.with_tracks one_person
      [(0, TrackedPerson.update_position (CounterSpec.still 0%nat) (100, 130)
             (new_track 0 (100, 100) 0))].
Proof.
  apply (lone_track_followed CounterSpec.still (100, 130) one_person 0
           (new_track 0 (100, 100) 0)).
  - reflexivity.
  - vm_compute. discriminate.
  - vm_compute. discriminate.
Defined.

(** X7.  A tracker that follows one person and receives one detection
    farther than [max_distance] from the person's latest position makes a new
    track of the detection, under the identifier [next_id], and keeps the old
    track unchanged unless it was last seen more than [max_disappeared / 30]
    seconds before the second clock reading, in which case it removes it.
    This is for [max_distance] below [2^26] (50 in the trackers of a counter)
    and a squared distance below [2^53], where the float square root of the
    source exceeds [max_distance] exactly when the square exceeds its
    square. *)
Theorem lone_track_lost :
  forall (clock : nat -> Q) (c : centroid) (tr : CentroidTracker.t)
         (k : Z) (p : TrackedPerson.t),
    CentroidTracker.tracks tr = [(k, p)] ->
    k < CentroidTracker.next_id tr ->
    0 <= CentroidTracker.max_distance tr < 2 ^ 26 ->
    CentroidTracker.max_distance tr * CentroidTracker.max_distance tr
    < CentroidTracker.sq_dist (List.last (TrackedPerson.centroids p) (0, 0)) c
    < 2 ^ 53 ->
    CentroidTracker.update clock [c] tr
    = {| CentroidTracker.next_id := CentroidTracker.next_id tr + 1;
         CentroidTracker.tracks :=
           (if CentroidTracker.expired tr (clock 1%nat) p then []
            else [(k, p)])
           ++ [(CentroidTracker.next_id tr,
                new_track (CentroidTracker.next_id tr) c (clock 0%nat))];
         CentroidTracker.max_disappeared := CentroidTracker.max_disappeared tr;
         CentroidTracker.max_distance := CentroidTracker.max_distance tr |}.
Proof.
  intros clock c tr k p Htracks Hk Hmd [Hfar _].
  unfold CentroidTracker.update. rewrite Htracks.
  cbn [OD.keys OD.values List.map fst snd].
  rewrite greedy_pairs_one_by_one.
  replace (_ <=? CentroidTracker.max_distance tr * _) with false
    by (symmetry; apply Z.leb_gt; exact Hfar).
  rewrite andb_false_r.
  cbn [CentroidTracker.update_matched List.map
       CentroidTracker.unmatched_detections length seq combine List.filter
       existsb negb fst snd CentroidTracker.register_all].
  unfold CentroidTracker.register. rewrite Htracks. cbn [OD.set].
  destruct (Z.eqb_spec (CentroidTracker.next_id tr) k) as [Heq|Hne]; [lia|].
  cbn [CentroidTracker.tracks OD.get List.filter existsb negb andb].
  rewrite Z.eqb_refl.
  unfold CentroidTracker.expired at 1.
  cbn [CentroidTracker.max_disappeared].
  fold (CentroidTracker.expired tr (clock 1%nat) p).
  destruct (CentroidTracker.expired tr (clock 1%nat) p); cbn [fold_left].
  - rewrite deregister_del. unfold CentroidTracker.with_tracks, OD.del.
    cbn [CentroidTracker.tracks CentroidTracker.next_id
         CentroidTracker.max_disappeared CentroidTracker.max_distance
         List.filter fst].
    rewrite Z.eqb_refl. cbn [negb].
    destruct (Z.eqb_spec k (CentroidTracker.next_id tr)); [lia|]. reflexivity.
  - reflexivity.
Qed.

(** The theorem at the tracker of one person and a detection 200 pixels
    away. *)
Lemma lone_track_lost_witness :
  OD.keys
    (CentroidTracker.tracks
       (CentroidTracker.update CounterSpec.still [(100, 300)] one_person))
  = [0; 1].
Proof.
  refine (f_equal (fun tr => OD.keys (CentroidTracker.tracks tr))
            (lone_track_lost CounterSpec.still (100, 300) one_person 0
               (new_track 0 (100, 100) 0) _ _ _ _)).
  - reflexivity.
  - reflexivity.
  - vm_compute. split; [discriminate|reflexivity].
  - vm_compute. split; reflexivity.
Defined.
End TrackerFacts.

(* ===================================================================== *)
(** * More on the counter: counts, recorded sides, crossings *)
(* ===================================================================== *)

Module SideFacts.
Import EntryExitCounter.
Import DictFacts.
Import TrackingSpec.
Import TrackerSpec.
Import TrackingFacts.

(** ** The counts of a frame *)

Lemma count_of_app d l l' : count_of d (l ++ l') = count_of d l + count_of d l'.
Proof.
  unfold count_of. rewrite List.filter_app, length_app.
  apply Nat2Z.inj_add.
Qed.

Lemma count_of_nonneg d l : 0 <= count_of d l.
Proof. unfold count_of. apply Nat2Z.is_nonneg. Qed.

Lemma visit_moved c r k p :
  exists new,
    moved_by new c (fst (fst (visit c r k p))) r (snd (fst (visit c r k p))).
Proof.
  unfold visit.
  assert (Hnone : moved_by [] c c r r)
    by (unfold moved_by, count_of; simpl; rewrite app_nil_r;
        repeat split; lia).
  destruct (length (TrackedPerson.centroids p) <? 2)%nat; [exists []; exact Hnone|].
  destruct (track_states c !! k) as [previous_side|]; [|exists []; exact Hnone].
  destruct (crossing_direction _ _ _) as [d|]; [|exists []; exact Hnone].
  destruct (negb (TrackedPerson.crossed_line p)); [|exists []; exact Hnone].
  exists [(k, d)].
  destruct d; unfold moved_by, count_of; simpl; repeat split; lia.
Qed.

Lemma scan_moved tracks : forall c r,
  exists new,
    moved_by new c (fst (fst (scan c r tracks))) r (snd (fst (scan c r tracks))).
Proof.
  induction tracks as [|[k0 p0] rest IH]; intros c r; simpl.
  - exists []. unfold moved_by, count_of. simpl. rewrite app_nil_r.
    repeat split; lia.
  - destruct (visit_moved c r k0 p0) as [new1 H1].
    destruct (visit c r k0 p0) as [[c1 r1] p1]. simpl in H1.
    destruct (IH c1 r1) as [new2 H2].
    destruct (scan c1 r1 rest) as [[c2 r2] rest2]. simpl in *.
    exists (new1 ++ new2). unfold moved_by in *.
    rewrite !count_of_app.
    destruct H1 as (E1 & E2 & E3 & E4 & E5 & E6).
    destruct H2 as (F1 & F2 & F3 & F4 & F5 & F6).
    split; [rewrite F1, E1, app_assoc; reflexivity|].
    repeat split; lia.
Qed.

(** X8.  The pair [(new_entries, new_exits)] returned by [update] counts the
    entry and the exit crossings of the frame; [total_entries] and
    [total_exits] grow by these numbers, never decrease, and
    [current_occupancy] moves by their difference. *)
Theorem update_counts :
  forall (clock : nat -> Q) (detections : list centroid) (c : t),
    let r := fst (update clock detections c) in
    let c' := snd (update clock detections c) in
    new_entries r = count_of entry (crossings r)
    /\ new_exits r = count_of exit (crossings r)
    /\ 0 <= new_entries r
    /\ 0 <= new_exits r
    /\ total_entries c' = total_entries c + new_entries r
    /\ total_exits c' = total_exits c + new_exits r
    /\ current_occupancy c' = current_occupancy c + new_entries r - new_exits r.
Proof.
  intros clock detections c. unfold update.
  destruct (scan_moved
              (CentroidTracker.tracks
                 (CentroidTracker.update clock detections (tracker c)))
              c {| new_entries := 0; new_exits := 0; crossings := [] |})
    as [new H].
  destruct (scan _ _ _) as [[c1 r] tracks1].
  cbn [fst snd total_entries total_exits current_occupancy with_tracker
       with_track_states].
  unfold moved_by in H. cbn [fst snd] in H.
  destruct H as (Hcr & Hne & Hnx & Hte & Htx & Hocc).
  cbn [crossings new_entries new_exits app] in Hcr, Hne, Hnx.
  rewrite Hcr.
  pose proof (count_of_nonneg entry new). pose proof (count_of_nonneg exit new).
  repeat split; lia.
Qed.

(** ** A flag that the tracker never clears *)

Section Flag.
Variable f : TrackedPerson.t -> bool.
Variable S : Z -> Prop.
Hypothesis f_move : forall now c p,
  f p = true -> f (TrackedPerson.update_position now c p) = true.







End Flag.


(** ** The sides recorded by the loop *)

Lemma get_none_keys {V} k (d : odict V) :
  OD.get k d = None <-> ~ In k (OD.keys d).
Proof.
  induction d as [|[k' v] d IH]; simpl; [tauto|].
  destruct (Z.eqb_spec k k') as [->|Hne].
  - split; [discriminate|tauto].
  - rewrite IH. intuition congruence.
Qed.

Lemma visit_states c r k p :
  track_states (fst (fst (visit c r k p)))
  = (if seen_twice p
     then <[k := side_of (counting_line_y c) p]> (track_states c)
     else track_states c)
  /\ counting_line_y (fst (fst (visit c r k p))) = counting_line_y c
  /\ entry_direction (fst (fst (visit c r k p))) = entry_direction c.
Proof.
  unfold visit, seen_twice, side_of.
  destruct (length (TrackedPerson.centroids p) <? 2)%nat; simpl; [auto|].
  destruct (track_states c !! k) as [previous_side|]; simpl; [|auto].
  destruct (crossing_direction _ _ _) as [d|]; simpl; [|auto].
  destruct (negb (TrackedPerson.crossed_line p)); simpl; [|auto].
  destruct d; simpl; auto.
Qed.


Lemma mark_crossed_side line_y d p :
  seen_twice (TrackedPerson.mark_crossed d p) = seen_twice p
  /\ side_of line_y (TrackedPerson.mark_crossed d p) = side_of line_y p.
Proof. split; reflexivity. Qed.




(** ** The crossings reported by the loop *)

Lemma visit_fires c r k p :
  exists new,
    crossings (snd (fst (visit c r k p))) = crossings r ++ new
    /\ forall k' d, In (k', d) new <-> k' = k /\ fires c k p d.
Proof.
  unfold visit, fires, seen_twice, side_of.
  destruct (length (TrackedPerson.centroids p) <? 2)%nat eqn:Hlen; simpl.
  { exists []. rewrite app_nil_r. split; [reflexivity|].
    intros k' d. simpl. intuition discriminate. }
  destruct (track_states c !! k) as [previous_side|] eqn:Hst; simpl.
  2:{ exists []. rewrite app_nil_r. split; [reflexivity|].
      intros k' d. simpl. split; [tauto|].
      intros (_ & _ & _ & s & Hs & _). discriminate. }
  destruct (crossing_direction _ _ _) as [d0|] eqn:Hdir; simpl.
  2:{ exists []. rewrite app_nil_r. split; [reflexivity|].
      intros k' d. simpl. split; [tauto|].
      intros (_ & _ & _ & s & [= <-] & Hd). congruence. }
  destruct (TrackedPerson.crossed_line p) eqn:Hcr; simpl.
  { exists []. rewrite app_nil_r. split; [reflexivity|].
    intros k' d. simpl. intuition discriminate. }
  exists [(k, d0)]. split; [destruct d0; reflexivity|].
  intros k' d. simpl. split.
  - intros [[= <- <-]|[]]. repeat split. exists previous_side. auto.
  - intros (-> & _ & _ & s & [= <-] & Hd). left. congruence.
Qed.

Lemma scan_fires tracks : forall c r,
  List.NoDup (OD.keys tracks) ->
  exists new,
    crossings (snd (fst (scan c r tracks))) = crossings r ++ new
    /\ forall k d, In (k, d) new <-> exists p, In (k, p) tracks /\ fires c k p d.
Proof.
  induction tracks as [|[k0 p0] rest IH]; intros c r Hnd.
  - exists []. simpl. rewrite app_nil_r. split; [reflexivity|].
    intros k d. simpl. split; [tauto|]. intros [p [[] _]].
  - change (List.NoDup (k0 :: OD.keys rest)) in Hnd.
    apply NoDup_cons_iff in Hnd as [Hk0 Hnd].
    cbn [scan].
    destruct (visit_fires c r k0 p0) as [new1 [Hcr1 Hnew1]].
    destruct (visit_states c r k0 p0) as (Hst & Hline & Hdir).
    destruct (visit c r k0 p0) as [[c1 r1] p1]. cbn [fst snd] in *.
    destruct (IH c1 r1 Hnd) as [new2 [Hcr2 Hnew2]].
    destruct (scan c1 r1 rest) as [[c2 r2] rest2]. cbn [fst snd] in *.
    exists (new1 ++ new2). split; [rewrite Hcr2, Hcr1, app_assoc; reflexivity|].
    assert (Hsame : forall k p d, In (k, p) rest ->
              (fires c1 k p d <-> fires c k p d)).
    { intros k p d Hin. unfold fires. rewrite Hline, Hdir.
      assert (Hne : k0 <> k)
        by (intros ->; apply Hk0; eapply in_keys, Hin).
      assert (Hk : track_states c1 !! k = track_states c !! k).
      { rewrite Hst. destruct (seen_twice p0); [|reflexivity].
        apply lookup_insert_ne. exact Hne. }
      rewrite Hk. reflexivity. }
    intros k d. rewrite in_app_iff, Hnew1, Hnew2. split.
    + intros [[-> Hf]|[p [Hin Hf]]].
      * exists p0. split; [left; reflexivity|exact Hf].
      * exists p. split; [right; exact Hin|]. apply (Hsame k p d Hin), Hf.
    + intros [p [[[= <- <-]|Hin] Hf]].
      * left. auto.
      * right. exists p. split; [exact Hin|]. apply (Hsame k p d Hin), Hf.
Qed.

(** X10.  [update], called in any state of a counter, reports a crossing of
    direction [d] for the identifier [k] exactly when the track of [k], as the
    tracker leaves it for this frame, has been seen at least twice, is not
    marked [crossed_line], has a recorded side, and its latest position lies
    on the other side; [d] is then given by [crossing_direction]: an entry
    for a move from above to below when [entry_direction] is 'down' and for a
    move from below to above otherwise, an exit in the other two cases. *)
Theorem crossing_reported_iff :
  forall (line_y h : Z) (dir : string) (ops : list call)
         (clock : nat -> Q) (detections : list centroid)
         (k : Z) (d : direction_t),
    let c := run ops (__init__ line_y h dir) in
    let tr := CentroidTracker.update clock detections (tracker c) in
    In (k, d) (crossings (fst (update clock detections c)))
    <-> exists p, In (k, p) (CentroidTracker.tracks tr) /\ fires c k p d.
Proof.
  intros line_y h dir ops clock detections k d c tr.
  destruct (TrackerFacts.inv_run ops (__init__ line_y h dir)) as [E [Hinv _]].
  { exists []. split; [apply inv_init; reflexivity|constructor]. }
  fold c in Hinv.
  pose proof (inv_tracker_update E clock detections (tracker c) Hinv)
    as [Hnd _ _].
  fold tr in Hnd. unfold update. fold tr.
  destruct (scan_fires (CentroidTracker.tracks tr) c
              {| new_entries := 0; new_exits := 0; crossings := [] |} Hnd)
    as [new [Hcr Hnew]].
  destruct (scan _ _ _) as [[c1 r] tracks1]. cbn [fst snd crossings app] in *.
  rewrite Hcr. apply Hnew.
Qed.
End SideFacts.

(* ===================================================================== *)
(** * More on the dwell tracker: the ledger and the active map *)
(* ===================================================================== *)

Module SessionFacts.
Import DwellTimeTracker.
Import DictFacts.
Import LedgerSpec.
Import SessionSpec.

(** ** Dictionaries *)

Lemma del_set_other {V} k k' (v : V) d :
  k <> k' -> OD.del k (OD.set k' v d) = OD.set k' v (OD.del k d).
Proof.
  intros Hne. unfold OD.del.
  induction d as [|[k1 v1] d IH]; simpl.
  - destruct (Z.eqb_spec k k'); [contradiction|reflexivity].
  - destruct (Z.eqb_spec k' k1) as [->|Hne1]; simpl.
    + destruct (Z.eqb_spec k k1); [contradiction|]. simpl.
      rewrite Z.eqb_refl. reflexivity.
    + destruct (Z.eqb_spec k k1) as [->|Hne2]; simpl; [exact IH|].
      destruct (Z.eqb_spec k' k1); [contradiction|]. f_equal. exact IH.
Qed.

Lemma mem_set {V} k k' (v : V) d :
  OD.mem k (OD.set k' v d) = Z.eqb k k' || OD.mem k d.
Proof.
  unfold OD.mem. induction d as [|[k1 v1] d IH]; simpl.
  - destruct (Z.eqb k k'); reflexivity.
  - destruct (Z.eqb_spec k' k1) as [->|Hne1]; simpl.
    + destruct (Z.eqb k k1); reflexivity.
    + destruct (Z.eqb_spec k k1) as [->|Hne2]; simpl.
      * symmetry. apply orb_true_r.
      * exact IH.
Qed.

Lemma nodup_keys_set {V} k (v : V) d :
  List.NoDup (OD.keys d) -> List.NoDup (OD.keys (OD.set k v d)).
Proof.
  intros Hnd.
  assert (Hkeys : OD.keys (OD.set k v d) = OD.keys d
                  \/ (~ In k (OD.keys d)
                      /\ OD.keys (OD.set k v d) = OD.keys d ++ [k])).
  { unfold OD.keys. induction d as [|[k1 v1] d IH]; simpl.
    - right. split; [tauto|reflexivity].
    - change (List.NoDup (k1 :: OD.keys d)) in Hnd.
      apply NoDup_cons_iff in Hnd as [Hk1 Hnd].
      destruct (Z.eqb_spec k k1) as [->|Hne]; simpl; [left; reflexivity|].
      destruct (IH Hnd) as [->|[Hk ->]]; [left; reflexivity|].
      right. split; [|reflexivity]. intros [Heq|Hin]; [congruence|tauto]. }
  destruct Hkeys as [->|[Hk ->]]; [exact Hnd|].
  apply List.NoDup_app; [exact Hnd|repeat constructor; simpl; tauto|].
  intros a Ha [<-|[]]. exact (Hk Ha).
Qed.

(** ** The active map is the one a restart would load *)

Lemma select_active_app rows rows' :
  select_active (rows ++ rows') = select_active rows ++ select_active rows'.
Proof. apply List.filter_app. Qed.

Lemma loaded_snoc rows r :
  loaded (rows ++ [r])
  = if Z.eqb (Row.is_active r) 1
    then OD.set (Row.track_id r) (session_of_row r) (loaded rows)
    else loaded rows.
Proof.
  unfold loaded. rewrite select_active_app, fold_left_app. simpl.
  destruct (Z.eqb (Row.is_active r) 1); reflexivity.
Qed.

Lemma loaded_closed timestamp session track_id rows :
  loaded (List.map (close_row timestamp session track_id) rows)
  = OD.del track_id (loaded rows).
Proof.
  induction rows as [|r rows IH] using rev_ind; [reflexivity|].
  rewrite map_app. simpl. rewrite !loaded_snoc, IH.
  unfold close_row.
  destruct (Z.eqb_spec (Row.track_id r) track_id) as [Hid|Hid];
    destruct (Z.eqb_spec (Row.is_active r) 1) as [Hact|Hact]; simpl.
  - rewrite <- Hid, del_set_same. reflexivity.
  - destruct (Z.eqb_spec (Row.is_active r) 1); [contradiction|reflexivity].
  - destruct (Z.eqb_spec (Row.is_active r) 1); [|contradiction].
    rewrite del_set_other by congruence. reflexivity.
  - destruct (Z.eqb_spec (Row.is_active r) 1); [contradiction|reflexivity].
Qed.

Lemma loaded_cleanup cutoff rows :
  loaded (List.filter (fun r => negb (old_and_closed cutoff r)) rows)
  = loaded rows.
Proof.
  unfold loaded. f_equal. unfold select_active.
  induction rows as [|r rows IH]; [reflexivity|]. simpl.
  unfold old_and_closed at 1.
  destruct (Z.eqb_spec (Row.is_active r) 1) as [Hact|Hact].
  - replace (Row.is_active r =? 0) with false
      by (symmetry; apply Z.eqb_neq; lia).
    rewrite andb_false_r. simpl.
    destruct (Z.eqb_spec (Row.is_active r) 1); [|contradiction].
    f_equal. exact IH.
  - destruct (negb _); simpl; [|exact IH].
    destruct (Z.eqb_spec (Row.is_active r) 1); [contradiction|exact IH].
Qed.


Lemma init_active rows warning alert :
  active_sessions (__init__ rows warning alert) = loaded rows.
Proof.
  unfold __init__, _load_active_sessions.
  cbn [sessions active_sessions].
  change (fold_left _ (select_active rows) []) with (loaded rows).
  destruct (loaded rows); reflexivity.
Qed.

Lemma init_sessions rows warning alert :
  sessions (__init__ rows warning alert) = rows.
Proof.
  unfold __init__, _load_active_sessions.
  cbn [sessions active_sessions].
  destruct (fold_left _ _ _); reflexivity.
Qed.

Lemma in_step_init rows warning alert : in_step (__init__ rows warning alert).
Proof. unfold in_step. rewrite init_active, init_sessions. reflexivity. Qed.

Lemma in_step_entry now track_id timestamp s :
  in_step s -> in_step (record_entry now track_id timestamp s).
Proof.
  unfold in_step, record_entry. simpl. intros ->.
  rewrite loaded_snoc. reflexivity.
Qed.

Lemma record_exit_active now track_id timestamp s :
  active_sessions (record_exit now track_id timestamp s)
  = OD.del track_id (active_sessions s).
Proof.
  unfold record_exit.
  destruct (OD.get track_id (active_sessions s)) eqn:Hget; simpl;
    [reflexivity|].
  symmetry. apply TrackerFacts.del_absent, Hget.
Qed.

Lemma in_step_exit now track_id timestamp s :
  in_step s -> in_step (record_exit now track_id timestamp s).
Proof.
  unfold in_step. intros Hs. rewrite record_exit_active.
  unfold record_exit.
  destruct (OD.get track_id (active_sessions s)) eqn:Hget; simpl.
  - rewrite loaded_closed, Hs. reflexivity.
  - rewrite <- Hs. apply TrackerFacts.del_absent, Hget.
Qed.

Lemma in_step_exit_all clock ids : forall n s,
  in_step s -> in_step (exit_all clock n ids s).
Proof.
  induction ids as [|k ids IH]; intros n s Hs; simpl; [exact Hs|].
  apply IH, in_step_exit, Hs.
Qed.

Lemma in_step_cleanup now days_to_keep s :
  in_step s -> in_step (step s (Cleanup now days_to_keep)).
Proof.
  unfold in_step, step, cleanup_old_data.
  destruct (minus now (days days_to_keep)); [|tauto].
  simpl. intros ->. symmetry. apply loaded_cleanup.
Qed.

Lemma in_step_run ops : forall s,
  forallb committed ops = true -> in_step s -> in_step (run ops s).
Proof.
  induction ops as [|op ops IH]; intros s Hops Hs; [exact Hs|].
  simpl in Hops. apply andb_prop in Hops as [Hop Hops].
  simpl. apply IH; [exact Hops|]. destruct op; try discriminate.
  - apply in_step_entry, Hs.
  - apply in_step_exit, Hs.
  - apply in_step_cleanup, Hs.
  - apply in_step_exit_all, Hs.
Qed.

(** X11.  As long as no database statement of the tracker has raised:
    whatever ledger it was constructed over and whatever calls were made on
    it since ([record_entry], [record_exit], [cleanup_old_data], leaving the
    context manager), constructing a new tracker over the ledger as it stands
    gives the active map of the running tracker: the same identities, in the
    same order, with the same sessions. *)
Theorem restart_recovers_active_map :
  forall (rows : list Row.t) (warning alert warning' alert' : Z)
         (ops : list call),
    forallb committed ops = true ->
    let s := run ops (__init__ rows warning alert) in
    active_sessions (__init__ (sessions s) warning' alert')
    = active_sessions s.
Proof.
  intros rows warning alert warning' alert' ops Hops s.
  pose proof (in_step_run ops _ Hops (in_step_init rows warning alert)) as Hs.
  fold s in Hs. rewrite Hs. apply init_active.
Qed.

Lemma restart_recovers_active_map_witness :
  active_sessions (__init__ (sessions (run evening fresh_tracker)) 60 90)
  = active_sessions (run evening fresh_tracker).
Proof.
  apply (restart_recovers_active_map [] default_warning_threshold
           default_alert_threshold 60 90 evening).
  reflexivity.
Defined.

(** A write that raised is not recovered: the guest whose INSERT failed has
    a session in memory and none after a restart, and the guest whose UPDATE
    failed carries an exit time in memory while the row is still open. *)
Example failed_writes_are_not_recovered :
  let s := run bad_evening fresh_tracker in
  OD.keys (active_sessions s) = [1; 2]
  /\ OD.keys (active_sessions (__init__ (sessions s) 90 120)) = [1]
  /\ option_map DwellSession.exit_time (OD.get 1 (active_sessions s))
     = Some (Some 120000000)
  /\ List.map visit_of (sessions s) = [(1, 0, None, 1)].
Proof. vm_compute. repeat split; reflexivity. Qed.

(** ** The active map and the open rows *)

Lemma get_set {V} k k' (v : V) d :
  OD.get k (OD.set k' v d) = if Z.eqb k k' then Some v else OD.get k d.
Proof.
  induction d as [|[k1 v1] d IH]; simpl; [reflexivity|].
  destruct (Z.eqb_spec k' k1) as [->|Hne1]; simpl.
  - destruct (Z.eqb k k1); reflexivity.
  - destruct (Z.eqb_spec k k1) as [->|Hne2]; [|exact IH].
    destruct (Z.eqb_spec k1 k'); [congruence|reflexivity].
Qed.

Lemma get_loaded track_id rows :
  OD.get track_id (loaded rows)
  = option_map session_of_row (latest_open track_id rows).
Proof.
  unfold latest_open.
  induction rows as [|r rows IH] using rev_ind; [reflexivity|].
  rewrite loaded_snoc, rev_app_distr. simpl. unfold open_for at 1.
  destruct (Z.eqb_spec (Row.is_active r) 1) as [Hact|Hact].
  - rewrite get_set, andb_true_r, (Z.eqb_sym (Row.track_id r)).
    destruct (Z.eqb track_id (Row.track_id r)); [reflexivity|exact IH].
  - rewrite andb_false_r. exact IH.
Qed.

Lemma mem_loaded track_id rows :
  OD.mem track_id (loaded rows) = existsb (open_for track_id) rows.
Proof.
  induction rows as [|r rows IH] using rev_ind; [reflexivity|].
  rewrite loaded_snoc, existsb_app. simpl. rewrite orb_false_r.
  unfold open_for at 2.
  destruct (Z.eqb_spec (Row.is_active r) 1) as [Hact|Hact].
  - rewrite mem_set, IH, andb_true_r, (Z.eqb_sym (Row.track_id r)).
    apply orb_comm.
  - rewrite andb_false_r, orb_false_r. exact IH.
Qed.

Lemma mem_del {V} k k' (d : odict V) :
  OD.mem k (OD.del k' d) = negb (Z.eqb k k') && OD.mem k d.
Proof.
  unfold OD.mem, OD.del. induction d as [|[k1 v1] d IH]; simpl.
  - apply eq_sym, andb_false_r.
  - destruct (Z.eqb_spec k' k1) as [->|Hne1]; simpl.
    + destruct (Z.eqb_spec k k1) as [->|Hne]; simpl; exact IH.
    + destruct (Z.eqb_spec k k1) as [->|Hne]; simpl; [|exact IH].
      destruct (Z.eqb_spec k1 k'); [congruence|reflexivity].
Qed.

Lemma mem_alter {V} (f : V -> V) k k' (d : odict V) :
  OD.mem k (OD.alter f k' d) = OD.mem k d.
Proof.
  unfold OD.mem. induction d as [|[k1 v1] d IH]; simpl; [reflexivity|].
  destruct (Z.eqb_spec k' k1) as [->|Hne1]; simpl.
  - destruct (Z.eqb k k1); reflexivity.
  - destruct (Z.eqb k k1); [reflexivity|exact IH].
Qed.

Lemma open_closed track_id timestamp session k rows :
  existsb (open_for track_id)
    (List.map (close_row timestamp session k) rows)
  = negb (Z.eqb track_id k) && existsb (open_for track_id) rows.
Proof. rewrite <- !mem_loaded, loaded_closed. apply mem_del. Qed.

Lemma open_cleanup track_id cutoff rows :
  existsb (open_for track_id)
    (List.filter (fun r => negb (old_and_closed cutoff r)) rows)
  = existsb (open_for track_id) rows.
Proof. rewrite <- !mem_loaded, loaded_cleanup. reflexivity. Qed.

(** ** After a write has failed *)

Lemma covered_init rows warning alert : covered (__init__ rows warning alert).
Proof.
  intros k. rewrite init_sessions, init_active, mem_loaded. tauto.
Qed.

Lemma covered_entry now track_id timestamp s :
  covered s -> covered (record_entry now track_id timestamp s).
Proof.
  intros Hs k. unfold record_entry. simpl.
  rewrite existsb_app, mem_set. simpl. rewrite orb_false_r.
  intros H. apply orb_prop in H as [H|H].
  - rewrite (Hs k H). apply orb_true_r.
  - unfold open_for in H. simpl in H. rewrite andb_true_r in H.
    rewrite (Z.eqb_sym k), H. reflexivity.
Qed.

Lemma covered_entry_raises now track_id timestamp s :
  covered s -> covered (record_entry_raises now track_id timestamp s).
Proof.
  intros Hs k. unfold record_entry_raises. simpl. rewrite mem_set.
  intros H. rewrite (Hs k H). apply orb_true_r.
Qed.

Lemma covered_exit now track_id timestamp s :
  covered s -> covered (record_exit now track_id timestamp s).
Proof.
  intros Hs k. unfold record_exit.
  destruct (OD.get track_id (active_sessions s)); simpl; [|apply Hs].
  rewrite open_closed, mem_del. intros H.
  apply andb_prop in H as [Hk H]. rewrite Hk, (Hs k H). reflexivity.
Qed.

Lemma covered_exit_raises now track_id timestamp s :
  covered s -> covered (record_exit_raises now track_id timestamp s).
Proof.
  intros Hs k. unfold record_exit_raises.
  destruct (OD.get track_id (active_sessions s)); simpl; [|apply Hs].
  rewrite mem_alter. apply Hs.
Qed.

Lemma covered_exit_all clock ids : forall n s,
  covered s -> covered (exit_all clock n ids s).
Proof.
  induction ids as [|k ids IH]; intros n s Hs; simpl; [exact Hs|].
  apply IH, covered_exit, Hs.
Qed.

Lemma covered_cleanup now days_to_keep s :
  covered s -> covered (step s (Cleanup now days_to_keep)).
Proof.
  intros Hs. unfold step, cleanup_old_data.
  destruct (minus now (days days_to_keep)); [|exact Hs].
  intros k. simpl. rewrite open_cleanup. apply Hs.
Qed.

Lemma covered_run ops : forall s, covered s -> covered (run ops s).
Proof.
  induction ops as [|op ops IH]; intros s Hs; [exact Hs|].
  simpl. apply IH. destruct op.
  - apply covered_entry, Hs.
  - apply covered_exit, Hs.
  - apply covered_cleanup, Hs.
  - apply covered_exit_all, Hs.
  - apply covered_entry_raises, Hs.
  - apply covered_exit_raises, Hs.
Qed.

(** X12.  In every state a tracker reaches, also after database statements
    that raised, every identity with an open row in the ledger has a session
    in memory.  As long as no statement has raised the converse holds too: an
    identity has a session in memory exactly when the ledger holds an open
    row for it, and the session in memory is the one of the most recent such
    row. *)
Theorem active_session_is_latest_open_row :
  forall (rows : list Row.t) (warning alert : Z) (ops : list call)
         (track_id : Z),
    let s := run ops (__init__ rows warning alert) in
    (existsb (open_for track_id) (sessions s) = true ->
     OD.mem track_id (active_sessions s) = true)
    /\ (forallb committed ops = true ->
        OD.get track_id (active_sessions s)
        = option_map session_of_row (latest_open track_id (sessions s))
        /\ OD.mem track_id (active_sessions s)
           = existsb (open_for track_id) (sessions s)).
Proof.
  intros rows warning alert ops track_id s. split.
  - apply (covered_run ops _ (covered_init rows warning alert)).
  - intros Hops.
    pose proof (in_step_run ops _ Hops (in_step_init rows warning alert))
      as Hs.
    fold s in Hs. red in Hs.
    assert (Hget := get_loaded track_id (sessions s)). rewrite <- Hs in Hget.
    split; [exact Hget|].
    rewrite Hs. apply mem_loaded.
Qed.

Lemma active_session_is_latest_open_row_witness :
  OD.mem 2 (active_sessions (run evening fresh_tracker))
  = existsb (open_for 2) (sessions (run evening fresh_tracker)).
Proof.
  apply (active_session_is_latest_open_row [] default_warning_threshold
           default_alert_threshold evening 2).
  reflexivity.
Defined.

(** ** Rows stay where they are *)

Lemma kept_as_refl r : kept_as r r.
Proof. repeat split. Qed.

Lemma kept_as_trans r1 r2 r3 : kept_as r1 r2 -> kept_as r2 r3 -> kept_as r1 r3.
Proof.
  intros (Hid & Het & Hfin) (Hid' & Het' & Hfin').
  split; [congruence|]. split; [congruence|].
  intros Hact. rewrite <- (Hfin Hact). apply Hfin'.
  rewrite (Hfin Hact). exact Hact.
Qed.

Lemma kept_as_close timestamp session track_id r :
  kept_as r (close_row timestamp session track_id r).
Proof.
  unfold close_row.
  destruct (Z.eqb_spec (Row.is_active r) 1) as [Hact|Hact].
  - destruct (Row.track_id r =? track_id); simpl; repeat split;
      intros; contradiction.
  - rewrite andb_false_r. apply kept_as_refl.
Qed.


Lemma rows_kept_refl s : rows_kept s s.
Proof. intros i r Hr. exists r. split; [exact Hr|apply kept_as_refl]. Qed.

Lemma rows_kept_trans s1 s2 s3 :
  rows_kept s1 s2 -> rows_kept s2 s3 -> rows_kept s1 s3.
Proof.
  intros H12 H23 i r Hr.
  destruct (H12 i r Hr) as (r2 & Hr2 & Hk2).
  destruct (H23 i r2 Hr2) as (r3 & Hr3 & Hk3).
  exists r3. split; [exact Hr3|]. exact (kept_as_trans _ _ _ Hk2 Hk3).
Qed.

Lemma rows_kept_entry now track_id timestamp s :
  rows_kept s (record_entry now track_id timestamp s).
Proof.
  intros i r Hr. exists r. split; [|apply kept_as_refl].
  unfold record_entry. simpl. rewrite nth_error_app1; [exact Hr|].
  apply nth_error_Some. congruence.
Qed.

Lemma rows_kept_exit now track_id timestamp s :
  rows_kept s (record_exit now track_id timestamp s).
Proof.
  unfold record_exit.
  destruct (OD.get track_id (active_sessions s));
    [|exact (rows_kept_refl s)].
  intros i r Hr. simpl. rewrite nth_error_map, Hr. simpl.
  eexists. split; [reflexivity|apply kept_as_close].
Qed.

Lemma rows_kept_exit_all clock ids : forall n s,
  rows_kept s (exit_all clock n ids s).
Proof.
  induction ids as [|k ids IH]; intros n s; simpl; [apply rows_kept_refl|].
  eapply rows_kept_trans; [apply rows_kept_exit|apply IH].
Qed.

(** X13.  As long as [cleanup_old_data] is not called, the ledger only
    grows at its end: a row stays at its place with its identity and its
    entry time, and a row that is closed is never written again. *)
Theorem rows_stay_and_closed_rows_are_final :
  forall (ops : list call) (s : t) (i : nat) (r : Row.t),
    forallb keeps_rows ops = true ->
    nth_error (sessions s) i = Some r ->
    exists r', nth_error (sessions (run ops s)) i = Some r' /\ kept_as r r'.
Proof.
  intros ops s i r Hops. revert i r. change (rows_kept s (run ops s)).
  revert s. induction ops as [|op ops IH]; intros s; [apply rows_kept_refl|].
  simpl in Hops. apply andb_prop in Hops as [Hop Hops]. simpl.
  eapply rows_kept_trans; [|apply IH, Hops].
  destruct op; simpl; try discriminate.
  - apply rows_kept_entry.
  - apply rows_kept_exit.
  - apply rows_kept_exit_all.
  - exact (rows_kept_refl s).
  - unfold record_exit_raises.
    destruct (OD.get track_id (active_sessions s)); exact (rows_kept_refl s).
Qed.

Lemma rows_stay_and_closed_rows_are_final_witness :
  exists r', nth_error (sessions (run evening fresh_tracker)) 0 = Some r'
             /\ kept_as (open_row 1 0) r'.
Proof.
  apply (rows_stay_and_closed_rows_are_final
           [Record_entry 0 2 (Some 60000000);
            Record_exit 0 1 (Some 120000000)]
           (record_entry 0 1 (Some 0) fresh_tracker) 0%nat (open_row 1 0));
    reflexivity.
Defined.

(** ** The dwell written at an exit *)

Lemma minutes_of_neg (delta : timedelta) :
  (minutes_of delta < 0)%Q <-> delta < 0.
Proof.
  unfold minutes_of, total_seconds, Qdiv, Qmult, Qlt, inject_Z, Qinv. simpl.
  split; intros H; nia.
Qed.

(** X14.  [record_exit] measures the dwell from the entry time of the
    session in memory and does not compare the two instants: every open row
    of the identity is closed with the exit timestamp and that dwell, the
    same value is logged, and it is negative exactly when the exit timestamp
    lies before the entry. *)
Theorem exit_dwell_is_not_checked :
  forall (s : t) (now : datetime) (track_id : Z) (timestamp : option datetime)
         (x : DwellSession.t),
    OD.get track_id (active_sessions s) = Some x ->
    let t2 := or_now now timestamp in
    let dwell := minutes_of (t2 - DwellSession.entry_time x) in
    let s' := record_exit now track_id timestamp s in
    sessions s'
    = List.map (fun r => if open_for track_id r
                         then closed_at t2 (DwellSession.entry_time x) r
                         else r) (sessions s)
    /\ log s' = log s ++ [(INFO, Exit_recorded track_id (Some dwell))]
    /\ ((dwell < 0)%Q <-> t2 < DwellSession.entry_time x).
Proof.
  intros s now track_id timestamp x Hget t2 dwell s'.
  subst s'. unfold record_exit. rewrite Hget. fold t2. simpl.
  split; [|split; [reflexivity|]].
  - apply map_ext. intros r. unfold close_row, open_for.
    destruct (_ && _); reflexivity.
  - unfold dwell. rewrite minutes_of_neg. lia.
Qed.

Lemma exit_dwell_is_not_checked_witness :
  log (record_exit 0 1 (Some 0)
         (record_entry 0 1 (Some 60000000) fresh_tracker))
  = log (record_entry 0 1 (Some 60000000) fresh_tracker)
    ++ [(INFO, Exit_recorded 1 (Some (minutes_of (0 - 60000000))))]
  /\ (minutes_of (0 - 60000000)%Z < 0)%Q.
Proof.
  destruct (exit_dwell_is_not_checked
              (record_entry 0 1 (Some 60000000) fresh_tracker) 0 1 (Some 0)
              (DwellSession.new 1 60000000) eq_refl) as (_ & Hlog & Hneg).
  split; [exact Hlog|]. apply Hneg. reflexivity.
Defined.

(** ** Leaving the context manager *)

Lemma exit_all_active clock ids : forall n s,
  active_sessions (exit_all clock n ids s)
  = List.filter (fun kv => negb (existsb (Z.eqb (fst kv)) ids))
      (active_sessions s).
Proof.
  induction ids as [|k ids IH]; intros n s; simpl.
  - symmetry. apply forallb_filter_id, forallb_forall. reflexivity.
  - rewrite IH, record_exit_active. unfold OD.del.
    induction (active_sessions s) as [|[k' v] d IHd]; [reflexivity|].
    simpl. rewrite (Z.eqb_sym k' k).
    destruct (Z.eqb k k'); simpl; [exact IHd|].
    destruct (existsb (Z.eqb k') ids); simpl; [exact IHd|].
    f_equal. exact IHd.
Qed.

(** X15.  Leaving the context manager ([__exit__]) in any state a tracker
    reaches, also after database statements that raised, closes every
    session when it returns: no session stays in memory and the ledger
    holds no open row. *)
Theorem leaving_closes_every_session :
  forall (rows : list Row.t) (warning alert : Z) (ops : list call)
         (clock : nat -> datetime),
    let s := __exit__ clock (run ops (__init__ rows warning alert)) in
    active_sessions s = []
    /\ forall r, In r (sessions s) -> Row.is_active r <> 1.
Proof.
  intros rows warning alert ops clock s.
  assert (Hact : active_sessions s = []).
  { subst s. unfold __exit__. rewrite exit_all_active.
    set (d := active_sessions _). clearbody d.
    assert (Hall : forall kv, In kv d -> In (fst kv) (OD.keys d))
      by (intros kv Hkv; apply in_map, Hkv).
    revert Hall. generalize (OD.keys d) as ks. intros ks Hall.
    induction d as [|kv d IH]; [reflexivity|]. simpl.
    replace (existsb (Z.eqb (fst kv)) ks) with true.
    - simpl. apply IH. intros kv' Hkv'. apply Hall. right. exact Hkv'.
    - symmetry. apply existsb_exists. exists (fst kv).
      split; [apply Hall; left; reflexivity|apply Z.eqb_refl]. }
  split; [exact Hact|].
  intros r Hr Hopen.
  assert (Hs : covered s).
  { subst s. apply covered_exit_all, covered_run, covered_init. }
  assert (Hex : existsb (open_for (Row.track_id r)) (sessions s) = true).
  { apply existsb_exists. exists r. split; [exact Hr|].
    unfold open_for. rewrite Z.eqb_refl, Hopen. reflexivity. }
  apply Hs in Hex. rewrite Hact in Hex. discriminate.
Qed.

(** ** Deleting old rows *)

(** X16.  [cleanup_old_data] raises [OverflowError] and deletes nothing when
    the cutoff ([days_to_keep] days before now) is no datetime.  Otherwise it
    deletes the rows that are closed and whose exit lies before the cutoff
    and no other: an open row, a row without exit time and a row that ended
    at or after the cutoff all stay, in their order.  The number it reports
    is the number of rows deleted, and the sessions in memory are not
    touched. *)
Theorem cleanup_deletes_only_old_closed_rows :
  forall (s : t) (now : datetime) (days_to_keep : Z),
    let cutoff := now - days days_to_keep in
    match cleanup_old_data now days_to_keep s with
    | None =>
        ~ (- 999999999 <= days_to_keep <= 999999999
           /\ 0 <= cutoff <= datetime_max)
    | Some (s', deleted) =>
        (- 999999999 <= days_to_keep <= 999999999
         /\ 0 <= cutoff <= datetime_max)
        /\ active_sessions s' = active_sessions s
        /\ (forall r, In r (sessions s') <->
              In r (sessions s)
              /\ ~ (Row.is_active r = 0
                    /\ exists e, Row.exit_time r = Some e /\ e < cutoff))
        /\ (length (sessions s') + deleted)%nat = length (sessions s)
        /\ select_active (sessions s') = select_active (sessions s)
    end.
Proof.
  intros s now days_to_keep cutoff.
  unfold cleanup_old_data, minus, timedelta_ok. fold cutoff.
  destruct (_ && _ && _) eqn:Hok.
  2:{ intros [Hd Hc]. apply not_true_iff_false in Hok. apply Hok.
      rewrite !andb_true_iff, !Z.leb_le, Z.ltb_lt. unfold days. lia. }
  rewrite !andb_true_iff, !Z.leb_le, Z.ltb_lt in Hok. unfold days in Hok.
  split; [lia|]. simpl.
  split; [reflexivity|]. split; [|split].
  - intros r. rewrite filter_In. apply and_iff_compat_l.
    unfold old_and_closed. rewrite negb_true_iff, andb_false_iff.
    rewrite Z.eqb_neq. split.
    + intros [Hold|Hact] (Hz & e & He & Hlt); [|contradiction].
      rewrite He in Hold. apply Z.ltb_ge in Hold. lia.
    + intros Hno. destruct (Z.eq_dec (Row.is_active r) 0) as [Hz|Hz];
        [|right; exact Hz].
      left. destruct (Row.exit_time r) as [e|]; [|reflexivity].
      apply Z.ltb_ge. destruct (Z.lt_ge_cases e cutoff) as [Hlt|Hge];
        [|lia].
      exfalso. apply Hno. split; [exact Hz|]. exists e. split;
        [reflexivity|exact Hlt].
  - induction (sessions s) as [|r l IH]; [reflexivity|]. simpl.
    destruct (old_and_closed cutoff r); simpl; lia.
  - unfold select_active.
    induction (sessions s) as [|r l IH]; [reflexivity|]. simpl.
    unfold old_and_closed at 1.
    destruct (Z.eqb_spec (Row.is_active r) 1) as [Hact|Hact].
    + replace (Row.is_active r =? 0) with false
        by (symmetry; apply Z.eqb_neq; lia).
      rewrite andb_false_r. simpl.
      destruct (Z.eqb_spec (Row.is_active r) 1); [|contradiction].
      f_equal. exact IH.
    + destruct (negb _); simpl; [|exact IH].
      destruct (Z.eqb_spec (Row.is_active r) 1); [contradiction|exact IH].
Qed.
End SessionFacts.

(* ===================================================================== *)
(** * More on the alert lists: nobody is left out *)
(* ===================================================================== *)

Module RosterFacts.
Import DwellTimeTracker.
Import AlertSpec.

Lemma select_filter now clock keep l :
  (forall k, clock k = now) ->
  forall n,
    fst (select clock n keep l)
    = List.filter (fun x => keep (current_dwell now x)) l.
Proof.
  intros Hfrozen. induction l as [|y l IH]; intros n; simpl; [reflexivity|].
  pose proof (AlertFacts.dwell_frozen now clock Hfrozen n y) as Hy.
  destruct (DwellSession.get_current_dwell_minutes clock n y) as [d n1].
  simpl in Hy. subst d. specialize (IH n1).
  destruct (select clock n1 keep l) as [kept n2]. simpl in *. rewrite IH.
  reflexivity.
Qed.

Lemma insert_desc_perm x l : Permutation (insert_desc x l) (x :: l).
Proof.
  induction l as [|y l IH]; simpl; [reflexivity|].
  destruct (Qle_bool (fst y) (fst x)); [reflexivity|].
  rewrite IH. apply perm_swap.
Qed.

Lemma sort_desc_perm l : Permutation (sort_desc l) l.
Proof.
  induction l as [|x l IH]; simpl; [reflexivity|].
  rewrite insert_desc_perm, IH. reflexivity.
Qed.

Lemma sort_by_dwell_perm now clock n l :
  (forall k, clock k = now) -> Permutation (sort_by_dwell clock n l) l.
Proof.
  intros Hfrozen. unfold sort_by_dwell.
  rewrite (AlertFacts.keyed_spec now clock Hfrozen), sort_desc_perm.
  rewrite List.map_map. simpl. rewrite List.map_id. reflexivity.
Qed.

(** X17.  Let the clock stand at [now] while the lists are made.  Then
    [get_campers], with the threshold of the tracker or the one passed, is a
    rearrangement of the active sessions whose dwell at [now] is at least
    the threshold, and [get_warnings] one of those whose dwell lies in
    [[warning_threshold, alert_threshold)]: no qualifying session is left
    out and none is listed twice. *)
Theorem alert_lists_are_complete :
  forall (s : t) (now : datetime) (clock : nat -> datetime)
         (threshold_minutes : option Z),
    (forall k, clock k = now) ->
    let threshold :=
      match threshold_minutes with
      | Some m => m
      | None => alert_threshold s
      end in
    Permutation (get_campers clock threshold_minutes s)
      (List.filter
         (fun x => Qle_bool (inject_Z threshold) (current_dwell now x))
         (get_active_sessions s))
    /\ Permutation (get_warnings clock s)
         (List.filter
            (fun x =>
               Qle_bool (inject_Z (warning_threshold s)) (current_dwell now x)
               && Qgtb (inject_Z (alert_threshold s)) (current_dwell now x))
            (get_active_sessions s)).
Proof.
  intros s now clock threshold_minutes Hfrozen threshold.
  unfold get_campers, get_warnings, get_active_sessions. fold threshold.
  split.
  - pose proof (select_filter now clock
                  (fun d => Qle_bool (inject_Z threshold) d)
                  (OD.values (active_sessions s)) Hfrozen 0) as Hsel.
    destruct (select clock 0 _ _) as [cs n]. simpl in Hsel. subst cs.
    apply (sort_by_dwell_perm now), Hfrozen.
  - pose proof (select_filter now clock
                  (fun d => Qle_bool (inject_Z (warning_threshold s)) d
                            && Qgtb (inject_Z (alert_threshold s)) d)
                  (OD.values (active_sessions s)) Hfrozen 0) as Hsel.
    destruct (select clock 0 _ _) as [ws n]. simpl in Hsel. subst ws.
    apply (sort_by_dwell_perm now), Hfrozen.
Qed.

Lemma alert_lists_are_complete_witness :
  Permutation (get_campers (fun _ => minutes 200) (Some 100) busy_evening)
    (List.filter
       (fun x => Qle_bool (inject_Z 100) (current_dwell (minutes 200) x))
       (get_active_sessions busy_evening)).
Proof.
  apply (alert_lists_are_complete busy_evening (minutes 200)
           (fun _ => minutes 200) (Some 100)).
  reflexivity.
Defined.
End RosterFacts.

(* ===================================================================== *)
(** * The counter with a dwell tracker *)
(* ===================================================================== *)

Module PipelineFacts.
Import DictFacts.
Import TrackingSpec.
Import TrackerSpec.
Import PipelineSpec.

Lemma unknown_exits_snoc l x :
  unknown_exits (l ++ [x])
  = unknown_exits l + (if is_unknown_exit x then 1 else 0).
Proof.
  unfold unknown_exits. rewrite List.filter_app, length_app, Nat2Z.inj_add.
  simpl. destruct (is_unknown_exit x); reflexivity.
Qed.

Lemma count_of_cons d x l :
  count_of d (x :: l) = count_of d [x] + count_of d l.
Proof. exact (SideFacts.count_of_app d [x] l). Qed.

(** The notifications of one frame, made for identities that have no
    session: the entries open a row each, the exits are ignored. *)
Lemma notify_spec wall l : forall n d,
  List.NoDup (ids l) ->
  List.NoDup (OD.keys (DwellTimeTracker.active_sessions d)) ->
  (forall k, In k (ids l) ->
     ~ In k (OD.keys (DwellTimeTracker.active_sessions d))) ->
  let d' := Pipeline.notify wall n l d in
  exists new,
    DwellTimeTracker.sessions d' = DwellTimeTracker.sessions d ++ new
    /\ Forall still_open new
    /\ Z.of_nat (length new) = count_of entry l
    /\ List.NoDup (OD.keys (DwellTimeTracker.active_sessions d'))
    /\ (forall k, In k (OD.keys (DwellTimeTracker.active_sessions d')) ->
          In k (OD.keys (DwellTimeTracker.active_sessions d)) \/ In k (ids l))
    /\ Z.of_nat (length (DwellTimeTracker.active_sessions d'))
       = Z.of_nat (length (DwellTimeTracker.active_sessions d))
         + count_of entry l
    /\ unknown_exits (DwellTimeTracker.log d')
       = unknown_exits (DwellTimeTracker.log d)
         + count_of exit l.
Proof.
  induction l as [|[k dir] l IH]; intros n d Hl Hd Hfresh; simpl.
  - exists []. rewrite app_nil_r. unfold count_of. simpl.
    repeat split; auto; try constructor; lia.
  - unfold ids in Hl. simpl in Hl. apply NoDup_cons_iff in Hl as [Hk Hl].
    assert (Hkd : ~ In k (OD.keys (DwellTimeTracker.active_sessions d)))
      by (apply Hfresh; left; reflexivity).
    rewrite (count_of_cons entry),
            (count_of_cons exit).
    destruct dir.
    + set (d1 := DwellTimeTracker.record_entry (wall n) k (Some (wall n)) d).
      assert (Hact : DwellTimeTracker.active_sessions d1
                     = DwellTimeTracker.active_sessions d
                       ++ [(k, DwellSession.new k (wall n))]).
      { unfold d1, DwellTimeTracker.record_entry. simpl.
        apply set_fresh, Hkd. }
      destruct (IH (S n) d1 Hl) as (new & Hrows & Hopen & Hlen & Hnd & Hsub
                                    & Hcount & Hlog).
      { rewrite Hact. unfold OD.keys. rewrite map_app. simpl.
        apply List.NoDup_app; [exact Hd|repeat constructor; simpl; tauto|].
        intros a Ha [<-|[]]. exact (Hkd Ha). }
      { intros k' Hk'. rewrite Hact. unfold OD.keys. rewrite map_app.
        simpl. intros Hin. apply in_app_or in Hin as [Hin|[<-|[]]].
        - apply (Hfresh k'); [right; exact Hk'|exact Hin].
        - exact (Hk Hk'). }
      eexists (_ :: new). split.
      { rewrite Hrows. unfold d1, DwellTimeTracker.record_entry. simpl.
        rewrite <- app_assoc. reflexivity. }
      split; [constructor; [repeat split|exact Hopen]|].
      split; [cbn [length]; rewrite Nat2Z.inj_succ, Hlen;
              unfold count_of; simpl; lia|].
      split; [exact Hnd|]. split.
      { intros k' Hk'. destruct (Hsub k' Hk') as [Hin|Hin].
        - rewrite Hact in Hin. unfold OD.keys in Hin. rewrite map_app in Hin.
          apply in_app_or in Hin as [Hin|[<-|[]]]; [left; exact Hin|].
          right. left. reflexivity.
        - right. right. exact Hin. }
      split.
      { rewrite Hcount, Hact, length_app, Nat2Z.inj_add.
        unfold count_of. simpl. lia. }
      rewrite Hlog. unfold d1, DwellTimeTracker.record_entry. simpl.
      rewrite unknown_exits_snoc. unfold count_of. simpl. lia.
    + set (d1 := DwellTimeTracker.record_exit (wall n) k (Some (wall n)) d).
      assert (Hd1 : d1 = DwellTimeTracker.logged d WARNING
                           (Exit_for_unknown_track_id k)).
      { unfold d1, DwellTimeTracker.record_exit.
        apply SideFacts.get_none_keys in Hkd. rewrite Hkd. reflexivity. }
      clearbody d1. subst d1.
      destruct (IH (S n)
                  (DwellTimeTracker.logged d WARNING
                     (Exit_for_unknown_track_id k)) Hl)
        as (new & Hrows & Hopen & Hlen & Hnd & Hsub & Hcount & Hlog).
      { exact Hd. }
      { intros k' Hk'. apply Hfresh. right. exact Hk'. }
      exists new. simpl in *.
      split; [exact Hrows|]. split; [exact Hopen|].
      split; [rewrite Hlen; unfold count_of; simpl; lia|].
      split; [exact Hnd|]. split.
      { intros k' Hk'. destruct (Hsub k' Hk'); auto. }
      split; [rewrite Hcount; unfold count_of; simpl; lia|].
      rewrite Hlog, unknown_exits_snoc. unfold count_of. simpl. lia.
Qed.

Lemma nodup_app_inv (l l' : list Z) :
  List.NoDup (l ++ l') ->
  List.NoDup l' /\ forall k, In k l -> ~ In k l'.
Proof.
  induction l as [|a l IH]; simpl; intros H; [split; [exact H|tauto]|].
  apply NoDup_cons_iff in H as [Ha H]. destruct (IH H) as [Hl' Hdisj].
  split; [exact Hl'|]. intros k [<-|Hk].
  - intros Hin. apply Ha, in_or_app. right. exact Hin.
  - exact (Hdisj k Hk).
Qed.


Lemma paired_update d0 E f cd :
  paired d0 E cd ->
  exists E', paired d0 E' (snd (Pipeline.update f cd)).
Proof.
  intros [Hinv HE Hkeys Hsub (rows & Hrows & Hopen & Hlen) Hact Hlog].
  destruct f as [[clock wall] detections]. destruct cd as [c d].
  unfold Pipeline.update. cbn [fst snd] in *.
  pose proof (TrackingFacts.update_inv E clock detections c Hinv HE)
    as [HE' Hinv'].
  assert (Hmoved : exists new,
    EntryExitCounter.crossings
      (fst (EntryExitCounter.update clock detections c)) = new
    /\ EntryExitCounter.total_entries
         (snd (EntryExitCounter.update clock detections c))
       = EntryExitCounter.total_entries c
         + count_of entry new
    /\ EntryExitCounter.total_exits
         (snd (EntryExitCounter.update clock detections c))
       = EntryExitCounter.total_exits c
         + count_of exit new).
  { unfold EntryExitCounter.update.
    destruct (SideFacts.scan_moved
                (CentroidTracker.tracks
                   (CentroidTracker.update clock detections
                      (EntryExitCounter.tracker c)))
                c {| EntryExitCounter.new_entries := 0;
                     EntryExitCounter.new_exits := 0;
                     EntryExitCounter.crossings := [] |})
      as [new H].
    destruct (EntryExitCounter.scan _ _ _) as [[c1 r] tracks1].
    unfold moved_by in H. cbn [fst snd] in H.
    destruct H as (Hcr & _ & _ & Hte & Htx & _).
    cbn [EntryExitCounter.crossings app] in Hcr.
    exists new. cbn [fst snd EntryExitCounter.total_entries
                     EntryExitCounter.total_exits
                     EntryExitCounter.with_tracker
                     EntryExitCounter.with_track_states].
    auto. }
  destruct (EntryExitCounter.update clock detections c) as [r c'].
  cbn [fst snd] in *.
  destruct Hmoved as (new & Hcr & Hte & Htx). rewrite Hcr in *.
  destruct (nodup_app_inv _ _ HE') as [Hnew Hdisj].
  destruct (notify_spec wall new 0 d Hnew Hkeys)
    as (rows' & Hrows' & Hopen' & Hlen' & Hkeys' & Hsub' & Hact' & Hlog').
  { intros k Hk Hin. exact (Hdisj k (Hsub k Hin) Hk). }
  exists (E ++ ids new). split; cbn [fst snd].
  - exact Hinv'.
  - exact HE'.
  - exact Hkeys'.
  - intros k Hk. apply in_or_app. destruct (Hsub' k Hk); auto.
  - exists (rows ++ rows'). rewrite Hrows', Hrows, app_assoc.
    split; [reflexivity|]. split; [apply Forall_app; auto|].
    rewrite length_app, Nat2Z.inj_add. lia.
  - lia.
  - lia.
Qed.

Lemma paired_calls d0 ops : forall E cd,
  forallb Pipeline.is_update ops = true ->
  paired d0 E cd -> exists E', paired d0 E' (Pipeline.calls ops cd).
Proof.
  induction ops as [|op ops IH]; intros E cd Hops H; [exists E; exact H|].
  simpl in Hops. apply andb_prop in Hops as [Hop Hops].
  destruct op as [f|]; [|discriminate].
  destruct (paired_update d0 E f cd H) as [E1 H1].
  exact (IH E1 _ Hops H1).
Qed.

(** X18.  As long as [reset()] is not called and the calls return, a counter
    built with a dwell tracker that holds no session never closes a session,
    however many frames it processes: an identity produces at most one
    crossing, so an exit is always reported for an identity that has not
    entered, and the dwell tracker ignores it.  Every entry counted has
    opened a row and a session in memory, all the rows added are still open,
    without exit time and without dwell, and every exit counted has left one
    warning in the log. *)
Theorem counter_never_closes_a_session :
  forall (line_y h : Z) (dir : string) (ops : list Pipeline.call)
         (d0 : DwellTimeTracker.t),
    DwellTimeTracker.active_sessions d0 = [] ->
    forallb Pipeline.is_update ops = true ->
    let cd := Pipeline.calls ops (EntryExitCounter.__init__ line_y h dir, d0) in
    (exists new,
       DwellTimeTracker.sessions (snd cd) = DwellTimeTracker.sessions d0 ++ new
       /\ Forall still_open new
       /\ Z.of_nat (length new) = EntryExitCounter.total_entries (fst cd))
    /\ Z.of_nat (length (DwellTimeTracker.active_sessions (snd cd)))
       = EntryExitCounter.total_entries (fst cd)
    /\ unknown_exits (DwellTimeTracker.log (snd cd))
       = unknown_exits (DwellTimeTracker.log d0)
         + EntryExitCounter.total_exits (fst cd).
Proof.
  intros line_y h dir ops d0 Hd0 Hops cd.
  destruct (paired_calls d0 ops []
              (EntryExitCounter.__init__ line_y h dir, d0) Hops) as [E' H].
  - split; cbn [fst snd].
    + apply TrackingFacts.inv_init. reflexivity.
    + constructor.
    + rewrite Hd0. constructor.
    + rewrite Hd0. simpl. tauto.
    + exists []. rewrite app_nil_r. repeat split. constructor.
    + rewrite Hd0. reflexivity.
    + simpl. lia.
  - destruct H as [_ _ _ _ Hrows Hact Hlog]. auto.
Qed.

Lemma counter_never_closes_a_session_witness :
  unknown_exits
    (DwellTimeTracker.log
       (snd (Pipeline.calls (List.map Pipeline.Update in_and_out)
               (EntryExitCounter.__init__ 300 480 "down",
                LedgerSpec.fresh_tracker))))
  = unknown_exits (DwellTimeTracker.log LedgerSpec.fresh_tracker)
    + EntryExitCounter.total_exits
        (fst (Pipeline.calls (List.map Pipeline.Update in_and_out)
                (EntryExitCounter.__init__ 300 480 "down",
                 LedgerSpec.fresh_tracker))).
Proof.
  apply (counter_never_closes_a_session 300 480 "down"
           (List.map Pipeline.Update in_and_out) LedgerSpec.fresh_tracker).
  - reflexivity.
  - reflexivity.
Defined.

(** The guest of [in_and_out] is counted in and is not counted out: the
    track that entered has crossed already. *)
Example guest_in_and_out :
  let cd := Pipeline.run in_and_out
              (EntryExitCounter.__init__ 300 480 "down",
               LedgerSpec.fresh_tracker) in
  EntryExitCounter.total_entries (fst cd) = 1
  /\ EntryExitCounter.total_exits (fst cd) = 0
  /\ List.map LedgerSpec.visit_of (DwellTimeTracker.sessions (snd cd))
     = [(0, 0, None, 1)].
Proof. vm_compute. repeat split; reflexivity. Qed.

(** After [reset()] the identifiers start at 0 again while the dwell tracker
    keeps its sessions: the exit of the new track 0 closes the session of
    the guest who came in as track 0 before the reset. *)
Example reset_lets_an_exit_close_another_session :
  let cd := Pipeline.calls someone_else_walks_out
              (EntryExitCounter.__init__ 300 480 "down",
               LedgerSpec.fresh_tracker) in
  EntryExitCounter.total_entries (fst cd) = 0
  /\ EntryExitCounter.total_exits (fst cd) = 1
  /\ List.map LedgerSpec.visit_of (DwellTimeTracker.sessions (snd cd))
     = [(0, 0, Some 60000000, 0)]
  /\ DwellTimeTracker.active_sessions (snd cd) = [].
Proof. vm_compute. repeat split; reflexivity. Qed.
End PipelineFacts.

(* ===================================================================== *)
(** * More on the occupancy tracker *)
(* ===================================================================== *)

Module OccupancyFacts.
Import OccupancyTracker.
Import OccupancySpec.

Lemma same_but_events_refl o : same_but_events o o.
Proof. repeat split. Qed.

Lemma events_at_succ wall ty occ n count :
  events_at wall ty occ n (S count)
  = event_at wall ty occ n :: events_at wall ty occ (S n) count.
Proof. reflexivity. Qed.

Lemma record_events_full wall ty count : forall n o,
  events (fst (record_events wall n count ty o))
  = events o ++ events_at wall ty (current_occupancy o) n count
  /\ snd (record_events wall n count ty o) = (n + count)%nat
  /\ same_but_events o (fst (record_events wall n count ty o)).
Proof.
  induction count as [|count IH]; intros n o.
  - simpl. rewrite app_nil_r. split; [reflexivity|]. split; [lia|].
    apply same_but_events_refl.
  - cbn [record_events]. destruct (IH (S n) (_record_event (wall n) ty o))
      as (Hev & Hn & Hsame).
    rewrite Hev, Hn, events_at_succ. simpl. rewrite <- app_assoc.
    split; [reflexivity|]. split; [lia|].
    unfold same_but_events in *. simpl in Hsame. exact Hsame.
Qed.

(** What a call of [update] does when the three required keys are there. *)
Lemma update_spec wall clock stats o entries exits occupancy :
  stats !! "total_entries"%string = Some entries ->
  stats !! "total_exits"%string = Some exits ->
  stats !! "current_occupancy"%string = Some occupancy ->
  exists o',
    update wall clock stats o = Some o'
    /\ total_entries o' = entries
    /\ total_exits o' = exits
    /\ current_occupancy o' = occupancy
    /\ active_tracks o'
       = match stats !! "active_tracks"%string with
         | Some a => a
         | None => 0
         end
    /\ snapshot_interval o' = snapshot_interval o
    /\ let ne := Z.to_nat (entries - total_entries o) in
       let nx := Z.to_nat (exits - total_exits o) in
       events o'
       = events o ++ events_at wall "entry" occupancy 0 ne
           ++ events_at wall "exit" occupancy ne nx
       /\ if snapshot_due (clock 0%nat) o
          then snapshots o'
               = snapshots o
                 ++ [{| OccupancySnapshot.timestamp := wall (ne + nx)%nat;
                        OccupancySnapshot.current_occupancy := occupancy;
                        OccupancySnapshot.total_entries := entries;
                        OccupancySnapshot.total_exits := exits;
                        OccupancySnapshot.active_tracks := active_tracks o'
                     |}]
               /\ last_snapshot_time o' = clock 1%nat
          else snapshots o' = snapshots o
               /\ last_snapshot_time o' = last_snapshot_time o.
Proof.
  intros He Hx Ho. unfold update. rewrite He, Hx, Ho.
  set (tracks := match stats !! "active_tracks"%string with
                 | Some a => a
                 | None => 0
                 end).
  set (o1 := with_counters o occupancy entries exits tracks).
  set (ne := Z.to_nat (entries - total_entries o)).
  set (nx := Z.to_nat (exits - total_exits o)).
  assert (H2 : exists o2,
    (if 0 <? entries - total_entries o
     then record_events wall 0 ne "entry" o1
     else (o1, 0%nat)) = (o2, ne)
    /\ events o2 = events o ++ events_at wall "entry" occupancy 0 ne
    /\ same_but_events o1 o2).
  { destruct (Z.ltb_spec 0 (entries - total_entries o)) as [Hpos|Hneg].
    - destruct (record_events_full wall "entry" ne 0 o1) as (Hev & Hn & Hs).
      destruct (record_events wall 0 ne "entry" o1) as [o2 n2].
      simpl in *. subst n2. exists o2. auto.
    - exists o1. replace ne with 0%nat by (unfold ne; lia).
      simpl. rewrite app_nil_r. split; [reflexivity|].
      split; [reflexivity|apply same_but_events_refl]. }
  destruct H2 as (o2 & -> & Hev2 & Hs2).
  assert (H3 : exists o3,
    (if 0 <? exits - total_exits o
     then record_events wall ne nx "exit" o2
     else (o2, ne)) = (o3, (ne + nx)%nat)
    /\ events o3 = events o2 ++ events_at wall "exit" occupancy ne nx
    /\ same_but_events o2 o3).
  { destruct Hs2 as (_ & Hocc2 & _).
    destruct (Z.ltb_spec 0 (exits - total_exits o)) as [Hpos|Hneg].
    - destruct (record_events_full wall "exit" nx ne o2) as (Hev & Hn & Hs).
      destruct (record_events wall ne nx "exit" o2) as [o3 n3].
      simpl in *. subst n3. exists o3. rewrite Hocc2 in Hev. auto.
    - exists o2. replace nx with 0%nat by (unfold nx; lia).
      rewrite Nat.add_0_r. simpl. rewrite app_nil_r.
      split; [reflexivity|]. split; [reflexivity|apply same_but_events_refl]. }
  destruct H3 as (o3 & -> & Hev3 & Hs3).
  destruct Hs2 as (A1 & A2 & A3 & A4 & A5 & A6 & A7).
  destruct Hs3 as (B1 & B2 & B3 & B4 & B5 & B6 & B7).
  simpl in A1, A2, A3, A4, A5, A6, A7.
  assert (Hdue : Qle_bool (inject_Z (snapshot_interval o3))
                   (clock 0%nat - last_snapshot_time o3)
                 = snapshot_due (clock 0%nat) o).
  { unfold snapshot_due. congruence. }
  rewrite Hdue.
  rewrite Hev2, <- app_assoc in Hev3.
  destruct (snapshot_due (clock 0%nat) o); eexists;
    (split; [reflexivity|]); cbn -[events_at];
    repeat split; try congruence; try exact Hev3.
Qed.

(** X19.  One call of [update].  It raises [KeyError] exactly when
    'total_entries', 'total_exits' or 'current_occupancy' is missing, and
    has then changed nothing; a missing 'active_tracks' counts as 0.
    Otherwise the four counters are those of the argument, the events table
    grows by one 'entry' row per unit by which 'total_entries' exceeds the
    total held, then one 'exit' row per unit for 'total_exits' (none when a
    total has not grown), stamped with successive readings of the clock, and
    a snapshot of the new counters is appended exactly when
    [snapshot_interval] seconds have passed since the last one. *)
Theorem update_records :
  forall (wall : nat -> datetime) (clock : nat -> Q) (stats : gmap string Z)
         (o : t),
    match update wall clock stats o with
    | None =>
        stats !! "total_entries"%string = None
        \/ stats !! "total_exits"%string = None
        \/ stats !! "current_occupancy"%string = None
    | Some o' =>
        exists entries exits occupancy,
          stats !! "total_entries"%string = Some entries
          /\ stats !! "total_exits"%string = Some exits
          /\ stats !! "current_occupancy"%string = Some occupancy
          /\ total_entries o' = entries
          /\ total_exits o' = exits
          /\ current_occupancy o' = occupancy
          /\ active_tracks o'
             = match stats !! "active_tracks"%string with
               | Some a => a
               | None => 0
               end
          /\ snapshot_interval o' = snapshot_interval o
          /\ let ne := Z.to_nat (entries - total_entries o) in
             let nx := Z.to_nat (exits - total_exits o) in
             events o'
             = events o ++ events_at wall "entry" occupancy 0 ne
                 ++ events_at wall "exit" occupancy ne nx
             /\ if snapshot_due (clock 0%nat) o
                then snapshots o'
                     = snapshots o
                       ++ [{| OccupancySnapshot.timestamp := wall (ne + nx)%nat;
                              OccupancySnapshot.current_occupancy := occupancy;
                              OccupancySnapshot.total_entries := entries;
                              OccupancySnapshot.total_exits := exits;
                              OccupancySnapshot.active_tracks := active_tracks o'
                           |}]
                     /\ last_snapshot_time o' = clock 1%nat
                else snapshots o' = snapshots o
                     /\ last_snapshot_time o' = last_snapshot_time o
    end.
Proof.
  intros wall clock stats o.
  destruct (stats !! "total_entries"%string) as [entries|] eqn:He;
    [|unfold update; rewrite He; auto].
  destruct (stats !! "total_exits"%string) as [exits|] eqn:Hx;
    [|unfold update; rewrite He, Hx; auto].
  destruct (stats !! "current_occupancy"%string) as [occupancy|] eqn:Ho;
    [|unfold update; rewrite He, Hx, Ho; auto].
  destruct (update_spec wall clock stats o entries exits occupancy He Hx Ho)
    as (o' & -> & H).
  exists entries, exits, occupancy. auto.
Qed.

(** ** Events and totals over many calls *)







(** X21.  A tracker that already holds the totals of [stats] records
    nothing when [update(stats)] is called again.  After [reset_counters()]
    the same call records every entry and every exit of [stats] once more:
    the totals held are zero again, while the rows already written stay. *)
Theorem reset_counters_replays :
  forall (wall : nat -> datetime) (clock : nat -> Q) (stats : gmap string Z)
         (o : t) (occupancy : Z),
    stats !! "total_entries"%string = Some (total_entries o) ->
    stats !! "total_exits"%string = Some (total_exits o) ->
    stats !! "current_occupancy"%string = Some occupancy ->
    (exists o1,
       update wall clock stats o = Some o1 /\ events o1 = events o)
    /\ (exists o2,
          update wall clock stats (reset_counters o) = Some o2
          /\ events o2
             = events o
               ++ events_at wall "entry" occupancy 0
                    (Z.to_nat (total_entries o))
               ++ events_at wall "exit" occupancy
                    (Z.to_nat (total_entries o)) (Z.to_nat (total_exits o))).
Proof.
  intros wall clock stats o occupancy He Hx Ho. split.
  - destruct (update_spec wall clock stats o _ _ _ He Hx Ho)
      as (o1 & Hup & _ & _ & _ & _ & _ & Hev & _).
    exists o1. split; [exact Hup|]. rewrite Hev, !Z.sub_diag. simpl.
    apply app_nil_r.
  - destruct (update_spec wall clock stats (reset_counters o) _ _ _ He Hx Ho)
      as (o2 & Hup & _ & _ & _ & _ & _ & Hev & _).
    exists o2. split; [exact Hup|]. rewrite Hev. simpl.
    rewrite !Z.sub_0_r. reflexivity.
Qed.

Lemma reset_counters_replays_witness :
  exists o2,
    update Z.of_nat CounterSpec.still (stats_of 2 0)
      (reset_counters (run [Update Z.of_nat CounterSpec.still (stats_of 2 0)]
                         (__init__ [] [] 60 0)))
    = Some o2
    /\ List.map OccupancyEvent.timestamp (events o2) = [0; 1; 0; 1].
Proof.
  destruct (reset_counters_replays Z.of_nat CounterSpec.still (stats_of 2 0)
              (run [Update Z.of_nat CounterSpec.still (stats_of 2 0)]
                 (__init__ [] [] 60 0)) 2 eq_refl eq_refl eq_refl)
    as [_ (o2 & Hup & Hev)].
  exists o2. split; [exact Hup|]. rewrite Hev. reflexivity.
Defined.

(** ** The peak *)

Lemma max_occupancy_spec rows : forall r,
  (exists r', In r' (r :: rows)
              /\ OccupancySnapshot.current_occupancy r' = max_occupancy r rows)
  /\ forall r', In r' (r :: rows) ->
       OccupancySnapshot.current_occupancy r' <= max_occupancy r rows.
Proof.
  unfold max_occupancy.
  assert (Hfold : forall l m,
    (fold_left (fun m r' => Z.max m (OccupancySnapshot.current_occupancy r'))
       l m = m
     \/ exists r', In r' l
                   /\ OccupancySnapshot.current_occupancy r'
                      = fold_left
                          (fun m r' =>
                             Z.max m (OccupancySnapshot.current_occupancy r'))
                          l m)
    /\ m <= fold_left
              (fun m r' => Z.max m (OccupancySnapshot.current_occupancy r'))
              l m
    /\ forall r', In r' l ->
         OccupancySnapshot.current_occupancy r'
         <= fold_left
              (fun m r' => Z.max m (OccupancySnapshot.current_occupancy r'))
              l m).
  { induction l as [|r0 l IH]; intros m; simpl.
    - split; [left; reflexivity|]. split; [lia|tauto].
    - destruct (IH (Z.max m (OccupancySnapshot.current_occupancy r0)))
        as (Hat & Hge & Hall).
      split; [|split].
      + destruct Hat as [Heq|(r' & Hr' & Heq)].
        * destruct (Z.max_spec m (OccupancySnapshot.current_occupancy r0))
            as [[_ Hm]|[_ Hm]].
          -- right. exists r0. split; [left; reflexivity|]. congruence.
          -- left. congruence.
        * right. exists r'. split; [right; exact Hr'|exact Heq].
      + lia.
      + intros r' [<-|Hr']; [lia|exact (Hall r' Hr')]. }
  intros r. destruct (Hfold rows (OccupancySnapshot.current_occupancy r))
    as (Hat & Hge & Hall).
  split.
  - destruct Hat as [Heq|(r' & Hr' & Heq)].
    + exists r. split; [left; reflexivity|]. symmetry. exact Heq.
    + exists r'. split; [right; exact Hr'|exact Heq].
  - intros r' [<-|Hr']; [exact Hge|exact (Hall r' Hr')].
Qed.

Lemma max_row_spec tie rows best :
  In (max_row tie best rows) (best :: rows)
  /\ forall r, In r (best :: rows) ->
       OccupancySnapshot.current_occupancy r
       <= OccupancySnapshot.current_occupancy (max_row tie best rows).
Proof.
  destruct (max_occupancy_spec rows best) as ((r0 & Hr0 & Hocc0) & Hmax).
  unfold max_row.
  set (tied := List.filter _ (best :: rows)).
  assert (Hin0 : In r0 tied)
    by (apply filter_In; split; [exact Hr0|apply Z.eqb_eq, Hocc0]).
  assert (Hpick : In (nth tie tied (hd best tied)) tied).
  { destruct (Nat.lt_ge_cases tie (length tied)) as [Hlt|Hge].
    - apply nth_In, Hlt.
    - rewrite nth_overflow by exact Hge.
      destruct tied as [|r1 tied']; [destruct Hin0|left; reflexivity]. }
  apply filter_In in Hpick as [Hpick Hocc]. apply Z.eqb_eq in Hocc.
  split; [exact Hpick|]. intros r Hr. rewrite Hocc. exact (Hmax r Hr).
Qed.

(** X22.  [get_peak_occupancy(hours)] raises [OverflowError] when the cutoff
    ([hours] hours before now) is no datetime.  Otherwise the count it
    returns is at least the occupancy of every snapshot taken at or after
    the cutoff; it is the occupancy of one of these snapshots, returned with
    the timestamp of that snapshot, whichever of the snapshots that hold the
    maximum SQLite takes; or, when there is no such snapshot, it is 0 and
    comes with the present time. *)
Theorem peak_occupancy_is_the_maximum :
  forall (wall : nat -> datetime) (tie : nat) (hours : Z) (o : t),
    let cutoff := wall 0%nat - hours_delta hours in
    match get_peak_occupancy wall tie hours o with
    | None =>
        ~ (timedelta_ok (hours_delta hours) = true
           /\ 0 <= cutoff <= datetime_max)
    | Some (peak, timestamp) =>
        (timedelta_ok (hours_delta hours) = true
         /\ 0 <= cutoff <= datetime_max)
        /\ (forall r, In r (snapshots o) ->
              cutoff <= OccupancySnapshot.timestamp r ->
              OccupancySnapshot.current_occupancy r <= peak)
        /\ ((exists r,
               In r (snapshots o)
               /\ cutoff <= OccupancySnapshot.timestamp r
               /\ OccupancySnapshot.current_occupancy r = peak
               /\ OccupancySnapshot.timestamp r = timestamp)
            \/ ((forall r, In r (snapshots o) ->
                   OccupancySnapshot.timestamp r < cutoff)
                /\ peak = 0 /\ timestamp = wall 1%nat))
    end.
Proof.
  intros wall tie hours o cutoff. unfold get_peak_occupancy, minus.
  fold cutoff.
  destruct (timedelta_ok (hours_delta hours)) eqn:Hok; simpl;
    [|intros [H _]; discriminate].
  destruct (Z.leb_spec 0 cutoff) as [H0|H0]; simpl; [|intros [_ H]; lia].
  destruct (Z.leb_spec cutoff datetime_max) as [H1|H1]; simpl;
    [|intros [_ H]; lia].
  assert (Hwin : forall r, In r (snapshots_since cutoff o) <->
            In r (snapshots o) /\ cutoff <= OccupancySnapshot.timestamp r).
  { intros r. unfold snapshots_since. rewrite filter_In, Z.leb_le.
    reflexivity. }
  destruct (snapshots_since cutoff o) as [|r0 rows] eqn:Hrows.
  - split; [auto|]. split.
    + intros r Hr Hc. exfalso. apply (proj2 (Hwin r)); auto.
    + right. split; [|auto]. intros r Hr.
      destruct (Z.lt_ge_cases (OccupancySnapshot.timestamp r) cutoff)
        as [Hlt|Hge]; [exact Hlt|].
      exfalso. apply (proj2 (Hwin r)). split; [exact Hr|lia].
  - destruct (max_row_spec tie rows r0) as [Hin Hmax].
    split; [auto|]. split.
    + intros r Hr Hc. apply Hmax, Hwin. auto.
    + left. exists (max_row tie r0 rows). apply Hwin in Hin as [Hin Hc]. auto.
Qed.

(** ** Statistics of a counter *)

(** X23.  The dictionary that [EntryExitCounter.get_stats()] returns in any
    state the counter reaches is accepted by [update] (no [KeyError]).  The
    tracker then holds the totals of the counter, the number of its tracks,
    and [max(0, total_entries - total_exits)] as occupancy; every event the
    call records carries that occupancy, which is not negative. *)
Theorem counter_stats_are_accepted :
  forall (line_y h : Z) (dir : string) (ops : list EntryExitCounter.call)
         (wall : nat -> datetime) (clock : nat -> Q) (o : t),
    let c := EntryExitCounter.run ops (EntryExitCounter.__init__ line_y h dir) in
    exists o' new,
      update wall clock (EntryExitCounter.get_stats c) o = Some o'
      /\ total_entries o' = EntryExitCounter.total_entries c
      /\ total_exits o' = EntryExitCounter.total_exits c
      /\ current_occupancy o'
         = Z.max 0 (EntryExitCounter.total_entries c
                    - EntryExitCounter.total_exits c)
      /\ active_tracks o'
         = Z.of_nat
             (length (CentroidTracker.tracks (EntryExitCounter.tracker c)))
      /\ events o' = events o ++ new
      /\ forall e, In e new ->
           OccupancyEvent.occupancy_after e = current_occupancy o'
           /\ 0 <= OccupancyEvent.occupancy_after e.
Proof.
  intros line_y h dir ops wall clock o c.
  assert (Hbal : CounterSpec.balanced c)
    by apply CounterFacts.balanced_run, CounterFacts.balanced_init.
  destruct (update_spec wall clock (EntryExitCounter.get_stats c) o
              (EntryExitCounter.total_entries c)
              (EntryExitCounter.total_exits c)
              (EntryExitCounter.get_occupancy c))
    as (o' & Hup & Hte & Htx & Hocc & Htr & _ & Hev & _);
    try reflexivity.
  eexists o', _. split; [exact Hup|]. split; [exact Hte|].
  split; [exact Htx|].
  split; [rewrite Hocc; unfold EntryExitCounter.get_occupancy; f_equal;
          exact Hbal|].
  split; [rewrite Htr; reflexivity|].
  split; [exact Hev|].
  intros e He. rewrite Hocc.
  assert (Hocc_e : OccupancyEvent.occupancy_after e
                   = EntryExitCounter.get_occupancy c).
  { unfold events_at in He.
    apply in_app_or in He as [He|He];
      apply in_map_iff in He as (k & <- & _); reflexivity. }
  split; [exact Hocc_e|]. rewrite Hocc_e. apply Z.le_max_l.
Qed.
End OccupancyFacts.

(* ===================================================================== *)
(** * More on the tracker: what becomes of the detections of a frame *)
(* ===================================================================== *)

Module DetectionFacts.
Import DictFacts.
Import TrackingSpec.
Import TrackerSpec.
Import MatchSpec.

(** ** Dictionaries *)

Lemma get_alter {V} (f : V -> V) k k' (d : odict V) :
  OD.get k (OD.alter f k' d)
  = if Z.eqb k k' then option_map f (OD.get k' d) else OD.get k d.
Proof.
  induction d as [|[k1 v1] d IH]; simpl.
  - destruct (Z.eqb k k'); reflexivity.
  - destruct (Z.eqb_spec k' k1) as [->|Hne1]; simpl.
    + destruct (Z.eqb k k1); reflexivity.
    + destruct (Z.eqb_spec k k1) as [->|Hne]; [|exact IH].
      destruct (Z.eqb_spec k1 k'); [congruence|reflexivity].
Qed.

Lemma in_combine_seq {A} (l : list A) (d : A) : forall s j,
  (j < length l)%nat ->
  In ((s + j)%nat, nth j l d) (combine (seq s (length l)) l).
Proof.
  induction l as [|a l IH]; intros s j Hj; simpl in *; [lia|].
  destruct j as [|j].
  - left. f_equal. lia.
  - right. replace (s + S j)%nat with (S s + j)%nat by lia.
    apply IH. lia.
Qed.

Lemma nodup_map_nth (ids : list Z) (l : list nat) :
  List.NoDup ids -> List.NoDup l ->
  (forall i, In i l -> (i < length ids)%nat) ->
  List.NoDup (List.map (fun i => nth i ids 0) l).
Proof.
  intros Hids. induction l as [|i l IH]; intros Hl Hr; simpl; [constructor|].
  apply NoDup_cons_iff in Hl as [Hi Hl]. constructor.
  - intros Hin. apply in_map_iff in Hin as (i' & Heq & Hi').
    assert (i' = i).
    { apply (proj1 (NoDup_nth ids 0) Hids); auto.
      - apply Hr. right. exact Hi'.
      - apply Hr. left. reflexivity. }
    subst i'. exact (Hi Hi').
  - apply IH; [exact Hl|]. intros i' Hi'. apply Hr. right. exact Hi'.
Qed.

(** ** The steps of [update] *)

Lemma last_update_position now c p :
  List.last (TrackedPerson.centroids (TrackedPerson.update_position now c p))
    (0, 0) = c.
Proof.
  unfold TrackedPerson.update_position. cbn [TrackedPerson.centroids].
  assert (Hcs : exists l, deque_append 30 (TrackedPerson.centroids p) c
                          = l ++ [c])
    by (unfold deque_append; destruct (_ <=? _)%nat; eauto).
  destruct Hcs as [l ->].
  destruct (Nat.ltb_spec 30 (length (l ++ [c]))) as [Hlong|_];
    [|apply last_last].
  destruct l as [|a l]; [simpl in Hlong; lia|]. simpl. apply last_last.
Qed.

Lemma um_next_id clock ids dets pairs : forall n tr,
  CentroidTracker.next_id
    (fst (CentroidTracker.update_matched clock n ids dets pairs tr))
  = CentroidTracker.next_id tr.
Proof.
  induction pairs as [|[i j] pairs IH]; intros n tr; simpl; [reflexivity|].
  rewrite IH. reflexivity.
Qed.

Lemma um_other clock ids dets pairs : forall n tr k,
  (forall ij, In ij pairs -> nth (fst ij) ids 0 <> k) ->
  OD.get k
    (CentroidTracker.tracks
       (fst (CentroidTracker.update_matched clock n ids dets pairs tr)))
  = OD.get k (CentroidTracker.tracks tr).
Proof.
  induction pairs as [|[i j] pairs IH]; intros n tr k Hk; simpl;
    [reflexivity|].
  rewrite IH by (intros ij Hij; apply Hk; right; exact Hij).
  simpl. rewrite get_alter.
  destruct (Z.eqb_spec k (nth i ids 0)) as [->|_]; [|reflexivity].
  exfalso. apply (Hk (i, j)); [left|]; reflexivity.
Qed.

Lemma um_hit clock ids dets pairs : forall n tr i j p0,
  In (i, j) pairs ->
  List.NoDup (List.map (fun ij => nth (fst ij) ids 0) pairs) ->
  OD.get (nth i ids 0) (CentroidTracker.tracks tr) = Some p0 ->
  exists p,
    OD.get (nth i ids 0)
      (CentroidTracker.tracks
         (fst (CentroidTracker.update_matched clock n ids dets pairs tr)))
    = Some p
    /\ List.last (TrackedPerson.centroids p) (0, 0) = nth j dets (0, 0).
Proof.
  induction pairs as [|[i0 j0] pairs IH]; intros n tr i j p0 Hin Hnd Hget;
    [destruct Hin|].
  cbn [List.map fst] in Hnd. apply NoDup_cons_iff in Hnd as [Hfirst Hnd].
  cbn [CentroidTracker.update_matched].
  destruct Hin as [Heq|Hin].
  - inversion Heq; subst i0 j0. clear Heq.
    exists (TrackedPerson.update_position (clock n) (nth j dets (0, 0)) p0).
    split; [|apply last_update_position].
    rewrite um_other.
    + simpl. rewrite get_alter, Z.eqb_refl, Hget. reflexivity.
    + intros ij Hij Heq. apply Hfirst. apply in_map_iff. exists ij. auto.
  - apply (IH (S n) _ i j p0); [exact Hin|exact Hnd|].
    simpl. rewrite get_alter.
    destruct (Z.eqb_spec (nth i ids 0) (nth i0 ids 0)) as [Heq|_];
      [|exact Hget].
    exfalso. apply Hfirst. apply in_map_iff. exists (i, j). split;
      [exact Heq|exact Hin].
Qed.

Lemma fresh_has clock cs : forall n id c,
  In c cs ->
  exists k now,
    In (k, new_track k c now) (fresh_tracks clock n id cs) /\ id <= k.
Proof.
  induction cs as [|c0 cs IH]; intros n id c Hc; [destruct Hc|]. simpl.
  destruct Hc as [->|Hc].
  - exists id, (clock n). split; [left; reflexivity|lia].
  - destruct (IH (S n) (id + 1) c Hc) as (k & now & Hin & Hle).
    exists k, now. split; [right; exact Hin|lia].
Qed.

Lemma in_unmatched dets cols j :
  (j < length dets)%nat -> ~ In j cols ->
  In (nth j dets (0, 0)) (CentroidTracker.unmatched_detections dets cols).
Proof.
  intros Hj Hcols. unfold CentroidTracker.unmatched_detections.
  apply in_map_iff. exists (j, nth j dets (0, 0)). split; [reflexivity|].
  apply filter_In. split; [exact (in_combine_seq dets (0, 0) 0 j Hj)|].
  simpl. apply negb_true_iff.
  destruct (existsb (Nat.eqb j) cols) eqn:Hex; [|reflexivity].
  apply existsb_exists in Hex as (x & Hx & Heq).
  apply Nat.eqb_eq in Heq. subst x. contradiction.
Qed.

Lemma greedy_pairs_greedy cs1 cs2 md :
  cs1 <> [] -> cs2 <> [] ->
  exists t,
    greedy (CentroidTracker._compute_distances cs1 cs2) (Fin t)
      (CentroidTracker.greedy_pairs
         (CentroidTracker._compute_distances cs1 cs2) md).
Proof.
  intros H1 H2. pose proof (MatchFacts.greedy_pairs_done cs1 cs2 md H1 H2) as Hd.
  assert (exists t, CentroidTracker.sq_threshold md = Fin t) as [t Ht]
      by (unfold CentroidTracker.sq_threshold; destruct (md <? 0); eauto).
  rewrite Ht in Hd. exists t.
  destruct (MatchFacts.loop_spec t _ _ _ _ Hd) as (new & Hnew & Hg).
  simpl in Hnew. rewrite Hnew. exact Hg.
Qed.

(** X24.  No detection of a frame is dropped: after [update(detections)]
    every detection is the latest position of a track, either of the track
    it was matched with or of a track registered for it.  (The identifiers
    of the tracker are unique and below [next_id], as they are in every
    state it reaches.) *)
Theorem every_detection_is_tracked :
  forall (clock : nat -> Q) (detections : list centroid)
         (tr : CentroidTracker.t) (j : nat),
    List.NoDup (OD.keys (CentroidTracker.tracks tr)) ->
    (forall k p, In (k, p) (CentroidTracker.tracks tr) ->
                 k < CentroidTracker.next_id tr) ->
    (j < length detections)%nat ->
    exists k p,
      In (k, p)
         (CentroidTracker.tracks (CentroidTracker.update clock detections tr))
      /\ List.last (TrackedPerson.centroids p) (0, 0)
         = nth j detections (0, 0).
Proof.
  intros clock detections tr j Hnd Hbelow Hj.
  unfold CentroidTracker.update.
  destruct detections as [|c0 cs] eqn:Hdets; [simpl in Hj; lia|].
  rewrite <- Hdets in *. assert (Hne : detections <> []) by congruence.
  clear Hdets c0 cs.
  destruct (CentroidTracker.tracks tr) as [|kp0 rest] eqn:Htracks.
  - rewrite TrackerFacts.register_all_fresh
      by (rewrite Htracks; intros k p []).
    cbn [CentroidTracker.tracks]. rewrite Htracks. simpl.
    destruct (fresh_has clock detections 0 (CentroidTracker.next_id tr)
                (nth j detections (0, 0)) (nth_In _ _ Hj))
      as (k & now & Hin & _).
    exists k, (new_track k (nth j detections (0, 0)) now). auto.
  - rewrite <- Htracks in *.
    set (ids := OD.keys (CentroidTracker.tracks tr)).
    set (cents := List.map _ (OD.values (CentroidTracker.tracks tr))).
    set (pairs := CentroidTracker.greedy_pairs _ _).
    assert (Hlen : length cents = length ids)
      by (unfold cents, ids, OD.keys, OD.values; rewrite !length_map;
          reflexivity).
    assert (Hcne : cents <> []).
    { intros Heq. rewrite Heq in Hlen. unfold ids in Hlen.
      rewrite Htracks in Hlen. discriminate. }
    destruct (greedy_pairs_greedy cents detections
                (CentroidTracker.max_distance tr) Hcne Hne) as [t Hg].
    fold pairs in Hg. destruct Hg as [Hrange _ Hrows Hcols _ _].
    assert (Hmids : List.NoDup
                      (List.map (fun ij => nth (fst ij) ids 0) pairs)).
    { rewrite <- (List.map_map fst (fun i => nth i ids 0)).
      apply nodup_map_nth; [exact Hnd|exact Hrows|].
      intros i Hi. apply in_map_iff in Hi as ([i' j'] & <- & Hin).
      destruct (Hrange _ _ Hin) as [Hi _]. simpl in Hi. simpl. lia. }
    assert (Hinv : tracked_inv [] tr)
      by (split; [exact Hnd|exact Hbelow|intros k []]).
    pose proof (TrackingFacts.inv_update_matched [] clock ids detections pairs
                  0 tr Hinv) as Hinv1.
    pose proof (um_next_id clock ids detections pairs 0 tr) as Hnext1.
    pose proof (um_hit clock ids detections pairs 0 tr) as Hhit.
    destruct (CentroidTracker.update_matched clock 0 ids detections pairs tr)
      as [tr1 n1].
    cbn [fst] in Hinv1, Hnext1, Hhit.
    set (news := CentroidTracker.unmatched_detections detections
                   (List.map snd pairs)).
    pose proof (TrackerFacts.register_all_fresh clock news n1 tr1
                  (inv_below _ _ Hinv1)) as Hreg.
    destruct (CentroidTracker.register_all clock n1 news tr1) as [tr2 n2].
    cbn [fst] in Hreg. rewrite TrackerFacts.deregister_all_filter.
    cbn [CentroidTracker.tracks CentroidTracker.with_tracks].
    set (gone := List.filter _ ids).
    assert (Hkeep : forall k p,
      In (k, p) (CentroidTracker.tracks tr2) ->
      (In k ids ->
       existsb (Z.eqb k) (List.map (fun ij => nth (fst ij) ids 0) pairs)
       = true) ->
      In (k, p)
         (List.filter (fun kv => negb (existsb (Z.eqb (fst kv)) gone))
            (CentroidTracker.tracks tr2))).
    { intros k p Hin Hmatched. apply filter_In. split; [exact Hin|].
      simpl. apply negb_true_iff.
      destruct (existsb (Z.eqb k) gone) eqn:Hex; [|reflexivity].
      apply existsb_exists in Hex as (x & Hx & Heq).
      apply Z.eqb_eq in Heq. subst x. unfold gone in Hx.
      apply filter_In in Hx as [Hk Hcond].
      rewrite (Hmatched Hk) in Hcond. discriminate. }
    destruct (in_dec Nat.eq_dec j (List.map snd pairs)) as [Hmatched|Hfree].
    + apply in_map_iff in Hmatched as ([i j'] & Hj' & Hin).
      simpl in Hj'. subst j'.
      destruct (Hrange _ _ Hin) as [Hi _]. simpl in Hi.
      assert (Hid : In (nth i ids 0) ids) by (apply nth_In; lia).
      assert (Hsome : exists p0,
                OD.get (nth i ids 0) (CentroidTracker.tracks tr) = Some p0).
      { destruct (OD.get (nth i ids 0) (CentroidTracker.tracks tr)) eqn:Hget;
          [eauto|].
        apply SideFacts.get_none_keys in Hget. contradiction. }
      destruct Hsome as [p0 Hp0].
      destruct (Hhit i j p0 Hin Hmids Hp0) as (p & Hget & Hlast).
      exists (nth i ids 0), p. split; [|exact Hlast].
      apply Hkeep.
      * rewrite Hreg. cbn [CentroidTracker.tracks]. apply in_or_app. left.
        apply get_in, Hget.
      * intros _. apply existsb_exists. exists (nth i ids 0).
        split; [|apply Z.eqb_refl].
        apply in_map_iff. exists (i, j). auto.
    + destruct (fresh_has clock news n1 (CentroidTracker.next_id tr1)
                  (nth j detections (0, 0))
                  (in_unmatched detections _ j Hj Hfree))
        as (k & now & Hin & Hle).
      exists k, (new_track k (nth j detections (0, 0)) now).
      split; [|reflexivity].
      apply Hkeep.
      * rewrite Hreg. cbn [CentroidTracker.tracks]. apply in_or_app. right.
        exact Hin.
      * intros Hk. exfalso. apply in_map_iff in Hk as ([k' p'] & Hk' & Hin').
        simpl in Hk'. subst k'. specialize (Hbelow _ _ Hin'). lia.
Qed.

Lemma every_detection_is_tracked_witness :
  exists k p,
    In (k, p)
       (CentroidTracker.tracks
          (CentroidTracker.update CounterSpec.still [(100, 130); (400, 280)]
             one_person))
    /\ List.last (TrackedPerson.centroids p) (0, 0)
       = nth 1 [(100, 130); (400, 280)] (0, 0).
Proof.
  apply (every_detection_is_tracked CounterSpec.still
           [(100, 130); (400, 280)] one_person 1).
  - vm_compute. repeat constructor. intros [].
  - intros k p Hin. vm_compute in Hin. destruct Hin as [Heq|[]].
    inversion Heq. reflexivity.
  - simpl. lia.
Defined.

(** ** What becomes of a track *)

Lemma um_cases clock ids dets pairs : forall n tr k p,
  List.NoDup (List.map (fun ij => nth (fst ij) ids 0) pairs) ->
  (forall i j, In (i, j) pairs -> (j < length dets)%nat) ->
  OD.get k
    (CentroidTracker.tracks
       (fst (CentroidTracker.update_matched clock n ids dets pairs tr)))
  = Some p ->
  exists p0,
    OD.get k (CentroidTracker.tracks tr) = Some p0
    /\ (p = p0
        \/ exists now c,
             In c dets /\ p = TrackedPerson.update_position now c p0).
Proof.
  induction pairs as [|[i0 j0] pairs IH]; intros n tr k p Hnd Hr Hget.
  - exists p. auto.
  - cbn [List.map fst] in Hnd. apply NoDup_cons_iff in Hnd as [Hfirst Hnd].
    cbn [CentroidTracker.update_matched] in Hget.
    destruct (Z.eq_dec k (nth i0 ids 0)) as [->|Hne].
    + rewrite um_other in Hget.
      2:{ intros ij Hij Heq. apply Hfirst. apply in_map_iff. exists ij. auto. }
      simpl in Hget. rewrite get_alter, Z.eqb_refl in Hget.
      destruct (OD.get (nth i0 ids 0) (CentroidTracker.tracks tr)) as [p0|];
        [|discriminate].
      simpl in Hget. injection Hget as <-. exists p0. split; [reflexivity|].
      right. exists (clock n), (nth j0 dets (0, 0)). split; [|reflexivity].
      apply nth_In. apply (Hr i0 j0). left. reflexivity.
    + apply IH in Hget; [|exact Hnd|intros i j Hij; apply (Hr i j); right;
                                     exact Hij].
      destruct Hget as (p0 & Hp0 & Hcases). exists p0. split; [|exact Hcases].
      simpl in Hp0. rewrite get_alter in Hp0.
      destruct (Z.eqb_spec k (nth i0 ids 0)); [contradiction|exact Hp0].
Qed.

Lemma fresh_inv clock cs : forall n id k p,
  In (k, p) (fresh_tracks clock n id cs) ->
  id <= k /\ exists now c, In c cs /\ p = new_track k c now.
Proof.
  induction cs as [|c0 cs IH]; intros n id k p Hin; [destruct Hin|].
  simpl in Hin. destruct Hin as [Heq|Hin].
  - injection Heq as <- <-. split; [lia|].
    exists (clock n), c0. split; [left|]; reflexivity.
  - destruct (IH _ _ _ _ Hin) as (Hle & now & c & Hc & Hp).
    split; [lia|]. exists now, c. split; [right; exact Hc|exact Hp].
Qed.

Lemma track_after_update clock detections tr k p :
  List.NoDup (OD.keys (CentroidTracker.tracks tr)) ->
  (forall k p, In (k, p) (CentroidTracker.tracks tr) ->
               k < CentroidTracker.next_id tr) ->
  In (k, p)
     (CentroidTracker.tracks (CentroidTracker.update clock detections tr)) ->
  (exists p0,
     In (k, p0) (CentroidTracker.tracks tr)
     /\ (p = p0
         \/ exists now c,
              In c detections /\ p = TrackedPerson.update_position now c p0))
  \/ (CentroidTracker.next_id tr <= k
      /\ exists now c, In c detections /\ p = new_track k c now).
Proof.
  intros Hnd Hbelow. unfold CentroidTracker.update.
  destruct detections as [|c0 cs] eqn:Hdets.
  { rewrite TrackerFacts.deregister_all_filter. simpl. intros Hin.
    apply filter_In in Hin as [Hin _]. left. exists p. auto. }
  rewrite <- Hdets in *. assert (Hne : detections <> []) by congruence.
  clear Hdets c0 cs.
  destruct (CentroidTracker.tracks tr) as [|kp0 rest] eqn:Htracks.
  - rewrite TrackerFacts.register_all_fresh
      by (rewrite Htracks; intros k' p' []).
    cbn [CentroidTracker.tracks]. rewrite Htracks. simpl. intros Hin.
    right. exact (fresh_inv _ _ _ _ _ _ Hin).
  - rewrite <- Htracks in *.
    set (ids := OD.keys (CentroidTracker.tracks tr)).
    set (cents := List.map _ (OD.values (CentroidTracker.tracks tr))).
    set (pairs := CentroidTracker.greedy_pairs _ _).
    assert (Hlen : length cents = length ids)
      by (unfold cents, ids, OD.keys, OD.values; rewrite !length_map;
          reflexivity).
    assert (Hcne : cents <> []).
    { intros Heq. rewrite Heq in Hlen. unfold ids in Hlen.
      rewrite Htracks in Hlen. discriminate. }
    destruct (greedy_pairs_greedy cents detections
                (CentroidTracker.max_distance tr) Hcne Hne) as [t Hg].
    fold pairs in Hg. destruct Hg as [Hrange _ Hrows Hcols _ _].
    assert (Hmids : List.NoDup
                      (List.map (fun ij => nth (fst ij) ids 0) pairs)).
    { rewrite <- (List.map_map fst (fun i => nth i ids 0)).
      apply nodup_map_nth; [exact Hnd|exact Hrows|].
      intros i Hi. apply in_map_iff in Hi as ([i' j'] & <- & Hin).
      destruct (Hrange _ _ Hin) as [Hi _]. simpl in Hi. simpl. lia. }
    assert (Hinv : tracked_inv [] tr)
      by (split; [exact Hnd|exact Hbelow|intros k' []]).
    pose proof (TrackingFacts.inv_update_matched [] clock ids detections pairs
                  0 tr Hinv) as Hinv1.
    pose proof (um_next_id clock ids detections pairs 0 tr) as Hnext1.
    pose proof (um_cases clock ids detections pairs 0 tr) as Hcases.
    destruct (CentroidTracker.update_matched clock 0 ids detections pairs tr)
      as [tr1 n1].
    cbn [fst] in Hinv1, Hnext1, Hcases.
    set (news := CentroidTracker.unmatched_detections detections
                   (List.map snd pairs)).
    pose proof (TrackerFacts.register_all_fresh clock news n1 tr1
                  (inv_below _ _ Hinv1)) as Hreg.
    destruct (CentroidTracker.register_all clock n1 news tr1) as [tr2 n2].
    cbn [fst] in Hreg. rewrite TrackerFacts.deregister_all_filter.
    cbn [CentroidTracker.tracks CentroidTracker.with_tracks].
    intros Hin. apply filter_In in Hin as [Hin _].
    rewrite Hreg in Hin. cbn [CentroidTracker.tracks] in Hin.
    apply in_app_or in Hin as [Hin|Hin].
    + left. apply (in_get _ _ _ (inv_nodup _ _ Hinv1)) in Hin.
      destruct (Hcases k p Hmids) as (p0 & Hp0 & Hp).
      * intros i j Hij. destruct (Hrange _ _ Hij) as [_ Hj]. exact Hj.
      * exact Hin.
      * exists p0. split; [apply get_in, Hp0|exact Hp].
    + right. destruct (fresh_inv _ _ _ _ _ _ Hin) as (Hle & now & c & Hc & Hp).
      split; [lia|]. exists now, c. split; [|exact Hp].
      unfold news, CentroidTracker.unmatched_detections in Hc.
      apply in_map_iff in Hc as ([j c'] & Hc' & Hjc). simpl in Hc'. subst c'.
      apply filter_In in Hjc as [Hjc _]. apply in_combine_r in Hjc. exact Hjc.
Qed.

(** X26.  What [update] does to the tracks, one by one.  A track of the
    tracker after the call is a track it had before, either untouched or
    moved, once, to one of the detections of the frame, or it is a track
    newly registered for one of the detections, under an identifier that
    was never used before.  (The identifiers of the tracker are unique and
    below [next_id], as they are in every state it reaches.) *)
Theorem tracks_after_update :
  forall (clock : nat -> Q) (detections : list centroid)
         (tr : CentroidTracker.t) (k : Z) (p : TrackedPerson.t),
    List.NoDup (OD.keys (CentroidTracker.tracks tr)) ->
    (forall k p, In (k, p) (CentroidTracker.tracks tr) ->
                 k < CentroidTracker.next_id tr) ->
    In (k, p)
       (CentroidTracker.tracks (CentroidTracker.update clock detections tr)) ->
    (exists p0,
       In (k, p0) (CentroidTracker.tracks tr)
       /\ (p = p0
           \/ exists now c,
                In c detections
                /\ p = TrackedPerson.update_position now c p0))
    \/ (CentroidTracker.next_id tr <= k
        /\ exists now c, In c detections /\ p = new_track k c now).
Proof.
  intros clock detections tr k p Hnd Hbelow Hin.
  exact (track_after_update clock detections tr k p Hnd Hbelow Hin).
Qed.

Lemma tracks_after_update_witness :
  (exists p0,
     In (0, p0) (CentroidTracker.tracks one_person)
     /\ (TrackedPerson.update_position 0 (100, 130) (new_track 0 (100, 100) 0)
         = p0
         \/ exists now c,
              In c [(100, 130)]
              /\ TrackedPerson.update_position 0 (100, 130)
                   (new_track 0 (100, 100) 0)
                 = TrackedPerson.update_position now c p0))
  \/ (CentroidTracker.next_id one_person <= 0
      /\ exists now c,
           In c [(100, 130)]
           /\ TrackedPerson.update_position 0 (100, 130)
                (new_track 0 (100, 100) 0)
              = new_track 0 c now).
Proof.
  apply (tracks_after_update CounterSpec.still [(100, 130)] one_person 0
           (TrackedPerson.update_position 0 (100, 130)
              (new_track 0 (100, 100) 0))).
  - vm_compute. repeat constructor. intros [].
  - intros k p Hin. vm_compute in Hin. destruct Hin as [Heq|[]].
    inversion Heq. reflexivity.
  - vm_compute. left. reflexivity.
Defined.

(** ** What it takes to be counted *)



End DetectionFacts.

(* ===================================================================== *)
(** * More on the matcher: ties *)
(* ===================================================================== *)

Module TieFacts.
Import MatchSpec.

Lemma first_index_first m l : forall k,
  (k < first_index m l)%nat -> nth k l Inf <> m.
Proof.
  induction l as [|x l IH]; intros k Hk; simpl in Hk; [lia|].
  destruct (dist_eqb x m) eqn:Hx; [lia|].
  destruct k as [|k]; simpl.
  - intros Heq. apply MatchFacts.dist_eqb_eq in Heq. congruence.
  - apply IH. lia.
Qed.

Lemma dist_le_neq_lt a b : dist_le a b -> a <> b -> dist_lt a b.
Proof.
  unfold dist_le, dist_lt, dist_ltb.
  destruct a as [x|], b as [y|]; simpl; intros Hle Hne;
    try reflexivity; try discriminate; try congruence.
  apply Z.leb_le in Hle. apply negb_true_iff, Z.leb_gt.
  assert (x <> y) by congruence. lia.
Qed.

(** X25.  Among equal distances the matcher takes the first position of the
    matrix in row-major order: every position before the first pair it
    returns, in an earlier row or earlier in the same row, holds a strictly
    larger distance. *)
Theorem ties_go_to_the_first_position :
  forall (D : ndarray) (thr : Z) (i j : nat) (ms : list (nat * nat))
         (r c : nat),
    _greedy_match D (Fin thr) = Done ((i, j) :: ms) ->
    (c < ncols D)%nat ->
    (r < i \/ (r = i /\ c < j))%nat ->
    dist_lt (at_ D i j) (at_ D r c).
Proof.
  intros D thr i j ms r c Hdone Hc Hbefore.
  unfold _greedy_match, _greedy_match_fuel in Hdone.
  rewrite MatchFacts.loop_unfold in Hdone.
  destruct (ndarray_min D) as [m|] eqn:Hmin; [|discriminate].
  destruct (MatchFacts.min_some_nonempty D m Hmin) as [Hrows Hcols].
  destruct (MatchFacts.min_spec D Hrows Hcols)
    as (m' & Hmin' & Hi & Hj & Hat & Hle).
  rewrite Hmin in Hmin'. injection Hmin' as Hm. subst m'.
  destruct (dist_ltb (Fin thr) m); [discriminate|].
  destruct (MatchFacts.loop_spec thr _ _ _ _ Hdone) as (new & Hnew & _).
  cbn [app] in Hnew. injection Hnew as Hi' Hj' _. subst i j. clear Hdone.
  set (a := ndarray_argmin D) in *.
  assert (Ha : a = first_index m (flat D))
    by (unfold a, ndarray_argmin; rewrite Hmin; reflexivity).
  assert (Hsize : (a < ndarray_size D)%nat).
  { rewrite Ha, <- MatchFacts.length_flat.
    apply MatchFacts.first_index_spec.
    rewrite <- Hat. apply MatchFacts.in_flat; assumption. }
  assert (Hk : (r * ncols D + c < a)%nat).
  { unfold unravel_index in Hbefore. cbn [fst snd] in Hbefore.
    pose proof (Nat.div_mod_eq a (ncols D)) as Hdm.
    destruct Hbefore as [Hr|[Hr Hc']]; nia. }
  change (dist_lt (at_ D (fst (unravel_index a D)) (snd (unravel_index a D)))
            (at_ D r c)).
  rewrite Hat. apply dist_le_neq_lt.
  - apply Hle; [|exact Hc].
    unfold ndarray_size in Hsize. nia.
  - intros Heq.
    apply (first_index_first m (flat D) (r * ncols D + c)%nat);
      [rewrite <- Ha; exact Hk|].
    rewrite MatchFacts.nth_flat by lia.
    unfold flat_at. rewrite MatchFacts.unravel_ravel by exact Hc.
    symmetry. exact Heq.
Qed.

Lemma ties_go_to_the_first_position_witness :
  dist_lt (at_ two_by_two 0 1) (at_ two_by_two 0 0).
Proof.
  apply (ties_go_to_the_first_position two_by_two 3 0 1 [(1, 0)]%nat 0 0).
  - reflexivity.
  - simpl. lia.
  - right. lia.
Defined.
End TieFacts.

(* ===================================================================== *)
(** * More on the counter: the entry direction *)
(* ===================================================================== *)

Module MirrorFacts.
Import EntryExitCounter.
Import MirrorSpec.

(** ** Dictionaries whose values are relabelled *)

Lemma get_relabel k d :
  OD.get k (relabel_tracks d) = option_map relabel (OD.get k d).
Proof.
  induction d as [|[k' v] d IH]; simpl; [reflexivity|].
  destruct (Z.eqb k k'); [reflexivity|exact IH].
Qed.

Lemma set_relabel k v d :
  OD.set k (relabel v) (relabel_tracks d) = relabel_tracks (OD.set k v d).
Proof.
  induction d as [|[k' v'] d IH]; simpl; [reflexivity|].
  destruct (Z.eqb k k'); simpl; [reflexivity|]. f_equal. exact IH.
Qed.

Lemma alter_relabel now c k d :
  OD.alter (TrackedPerson.update_position now c) k (relabel_tracks d)
  = relabel_tracks (OD.alter (TrackedPerson.update_position now c) k d).
Proof.
  induction d as [|[k' v'] d IH]; simpl; [reflexivity|].
  destruct (Z.eqb k k'); simpl; [reflexivity|]. f_equal. exact IH.
Qed.

Lemma filter_relabel (f : Z * TrackedPerson.t -> bool) d :
  (forall k p, f (k, relabel p) = f (k, p)) ->
  List.filter f (relabel_tracks d) = relabel_tracks (List.filter f d).
Proof.
  intros Hf. induction d as [|[k v] d IH]; simpl; [reflexivity|].
  rewrite Hf. destruct (f (k, v)); simpl; [f_equal|]; exact IH.
Qed.

Lemma keys_relabel d : OD.keys (relabel_tracks d) = OD.keys d.
Proof.
  unfold OD.keys, relabel_tracks. rewrite List.map_map. reflexivity.
Qed.

Lemma positions_relabel d :
  List.map (fun p => List.last (TrackedPerson.centroids p) (0, 0))
    (OD.values (relabel_tracks d))
  = List.map (fun p => List.last (TrackedPerson.centroids p) (0, 0))
      (OD.values d).
Proof.
  unfold OD.values, relabel_tracks. rewrite !List.map_map. reflexivity.
Qed.

(** ** The tracker does not look at the direction *)

Lemma register_relabel now c tr :
  CentroidTracker.register now c (relabel_tracker tr)
  = relabel_tracker (CentroidTracker.register now c tr).
Proof.
  unfold CentroidTracker.register, relabel_tracker, CentroidTracker.with_tracks.
  simpl. f_equal. rewrite <- set_relabel. reflexivity.
Qed.

Lemma register_all_relabel clock cs : forall n tr,
  CentroidTracker.register_all clock n cs (relabel_tracker tr)
  = (relabel_tracker (fst (CentroidTracker.register_all clock n cs tr)),
     snd (CentroidTracker.register_all clock n cs tr)).
Proof.
  induction cs as [|c cs IH]; intros n tr; simpl; [reflexivity|].
  rewrite register_relabel. apply IH.
Qed.

Lemma update_matched_relabel clock ids dets pairs : forall n tr,
  CentroidTracker.update_matched clock n ids dets pairs (relabel_tracker tr)
  = (relabel_tracker
       (fst (CentroidTracker.update_matched clock n ids dets pairs tr)),
     snd (CentroidTracker.update_matched clock n ids dets pairs tr)).
Proof.
  induction pairs as [|[i j] pairs IH]; intros n tr; simpl; [reflexivity|].
  rewrite alter_relabel.
  exact (IH (S n)
           (CentroidTracker.with_tracks tr
              (OD.alter
                 (TrackedPerson.update_position (clock n)
                    (nth j dets (0, 0)))
                 (nth i ids 0) (CentroidTracker.tracks tr)))).
Qed.

Lemma deregister_all_relabel ids tr :
  fold_left (fun tr' track_id => CentroidTracker.deregister track_id tr') ids
    (relabel_tracker tr)
  = relabel_tracker
      (fold_left (fun tr' track_id => CentroidTracker.deregister track_id tr')
         ids tr).
Proof.
  rewrite !TrackerFacts.deregister_all_filter.
  unfold relabel_tracker, CentroidTracker.with_tracks. simpl. f_equal.
  apply filter_relabel. reflexivity.
Qed.

Lemma tracker_update_relabel clock detections tr :
  CentroidTracker.update clock detections (relabel_tracker tr)
  = relabel_tracker (CentroidTracker.update clock detections tr).
Proof.
  unfold CentroidTracker.update.
  destruct detections as [|c0 cs] eqn:Hdets.
  - rewrite deregister_all_relabel. f_equal. f_equal.
    cbn [CentroidTracker.tracks relabel_tracker CentroidTracker.with_tracks].
    rewrite filter_relabel by reflexivity. apply keys_relabel.
  - rewrite <- Hdets. clear Hdets c0 cs.
    destruct (CentroidTracker.tracks tr) as [|kp rest] eqn:Htracks.
    + replace (CentroidTracker.tracks (relabel_tracker tr))
        with (@nil (Z * TrackedPerson.t))
        by (unfold relabel_tracker; simpl; rewrite Htracks; reflexivity).
      rewrite register_all_relabel. reflexivity.
    + replace (CentroidTracker.tracks (relabel_tracker tr))
        with (relabel_tracks (kp :: rest))
        by (unfold relabel_tracker; simpl; rewrite Htracks; reflexivity).
      cbn [relabel_tracks List.map].
      change ((fst kp, relabel (snd kp))
              :: List.map (fun kv => (fst kv, relabel (snd kv))) rest)
        with (relabel_tracks (kp :: rest)).
      rewrite keys_relabel, positions_relabel.
      change (CentroidTracker.max_distance (relabel_tracker tr))
        with (CentroidTracker.max_distance tr).
      set (ids := OD.keys (kp :: rest)).
      set (pairs := CentroidTracker.greedy_pairs _ _).
      rewrite update_matched_relabel.
      destruct (CentroidTracker.update_matched clock 0 ids detections pairs tr)
        as [tr1 n1]. cbn [fst snd].
      rewrite register_all_relabel.
      destruct (CentroidTracker.register_all clock n1 _ tr1) as [tr2 n2].
      cbn [fst snd].
      rewrite deregister_all_relabel. f_equal. f_equal.
      apply filter_ext. intros k. f_equal.
      cbn [CentroidTracker.tracks relabel_tracker CentroidTracker.with_tracks].
      rewrite get_relabel.
      destruct (OD.get k (CentroidTracker.tracks tr2)); reflexivity.
Qed.

(** ** The loop of the counter *)

Section Mirror.
Variable dir : string.
Hypothesis not_down : String.eqb dir "down" = false.

Lemma visit_mirror c r k p :
  String.eqb (entry_direction c) "down" = true ->
  visit (mirror dir c) (mirror_tally r) k (relabel p)
  = (mirror dir (fst (fst (visit c r k p))),
     mirror_tally (snd (fst (visit c r k p))),
     relabel (snd (visit c r k p)))
  /\ entry_direction (fst (fst (visit c r k p))) = entry_direction c.
Proof.
  intros Hdown. unfold visit.
  cbn [relabel TrackedPerson.centroids TrackedPerson.crossed_line
       mirror counting_line_y track_states entry_direction].
  destruct (length (TrackedPerson.centroids p) <? 2)%nat; [auto|].
  set (cur := if _ <? counting_line_y c then above else below).
  destruct (track_states c !! k) as [prev|]; [|auto].
  unfold crossing_direction. rewrite Hdown, not_down.
  destruct prev, cur; cbn [fst snd]; auto;
    destruct (TrackedPerson.crossed_line p); cbn [negb fst snd count];
    (split; [|reflexivity]); try reflexivity;
    (apply injective_projections; [apply injective_projections|];
     cbn [fst snd]; [| |reflexivity]);
    [unfold mirror, with_track_states, count_entry, count_exit; cbn;
     f_equal; lia
    |unfold mirror_tally; cbn; rewrite map_app; reflexivity
    |unfold mirror, with_track_states, count_entry, count_exit; cbn;
     f_equal; lia
    |unfold mirror_tally; cbn; rewrite map_app; reflexivity].
Qed.

Lemma scan_mirror tracks : forall c r,
  String.eqb (entry_direction c) "down" = true ->
  scan (mirror dir c) (mirror_tally r) (relabel_tracks tracks)
  = (mirror dir (fst (fst (scan c r tracks))),
     mirror_tally (snd (fst (scan c r tracks))),
     relabel_tracks (snd (scan c r tracks)))
  /\ entry_direction (fst (fst (scan c r tracks))) = entry_direction c.
Proof.
  induction tracks as [|[k p] rest IH]; intros c r Hdown; [auto|].
  cbn [relabel_tracks List.map fst snd scan].
  destruct (visit_mirror c r k p Hdown) as [Hv Hd]. rewrite Hv.
  destruct (visit c r k p) as [[c1 r1] p1]. cbn [fst snd] in *.
  assert (Hdown1 : String.eqb (entry_direction c1) "down" = true)
    by (rewrite Hd; exact Hdown).
  destruct (IH c1 r1 Hdown1) as [Hs Hd2].
  change (List.map (fun kv => (fst kv, relabel (snd kv))) rest)
    with (relabel_tracks rest).
  rewrite Hs. destruct (scan c1 r1 rest) as [[c2 r2] rest2].
  cbn [fst snd] in *. split; [reflexivity|congruence].
Qed.

Lemma update_mirror clock detections c :
  String.eqb (entry_direction c) "down" = true ->
  update clock detections (mirror dir c)
  = (mirror_tally (fst (update clock detections c)),
     mirror dir (snd (update clock detections c)))
  /\ entry_direction (snd (update clock detections c)) = entry_direction c.
Proof.
  intros Hdown. unfold update.
  change (tracker (mirror dir c)) with (relabel_tracker (tracker c)).
  rewrite tracker_update_relabel.
  set (tr := CentroidTracker.update clock detections (tracker c)).
  change (CentroidTracker.tracks (relabel_tracker tr))
    with (relabel_tracks (CentroidTracker.tracks tr)).
  destruct (scan_mirror (CentroidTracker.tracks tr) c
              {| new_entries := 0; new_exits := 0; crossings := [] |} Hdown)
    as [Hs Hd].
  change {| new_entries := 0; new_exits := 0; crossings := [] |}
    with (mirror_tally {| new_entries := 0; new_exits := 0; crossings := [] |})
    at 1.
  rewrite Hs.
  destruct (scan c _ (CentroidTracker.tracks tr)) as [[c1 r] tracks1].
  cbn [fst snd] in *. split; [|exact Hd].
  f_equal. unfold mirror, with_track_states, with_tracker, relabel_tracker,
    CentroidTracker.with_tracks.
  cbn. rewrite keys_relabel. reflexivity.
Qed.

Lemma run_mirror ops : forall c,
  String.eqb (entry_direction c) "down" = true ->
  run ops (mirror dir c) = mirror dir (run ops c).
Proof.
  induction ops as [|op ops IH]; intros c Hdown; [reflexivity|].
  cbn [run fold_left]. fold (run ops). destruct op as [f|]; cbn [step].
  - destruct (update_mirror (fst f) (snd f) c Hdown) as [Hu Hd].
    rewrite Hu. destruct (update (fst f) (snd f) c) as [r c'].
    cbn [fst snd] in *. apply IH. rewrite Hd. exact Hdown.
  - cbn [snd]. change (reset (mirror dir c)) with (mirror dir (reset c)).
    apply IH. exact Hdown.
Qed.

Lemma crossings_of_mirror frames : forall c,
  String.eqb (entry_direction c) "down" = true ->
  crossings_of frames (mirror dir c)
  = List.map (fun kd => (fst kd, opposite (snd kd))) (crossings_of frames c).
Proof.
  induction frames as [|f frames IH]; intros c Hdown; [reflexivity|].
  cbn [crossings_of].
  destruct (update_mirror (fst f) (snd f) c Hdown) as [Hu Hd].
  rewrite Hu. destruct (update (fst f) (snd f) c) as [r c'].
  cbn [fst snd] in *. rewrite map_app, IH by (rewrite Hd; exact Hdown).
  reflexivity.
Qed.
End Mirror.

(** X28.  [entry_direction] only decides which crossings are called entries:
    a counter built with any value other than 'down' (the documented 'up',
    but also a misspelt 'Down') sees, on the same calls, the same crossings
    of the same identities as a counter built with 'down', each with the
    opposite direction.  Its [total_entries] are the [total_exits] of the
    other, its [total_exits] the [total_entries], and its running occupancy
    is the opposite number. *)
Theorem entry_direction_swaps_the_roles :
  forall (line_y h : Z) (dir : string) (ops : list call) (frames : list frame),
    String.eqb dir "down" = false ->
    let down := run ops (__init__ line_y h "down") in
    let other := run ops (__init__ line_y h dir) in
    total_entries other = total_exits down
    /\ total_exits other = total_entries down
    /\ current_occupancy other = - current_occupancy down
    /\ track_states other = track_states down
    /\ OD.keys (CentroidTracker.tracks (tracker other))
       = OD.keys (CentroidTracker.tracks (tracker down))
    /\ crossings_of frames (__init__ line_y h dir)
       = List.map (fun kd => (fst kd, opposite (snd kd)))
           (crossings_of frames (__init__ line_y h "down")).
Proof.
  intros line_y h dir ops frames Hdir down other.
  assert (Hinit : __init__ line_y h dir = mirror dir (__init__ line_y h "down"))
    by reflexivity.
  assert (Hother : other = mirror dir down).
  { unfold other, down. rewrite Hinit. apply run_mirror; [exact Hdir|].
    reflexivity. }
  rewrite Hother, Hinit. repeat split.
  - apply keys_relabel.
  - apply crossings_of_mirror; [exact Hdir|reflexivity].
Qed.

Lemma entry_direction_swaps_the_roles_witness :
  total_entries (run CounterSpec.leaving (__init__ 300 480 "Down"))
  = total_exits (run CounterSpec.leaving (__init__ 300 480 "down")).
Proof.
  apply (entry_direction_swaps_the_roles 300 480 "Down" CounterSpec.leaving []).
  reflexivity.
Defined.
End MirrorFacts.
